(** * data-snapshot: the value-capture engine (snapshotCapture.ts)

    A shallow embedding of the capture engine and the properties of its
    components: the primitive value decoder, the bounded concurrency gate,
    the progress counter, the graph walker, the fast-path serializer and the
    capture orchestrator.  It is followed by the inline stub generator
    (inlineStubGenerator.ts), which rewrites a declaration into a read of
    the snapshot and reverts it, and by the capture command of the
    extension (extension.ts), which runs the one after the other.

    Modelling conventions.
    - A JavaScript string is a [string] of one-byte characters.
    - The single JavaScript thread is modelled by explicit state passing:
      an [async] function is a state transformer that returns, throws or
      never settles.  [Promise.all] over [children.map] walks the children
      from left to right, which is the order in which the calls are started
      and in which the results are assembled.
    - The debug adapter, the editor, the user and the host runtime are an
      environment record, universally quantified in every theorem.
    - A text document is the list of its lines; a regular expression that
      is a literal of the source is a function on strings, one that is
      built at run time is parsed and matched. *)

From Stdlib Require Import ZArith NArith List String Ascii Bool Lia.
From Stdlib Require Import SpecFloat DecimalString.
Import ListNotations.

#[local] Set Warnings "-register-all".

Local Open Scope string_scope.
Local Open Scope Z_scope.

(* ------------------------------------------------------------------ *)
(** ** Strings *)

(** The double quote character (code 34). *)
Definition dquote : string := String (ascii_of_nat 34) "".
(** The single quote character (code 39). *)
Definition squote : string := String (ascii_of_nat 39) "".
(** The line feed character (code 10). *)
Definition newline : string := String (ascii_of_nat 10) "".

Definition strlen (s : string) : Z := Z.of_nat (String.length s).

(** [s.startsWith(p)] *)
Definition startsWith (s p : string) : bool := String.prefix p s.

(** [s.endsWith(p)] *)
Definition endsWith (s p : string) : bool :=
  (String.length p <=? String.length s)%nat &&
  (substring (String.length s - String.length p) (String.length p) s =? p)%string.

(** [s.slice(start, stop)], negative indices counting from the end. *)
Definition slice (s : string) (start stop : Z) : string :=
  let len := strlen s in
  let from := if start <? 0 then Z.max (len + start) 0 else Z.min start len in
  let to := if stop <? 0 then Z.max (len + stop) 0 else Z.min stop len in
  substring (Z.to_nat from) (Z.to_nat (Z.max (to - from) 0)) s.

(** [s.includes(sub)] *)
Fixpoint includes (s sub : string) : bool :=
  String.prefix sub s ||
  match s with
  | EmptyString => false
  | String _ rest => includes rest sub
  end.

(** White space and line terminators, as far as one-byte characters go. *)
Definition isSpace (c : ascii) : bool :=
  let n := nat_of_ascii c in
  ((9 <=? n) && (n <=? 13) || (n =? 32))%nat.

Fixpoint trimStart (s : string) : string :=
  match s with
  | String c rest => if isSpace c then trimStart rest else s
  | EmptyString => EmptyString
  end.

Fixpoint trimEnd (s : string) : string :=
  match s with
  | EmptyString => EmptyString
  | String c rest =>
      let rest' := trimEnd rest in
      if isSpace c && (rest' =? "")%string then EmptyString else String c rest'
  end.

(** [s.trim()] *)
Definition trim (s : string) : string := trimEnd (trimStart s).

Fixpoint mapChars (f : ascii -> ascii) (s : string) : string :=
  match s with
  | EmptyString => EmptyString
  | String c rest => String (f c) (mapChars f rest)
  end.

Fixpoint allChars (p : ascii -> bool) (s : string) : bool :=
  match s with
  | EmptyString => true
  | String c rest => p c && allChars p rest
  end.

Definition codeBetween (lo hi : nat) (c : ascii) : bool :=
  let n := nat_of_ascii c in ((lo <=? n) && (n <=? hi))%nat.

(** [\d] *)
Definition isDigit (c : ascii) : bool := codeBetween 48 57 c.

(** [/^\d+$/.test(s)] *)
Definition matchesDigits (s : string) : bool :=
  negb (s =? "")%string && allChars isDigit s.

(** The longest prefix of digits, and what follows it. *)
Fixpoint spanDigits (s : string) : string * string :=
  match s with
  | String c rest =>
      if isDigit c
      then let (ds, tl) := spanDigits rest in (String c ds, tl)
      else (EmptyString, s)
  | EmptyString => (EmptyString, EmptyString)
  end.

(** [/^-?\d+(\.\d+)?$/.test(s)] *)
Definition matchesSignedDecimal (s : string) : bool :=
  let body := match s with String "-" rest => rest | _ => s end in
  let (int, tl) := spanDigits body in
  negb (int =? "")%string &&
  match tl with
  | EmptyString => true
  | String "." frac => matchesDigits frac
  | _ => false
  end.

(** [/^[\[{]/.test(s)] *)
Definition startsWithBracketOrBrace (s : string) : bool :=
  match s with
  | String "[" _ | String "{" _ => true
  | _ => false
  end.

(* ------------------------------------------------------------------ *)
(** ** Numbers

    [Number(raw)] follows the StringToNumber grammar of the language.  A
    number is kept as the value its literal denotes; the rounding of that
    value to a double is not modelled (the engine only asks [isNaN]). *)

Inductive number : Type :=
| NaN
| Infinity (negative : bool)
| Decimal (negative : bool) (digits : N) (exp10 : Z).

Definition isNaN (n : number) : bool :=
  match n with NaN => true | _ => false end.

Definition digitValue (c : ascii) : N :=
  let n := nat_of_ascii c in
  if codeBetween 48 57 c then N.of_nat (n - 48)
  else if codeBetween 97 102 c then N.of_nat (n - 87)
  else N.of_nat (n - 55).

Fixpoint digitsValue (radix : N) (acc : N) (s : string) : N :=
  match s with
  | EmptyString => acc
  | String c rest => digitsValue radix (radix * acc + digitValue c)%N rest
  end.

Definition isHexDigit (c : ascii) : bool :=
  codeBetween 48 57 c || codeBetween 97 102 c || codeBetween 65 70 c.

(** [0x..], [0o..] and [0b..] literals (no sign allowed). *)
Definition parseNonDecimal (s : string) : option number :=
  match s with
  | String "0" (String p ds) =>
      let lit radix ok :=
        if negb (ds =? "")%string && allChars ok ds
        then Some (Decimal false (digitsValue radix 0 ds) 0) else Some NaN in
      if (p =? "x")%char || (p =? "X")%char then lit 16%N isHexDigit
      else if (p =? "o")%char || (p =? "O")%char then lit 8%N (codeBetween 48 55)
      else if (p =? "b")%char || (p =? "B")%char then lit 2%N (codeBetween 48 49)
      else None
  | _ => None
  end.

(** An optional exponent part, up to the end of the text. *)
Definition parseExponent (s : string) : option Z :=
  match s with
  | EmptyString => Some 0
  | String e rest =>
      if (e =? "e")%char || (e =? "E")%char then
        let '(neg, ds) :=
          match rest with
          | String "-" t => (true, t)
          | String "+" t => (false, t)
          | _ => (false, rest)
          end in
        if matchesDigits ds
        then let v := Z.of_N (digitsValue 10 0 ds) in Some (if neg then - v else v)
        else None
      else None
  end.

Definition parseUnsignedDecimal (s : string) : option (N * Z) :=
  let (int, tl) := spanDigits s in
  match tl with
  | String "." tl' =>
      let (frac, tl'') := spanDigits tl' in
      if (int =? "")%string && (frac =? "")%string then None
      else
        match parseExponent tl'' with
        | Some e => Some (digitsValue 10 0 (int ++ frac), e - strlen frac)
        | None => None
        end
  | _ =>
      if (int =? "")%string then None
      else
        match parseExponent tl with
        | Some e => Some (digitsValue 10 0 int, e)
        | None => None
        end
  end.

(** [Number(raw)] for a string argument. *)
Definition Number (raw : string) : number :=
  let s := trim raw in
  if (s =? "")%string then Decimal false 0 0
  else
    match parseNonDecimal s with
    | Some n => n
    | None =>
        let '(neg, body) :=
          match s with
          | String "-" t => (true, t)
          | String "+" t => (false, t)
          | _ => (false, s)
          end in
        if (body =? "Infinity")%string then Infinity neg
        else
          match parseUnsignedDecimal body with
          | Some (m, e) => Decimal neg m e
          | None => NaN
          end
    end.

(* ------------------------------------------------------------------ *)
(** ** Materialized values *)

(** The JSON-compatible values the engine produces.  An object is the list
    of its properties in insertion order (the engine never enumerates them). *)
Inductive MValue : Type :=
| VUndefined
| VNull
| VBool (b : bool)
| VNumber (n : number)
| VString (s : string)
| VArray (items : list MValue)
| VObject (props : list (string * MValue)).

(** [o[k] = v] *)
Fixpoint setProp (k : string) (v : MValue) (o : list (string * MValue))
  : list (string * MValue) :=
  match o with
  | [] => [(k, v)]
  | (k', v') :: rest =>
      if (k' =? k)%string then (k', v) :: rest else (k', v') :: setProp k v rest
  end.

(** [Object.fromEntries(entries)]: later entries overwrite earlier ones. *)
Definition fromEntries (entries : list (string * MValue)) : list (string * MValue) :=
  fold_left (fun o kv => setProp (fst kv) (snd kv) o) entries [].

(** [o[k]] *)
Fixpoint getProp (k : string) (o : list (string * MValue)) : option MValue :=
  match o with
  | [] => None
  | (k', v) :: rest => if (k' =? k)%string then Some v else getProp k rest
  end.

(* ------------------------------------------------------------------ *)
(** ** Primitive value decoder *)

Definition parsePrimitiveValue (raw : string) (type : option string) : MValue :=
  if (raw =? "undefined")%string then VUndefined
  else if (raw =? "null")%string then VNull
  else if (raw =? "true")%string then VBool true
  else if (raw =? "false")%string then VBool false
  else
    let numeric :=
      match type with
      | Some t => (t =? "number")%string
      | None => matchesSignedDecimal raw
      end in
    if numeric && negb (isNaN (Number raw)) then VNumber (Number raw)
    else if startsWith raw dquote && endsWith raw dquote then VString (slice raw 1 (-1))
    else if startsWith raw squote && endsWith raw squote then VString (slice raw 1 (-1))
    else VString raw.

(* ------------------------------------------------------------------ *)
(** ** Doubles

    The progress percentage is computed on IEEE 754 binary64 numbers; the
    operations are the ones of the standard specification [SpecFloat]. *)

Definition prec : Z := 53.
Definition emax : Z := 1024.

(** A counter value as a double (exact below [2^53]). *)
Definition toDouble (n : N) : spec_float :=
  binary_normalize prec emax (Z.of_N n) 0 false.

(** [(completed / total) * 100] *)
Definition ratio100 (completed total : N) : spec_float :=
  SFmul prec emax (SFdiv prec emax (toDouble completed) (toDouble total)) (toDouble 100).

(** [Math.min(99, Math.floor(x))] as an integer.  Not-a-number and negative
    infinity have no integer value and are sent to 0: the division yields
    them only for a zero (or overflowing) total, and [report] returns before
    dividing when the total is 0. *)
Definition minFloor99 (x : spec_float) : Z :=
  match x with
  | S754_zero _ => 0
  | S754_finite s m e =>
      let v := if s then Zneg m else Zpos m in
      Z.min 99 (if 0 <=? e then v * 2 ^ e else v / 2 ^ (- e))
  | S754_infinity false => 99
  | S754_infinity true => 0
  | S754_nan => 0
  end.

(* ------------------------------------------------------------------ *)
(** ** Progress counter *)

Module SerializeCounter.

Record t : Type := mk
  { total : N;
    completed : N;
    lastPct : Z }.

(** The progress message: the two counts and the percentage it shows. *)
Record Message : Type := message
  { msgCompleted : N;
    msgTotal : N;
    msgPct : Z }.

Definition new : t := {| total := 0; completed := 0; lastPct := -1 |}.

Definition percent (c : t) : Z := minFloor99 (ratio100 (completed c) (total c)).

(** [report()]: the counter afterwards and the messages sent to the
    progress sink (none or one). *)
Definition report (c : t) : t * list Message :=
  if (total c =? 0)%N then (c, [])
  else
    let pct := percent c in
    if pct =? lastPct c then (c, [])
    else ({| total := total c; completed := completed c; lastPct := pct |},
          [ {| msgCompleted := completed c; msgTotal := total c; msgPct := pct |} ]).

Definition addItems (n : N) (c : t) : t * list Message :=
  report {| total := total c + n; completed := completed c; lastPct := lastPct c |}.

Definition completeItem (c : t) : t * list Message :=
  report {| total := total c; completed := completed c + 1; lastPct := lastPct c |}.

(** A sequence of method calls on one counter. *)
Inductive Call : Type :=
| AddItems (n : N)
| CompleteItem.

Definition call (k : Call) (c : t) : t * list Message :=
  match k with
  | AddItems n => addItems n c
  | CompleteItem => completeItem c
  end.

Fixpoint calls (ks : list Call) (c : t) : t * list Message :=
  match ks with
  | [] => (c, [])
  | k :: ks' =>
      let (c1, out1) := call k c in
      let (c2, out2) := calls ks' c1 in
      (c2, (out1 ++ out2)%list)
  end.

(** The percentages emitted by a sequence of calls on a fresh counter. *)
Definition emitted (ks : list Call) : list Z :=
  map msgPct (snd (calls ks new)).

End SerializeCounter.

Fixpoint nonDecreasing (l : list Z) : Prop :=
  match l with
  | a :: ((b :: _) as tl) => a <= b /\ nonDecreasing tl
  | _ => True
  end.

Fixpoint noConsecutiveRepeat (l : list Z) : Prop :=
  match l with
  | a :: ((b :: _) as tl) => a <> b /\ noConsecutiveRepeat tl
  | _ => True
  end.

(* ------------------------------------------------------------------ *)
(** ** Bounded concurrency gate *)

Module Semaphore.

(** [Waiter] stands for the [resolve] callbacks kept in the queue. *)
Record t (Waiter : Type) : Type := mk
  { active : Z;
    queue : list Waiter;
    limit : Z }.
Arguments mk {Waiter}.
Arguments active {Waiter}.
Arguments queue {Waiter}.
Arguments limit {Waiter}.

Definition new {Waiter} (limit : Z) : t Waiter :=
  {| active := 0; queue := []; limit := limit |}.

(** [acquire()]: the caller is admitted at once ([true]) or its [resolve]
    callback [w] is queued ([false]). *)
Definition acquire {Waiter} (w : Waiter) (s : t Waiter) : t Waiter * bool :=
  if active s <? limit s
  then ({| active := active s + 1; queue := queue s; limit := limit s |}, true)
  else ({| active := active s; queue := (queue s ++ [w])%list; limit := limit s |}, false).

(** [release()]: the waiter that is resumed, if any. *)
Definition release {Waiter} (s : t Waiter) : t Waiter * option Waiter :=
  let a := active s - 1 in
  match queue s with
  | next :: rest => ({| active := a + 1; queue := rest; limit := limit s |}, Some next)
  | [] => ({| active := a; queue := []; limit := limit s |}, None)
  end.

(** Concurrent [run] calls against one gate.  A task is the number of its
    [run] call.  [running] are the tasks between their admission and their
    release, [admitted] the admissions in the order they happened. *)
Record System : Type := system
  { sem : t nat;
    calls : nat;
    running : list nat;
    admitted : list nat }.

Definition init (limit : Z) : System :=
  {| sem := new limit; calls := 0; running := []; admitted := [] |}.

(** [Run]: a new call of [run(fn)], up to the end of [acquire()].
    [Settle k ok]: the task [fn] of the admitted call [k] settles, by
    success ([ok = true]) or failure, and the [finally] block releases. *)
Inductive Event : Type :=
| Run
| Settle (k : nat) (ok : bool).

Fixpoint removeFirst (k : nat) (l : list nat) : list nat :=
  match l with
  | [] => []
  | x :: rest => if Nat.eqb x k then rest else x :: removeFirst k rest
  end.

Definition step (e : Event) (sys : System) : option System :=
  match e with
  | Run =>
      let k := calls sys in
      let (s', now) := acquire k (sem sys) in
      Some {| sem := s'; calls := S k;
              running := if now then (running sys ++ [k])%list else running sys;
              admitted := if now then (admitted sys ++ [k])%list else admitted sys |}
  | Settle k _ =>
      if existsb (Nat.eqb k) (running sys) then
        let (s', next) := release (sem sys) in
        let resumed := match next with Some w => [w] | None => [] end in
        Some {| sem := s'; calls := calls sys;
                running := (removeFirst k (running sys) ++ resumed)%list;
                admitted := (admitted sys ++ resumed)%list |}
      else None
  end.

Fixpoint steps (es : list Event) (sys : System) : option System :=
  match es with
  | [] => Some sys
  | e :: es' =>
      match step e sys with
      | Some sys' => steps es' sys'
      | None => None
      end
  end.

End Semaphore.

(* ------------------------------------------------------------------ *)
(** ** The debug adapter protocol *)

Record DapThread : Type :=
  { threadId : Z;
    threadName : string }.

(** [name] is declared a string, the orchestrator still guards it with [??]. *)
Record DapStackFrame : Type :=
  { frameId : Z;
    frameName : option string;
    sourcePath : option string;
    frameLine : option Z }.

Record DapVariable : Type :=
  { name : string;
    value : string;
    type : option string;
    variablesReference : Z }.

(** The body of an [evaluate] response. *)
Record EvaluateResponse : Type :=
  { result : string;
    resultType : option string;
    resultReference : Z }.

Inductive Request : Type :=
| Threads
| StackTrace (thread : Z)
| Evaluate (expression : string) (frame : Z) (context : string)
| Variables (reference : Z).

(** A thrown value, read through [e.message]. *)
Record Error : Type := { message : option string }.

(** What becomes of a request: the response, a rejection, or no answer. *)
Inductive Reply (A : Type) : Type :=
| Resolves (a : A)
| Rejects (e : Error)
| Silent.
Arguments Resolves {A}.
Arguments Rejects {A}.
Arguments Silent {A}.

(* ------------------------------------------------------------------ *)
(** ** Snapshots *)

Record SnapshotSource : Type :=
  { file : string;
    line : Z;
    functionName : string }.

Record SnapshotFrame : Type :=
  { frame_name : option string;
    frame_id : Z }.

Record Snapshot : Type :=
  { version : Z;
    capturedAt : string;
    source : SnapshotSource;
    frame : SnapshotFrame;
    variables : list (string * MValue) }.

(* ------------------------------------------------------------------ *)
(** ** Environment and state *)

(** The files shared by the host and the debuggee: path to content. *)
Definition Files : Type := string -> option string.

Definition writeFile (path content : string) (fs : Files) : Files :=
  fun p => if (p =? path)%string then Some content else fs p.

Definition removeFile (path : string) (fs : Files) : Files :=
  fun p => if (p =? path)%string then None else fs p.

(** What the engine reads from outside.  A reply may depend on the number
    of requests sent before it.  [debuggee] is what serving a request does
    to the files (the fast-path script writes its artifact); [userCancels]
    tells whether cancellation is requested while a request is outstanding. *)
Record Env : Type :=
  { activeDebugSession : bool;
    selection : option string;
    maxDepthSetting : Z;
    threads : nat -> Reply (option (list DapThread));
    stackTrace : nat -> Z -> Reply (option (list DapStackFrame));
    evaluate : nat -> string -> Z -> string -> Reply (option EvaluateResponse);
    variablesOf : nat -> Z -> Reply (option (list DapVariable));
    debuggee : nat -> Request -> Files -> Files;
    userCancels : nat -> bool;
    tmpdir : string;
    dateNow : string;
    mathRandom : string;
    isoNow : string;
    JSON_parse : string -> option MValue;
    JSON_stringify : Snapshot -> string }.

(** Calls of the host's [fs] module. *)
Inductive FsCall : Type :=
| ReadFileSync (path : string)
| UnlinkSync (path : string)
| MkdirSync (path : string)
| WriteFileSync (path content : string).

(** Messages sent to the progress sink. *)
Inductive Progress : Type :=
| Note (text : string)
| Serializing (m : SerializeCounter.Message).

(** What the engine has done so far, and the objects its functions share
    by reference: the cancellation token, the progress counter and the gate
    (the parameters [token], [counter] and [semaphore] of the source).  The
    parameter [session] is the environment. *)
Record State : Type :=
  { requests : list Request;
    errorMessages : list string;
    progress : list Progress;
    files : Files;
    fsCalls : list FsCall;
    isCancellationRequested : bool;
    counter : SerializeCounter.t;
    semaphore : Semaphore.t unit }.

Definition setCounter (c : SerializeCounter.t) (out : list SerializeCounter.Message)
  (st : State) : State :=
  {| requests := requests st; errorMessages := errorMessages st;
     progress := (progress st ++ map Serializing out)%list;
     files := files st; fsCalls := fsCalls st;
     isCancellationRequested := isCancellationRequested st;
     counter := c; semaphore := semaphore st |}.

Definition setSemaphore (s : Semaphore.t unit) (st : State) : State :=
  {| requests := requests st; errorMessages := errorMessages st;
     progress := progress st; files := files st; fsCalls := fsCalls st;
     isCancellationRequested := isCancellationRequested st;
     counter := counter st; semaphore := s |}.

Definition addErrorMessage (text : string) (st : State) : State :=
  {| requests := requests st; errorMessages := (errorMessages st ++ [text])%list;
     progress := progress st; files := files st; fsCalls := fsCalls st;
     isCancellationRequested := isCancellationRequested st;
     counter := counter st; semaphore := semaphore st |}.

Definition addProgress (p : Progress) (st : State) : State :=
  {| requests := requests st; errorMessages := errorMessages st;
     progress := (progress st ++ [p])%list; files := files st; fsCalls := fsCalls st;
     isCancellationRequested := isCancellationRequested st;
     counter := counter st; semaphore := semaphore st |}.

Definition addFsCall (c : FsCall) (fs : Files) (st : State) : State :=
  {| requests := requests st; errorMessages := errorMessages st;
     progress := progress st; files := fs; fsCalls := (fsCalls st ++ [c])%list;
     isCancellationRequested := isCancellationRequested st;
     counter := counter st; semaphore := semaphore st |}.

(** The state once the request [req], the [k]-th one, has been served. *)
Definition addRequest (env : Env) (req : Request) (st : State) : State :=
  let k := List.length (requests st) in
  {| requests := (requests st ++ [req])%list; errorMessages := errorMessages st;
     progress := progress st; files := debuggee env k req (files st);
     fsCalls := fsCalls st;
     isCancellationRequested := isCancellationRequested st || userCancels env k;
     counter := counter st; semaphore := semaphore st |}.

(* ------------------------------------------------------------------ *)
(** ** Asynchronous computations *)

(** An awaited promise fulfils, rejects, or never settles. *)
Inductive Outcome (A : Type) : Type :=
| Returned (a : A)
| Threw (e : Error)
| Pending.
Arguments Returned {A}.
Arguments Threw {A}.
Arguments Pending {A}.

Definition M (A : Type) : Type := State -> Outcome A * State.

Definition ret {A} (a : A) : M A := fun st => (Returned a, st).

Definition throw {A} (e : Error) : M A := fun st => (Threw e, st).

Definition bind {A B} (m : M A) (k : A -> M B) : M B :=
  fun st =>
    match m st with
    | (Returned a, st') => k a st'
    | (Threw e, st') => (Threw e, st')
    | (Pending, st') => (Pending, st')
    end.

Declare Scope async_scope.
Delimit Scope async_scope with async.
Notation "x <- m ;; k" := (bind m (fun x => k))
  (at level 61, m at next level, right associativity) : async_scope.
Notation "m ;; k" := (bind m (fun _ => k))
  (at level 61, right associativity) : async_scope.
Local Open Scope async_scope.

(** [try { body } catch (e) { handler }] *)
Definition tryCatch {A} (body : M A) (handler : Error -> M A) : M A :=
  fun st =>
    match body st with
    | (Threw e, st') => handler e st'
    | r => r
    end.

(** [try { body } finally { cleanup }] *)
Definition tryFinally {A} (body : M A) (cleanup : M unit) : M A :=
  fun st =>
    match body st with
    | (Pending, st') => (Pending, st')
    | (r, st') =>
        match cleanup st' with
        | (Returned _, st'') => (r, st'')
        | (Threw e, st'') => (Threw e, st'')
        | (Pending, st'') => (Pending, st'')
        end
    end.

(** [let x; try { x = await body } catch (e) { return onError(e) }; rest(x)] *)
Definition attempt {A B} (body : M A) (onError : Error -> M B) (rest : A -> M B) : M B :=
  fun st =>
    match body st with
    | (Returned a, st') => rest a st'
    | (Threw e, st') => onError e st'
    | (Pending, st') => (Pending, st')
    end.

(** [Promise.all(items.map(f))], the items taken from left to right. *)
Fixpoint mapM {A B} (f : A -> M B) (items : list A) : M (list B) :=
  match items with
  | [] => ret []
  | x :: rest => y <- f x ;; ys <- mapM f rest ;; ret (y :: ys)
  end.

(** [session.customRequest(...)] *)
Definition customRequest {A} (env : Env) (req : Request) (reply : nat -> Reply A) : M A :=
  fun st =>
    let st' := addRequest env req st in
    match reply (List.length (requests st)) with
    | Resolves a => (Returned a, st')
    | Rejects e => (Threw e, st')
    | Silent => (Pending, st')
    end.

Definition timeoutError (label : string) : Error :=
  {| message := Some ("Data Snapshot: Timed out waiting for " ++ label
                      ++ ". Is the debugger paused at a breakpoint?") |}.

(** [withTimeout(thenable, ms, label)]: a request that is not answered
    within the delay is rejected with the timeout error. *)
Definition withTimeout {A} (thenable : M A) (label : string) : M A :=
  fun st =>
    match thenable st with
    | (Pending, st') => (Threw (timeoutError label), st')
    | r => r
    end.

Definition showErrorMessage (text : string) : M unit :=
  fun st => (Returned tt, addErrorMessage text st).

Definition progressReport (text : string) : M unit :=
  fun st => (Returned tt, addProgress (Note text) st).

Definition readFileSync (path : string) : M string :=
  fun st =>
    let st' := addFsCall (ReadFileSync path) (files st) st in
    match files st path with
    | Some content => (Returned content, st')
    | None => (Threw {| message := Some "ENOENT: no such file or directory" |}, st')
    end.

Definition unlinkSync (path : string) : M unit :=
  fun st =>
    match files st path with
    | Some _ => (Returned tt, addFsCall (UnlinkSync path) (removeFile path (files st)) st)
    | None => (Threw {| message := Some "ENOENT: no such file or directory" |},
               addFsCall (UnlinkSync path) (files st) st)
    end.

Definition mkdirSync (path : string) : M unit :=
  fun st => (Returned tt, addFsCall (MkdirSync path) (files st) st).

Definition writeFileSync (path content : string) : M unit :=
  fun st => (Returned tt, addFsCall (WriteFileSync path content) (writeFile path content (files st)) st).

(** [path.join(a, b)] for plain segments. *)
Definition pathJoin (a b : string) : string := a ++ "/" ++ b.

(** The counter and the gate are objects shared by the whole walk. *)
Definition counterAddItems (n : N) : M unit :=
  fun st =>
    let (c, out) := SerializeCounter.addItems n (counter st) in
    (Returned tt, setCounter c out st).

Definition counterCompleteItem : M unit :=
  fun st =>
    let (c, out) := SerializeCounter.completeItem (counter st) in
    (Returned tt, setCounter c out st).

Definition semaphoreRelease : M unit :=
  fun st => (Returned tt, setSemaphore (fst (Semaphore.release (semaphore st))) st).

(** [semaphore.run(fn)].  A caller that is queued stays queued: taken from
    left to right, no other task is left to release a slot. *)
Definition semaphoreRun {A} (fn : M A) : M A :=
  fun st =>
    let (s, now) := Semaphore.acquire tt (semaphore st) in
    if now then tryFinally fn semaphoreRelease (setSemaphore s st)
    else (Pending, setSemaphore s st).

(* ------------------------------------------------------------------ *)
(** ** Graph walker (slow path) *)

Definition requestVariables (env : Env) (reference : Z) : M (option (list DapVariable)) :=
  customRequest env (Variables reference) (fun k => variablesOf env k reference).

(** [children.length > 0 && children.every((c) => /^\d+$/.test(c.name))] *)
Definition isArrayLike (children : list DapVariable) : bool :=
  (0 <? Z.of_nat (List.length children)) &&
  forallb (fun c => matchesDigits (name c)) children.

(** [children.filter((c) => !c.name.startsWith("[["))] *)
Definition relevantChildren (children : list DapVariable) : list DapVariable :=
  List.filter (fun c => negb (startsWith (name c) "[[")) children.

Definition cancelledSentinel : MValue := VString "[cancelled]".

Definition unresolvedSentinel (variable : DapVariable) : MValue :=
  VString ("[unresolved: "
           ++ match type variable with Some t => t | None => "object" end
           ++ "]").

(** The body of [serializeVariable]; [recurse child d] stands for the
    recursive call [serializeVariable(session, child, d, maxDepth, ...)]. *)
Definition serializeStep (recurse : DapVariable -> Z -> M MValue) (env : Env)
  (variable : DapVariable) (depth maxDepth : Z) : M MValue :=
  fun st =>
    if isCancellationRequested st then (Returned cancelledSentinel, st)
    else if (variablesReference variable =? 0) || (depth >=? maxDepth) then
      if negb (variablesReference variable =? 0)
      then (Returned (unresolvedSentinel variable), st)
      else (Returned (parsePrimitiveValue (value variable) (type variable)), st)
    else
      (response <- semaphoreRun (requestVariables env (variablesReference variable)) ;;
       let children := match response with Some vs => vs | None => [] end in
       if isArrayLike children then
         counterAddItems (N.of_nat (List.length children)) ;;
         results <- mapM (fun child =>
                            result <- recurse child (depth + 1) ;;
                            counterCompleteItem ;;
                            ret result) children ;;
         ret (VArray results)
       else
         let relevant := relevantChildren children in
         counterAddItems (N.of_nat (List.length relevant)) ;;
         entries <- mapM (fun child =>
                            result <- recurse child (depth + 1) ;;
                            counterCompleteItem ;;
                            ret (name child, result)) relevant ;;
         ret (VObject (fromEntries entries))) st.

(** The recursion, bounded by the number of levels left below [maxDepth]:
    with no level left the body returns before it recurses. *)
Fixpoint serializeLevels (levels : nat) (env : Env) (variable : DapVariable)
  (depth maxDepth : Z) : M MValue :=
  serializeStep
    (match levels with
     | O => fun _ _ st => (Pending, st)
     | S levels' => fun child d => serializeLevels levels' env child d maxDepth
     end)
    env variable depth maxDepth.

Definition serializeVariable (env : Env) (variable : DapVariable)
  (depth maxDepth : Z) : M MValue :=
  serializeLevels (Z.to_nat (maxDepth - depth)) env variable depth maxDepth.

(* ------------------------------------------------------------------ *)
(** ** Fast-path serializer *)

Definition tmpFileOf (env : Env) : string :=
  pathJoin (tmpdir env) ("data-snapshot-" ++ dateNow env ++ "-" ++ mathRandom env ++ ".json").

(** The program evaluated in the debuggee; [escapedPath] is the quoted path. *)
Definition fastScript (escapedPath expression : string) : string :=
  "(() => { "
  ++ "var __s = new WeakSet(); "
  ++ "require('fs').writeFileSync(" ++ escapedPath ++ ", JSON.stringify(" ++ expression
  ++ ", function(k, v) { "
  ++ "if (typeof v === 'object' && v !== null) { if (__s.has(v)) return '[circular]'; __s.add(v); } "
  ++ "if (typeof v === 'function') return '[function]'; "
  ++ "if (typeof v === 'bigint') return v.toString(); "
  ++ "return v; })); "
  ++ "return 'ok'; })()".

Definition requestEvaluate (env : Env) (expression : string) (frame : Z) (context : string)
  : M (option EvaluateResponse) :=
  customRequest env (Evaluate expression frame context)
                (fun k => evaluate env k expression frame context).

(** [JSON.parse(json)], which throws on malformed text. *)
Definition parseJSON (env : Env) (json : string) : M MValue :=
  match JSON_parse env json with
  | Some v => ret v
  | None => throw {| message := Some "SyntaxError: malformed JSON" |}
  end.

(** [resp?.result?.includes?.("ok")] *)
Definition reportsOk (resp : option EvaluateResponse) : bool :=
  match resp with Some r => includes (result r) "ok" | None => false end.

(** [fastSerialize]: the value read back, or [VUndefined] when the fast path
    is unavailable.  The [try] block yields [Some v] when it returns [v] and
    [None] when control falls out of it.  The path is put between quotes;
    the escaping [JSON.stringify] would add to it is not modelled. *)
Definition fastSerialize (env : Env) (expression : string) (frame : Z) : M MValue :=
  let tmpFile := tmpFileOf env in
  let escapedPath := dquote ++ tmpFile ++ dquote in
  let script := fastScript escapedPath expression in
  returned <-
    tryFinally
      (tryCatch
         (resp <- requestEvaluate env script frame "repl" ;;
          if reportsOk resp
          then json <- readFileSync tmpFile ;;
               v <- parseJSON env json ;;
               ret (Some v)
          else ret None)
         (fun _ => ret None))
      (tryCatch (unlinkSync tmpFile) (fun _ => ret tt)) ;;
  match returned with
  | Some v => ret v
  | None => ret VUndefined
  end.

(* ------------------------------------------------------------------ *)
(** ** Capture orchestrator *)

Definition DAP_CONCURRENCY : Z := 20.

(** [/[^a-zA-Z0-9_-]/] does not match [c]. *)
Definition isNameChar (c : ascii) : bool :=
  codeBetween 97 122 c || codeBetween 65 90 c || codeBetween 48 57 c
  || (c =? "_")%char || (c =? "-")%char.

(** What [replace(/[^a-zA-Z0-9_-]/g, "_")] puts for the character [c]. *)
Definition underscoreOther (c : ascii) : ascii :=
  if isNameChar c then c else "_"%char.

(** [name.replace(/[^a-zA-Z0-9_-]/g, "_").slice(0, 64)] *)
Definition sanitizeName (name : string) : string :=
  slice (mapChars underscoreOther name) 0 64.

(** What [replace(/[:.]/g, "-")] puts for the character [c]. *)
Definition dashColonDot (c : ascii) : ascii :=
  if (c =? ":")%char || (c =? ".")%char then "-"%char else c.

(** [iso.replace(/[:.]/g, "-")] *)
Definition dashTimestamp (iso : string) : string := mapChars dashColonDot iso.

Definition isUndefined (v : MValue) : bool :=
  match v with VUndefined => true | _ => false end.

Definition orElse {A} (x : option A) (default : A) : A :=
  match x with Some a => a | None => default end.

Definition CaptureResult : Type := option (string * Snapshot).

(** From the cancellation check after serialization to the end. *)
Definition assemble (env : Env) (workspaceRoot expression : string)
  (topFrame : DapStackFrame) (serialized : MValue) : M CaptureResult :=
  fun st =>
    if isCancellationRequested st then (Returned None, st)
    else
      (let timestamp := dashTimestamp (isoNow env) in
       let functionName := orElse (frameName topFrame) "unknown" in
       let snapshot :=
         {| version := 1;
            capturedAt := isoNow env;
            source := {| file := orElse (sourcePath topFrame) "";
                         line := orElse (frameLine topFrame) 0;
                         functionName := functionName |};
            frame := {| frame_name := frameName topFrame; frame_id := frameId topFrame |};
            variables := [(expression, serialized)] |} in
       let snapshotsDir := pathJoin (pathJoin workspaceRoot ".snapshots") "snapshots" in
       mkdirSync snapshotsDir ;;
       let safeName :=
         sanitizeName functionName ++ "_" ++ sanitizeName expression ++ "_" ++ timestamp in
       let snapshotPath := pathJoin snapshotsDir (safeName ++ ".json") in
       writeFileSync snapshotPath (JSON_stringify env snapshot) ;;
       ret (Some (snapshotPath, snapshot))) st.

Definition evaluateErrorText (expression : string) (e : Error) : string :=
  match message e with
  | Some m =>
      if startsWith m "Data Snapshot:" then m
      else "Data Snapshot: Could not evaluate " ++ dquote ++ expression ++ dquote
           ++ ". Make sure the debugger is paused and the variable is in scope."
  | None =>
      "Data Snapshot: Could not evaluate " ++ dquote ++ expression ++ dquote
      ++ ". Make sure the debugger is paused and the variable is in scope."
  end.

(** The slow fallback: one [evaluate] call, then the graph walk. *)
Definition slowPath (env : Env) (workspaceRoot expression : string)
  (topFrame : DapStackFrame) (maxDepth : Z) : M CaptureResult :=
  progressReport "Fast path unavailable — using DAP fallback…" ;;
  attempt
    (withTimeout (requestEvaluate env expression (frameId topFrame) "hover") "evaluate")
    (fun e => showErrorMessage (evaluateErrorText expression e) ;; ret None)
    (fun evalResp =>
       (fun st => (Returned tt, setSemaphore (Semaphore.new DAP_CONCURRENCY) st)) ;;
       match evalResp with
       | None => throw {| message := Some "TypeError: Cannot read properties of undefined" |}
       | Some r =>
           let dapVar :=
             {| name := expression; value := result r; type := resultType r;
                variablesReference := resultReference r |} in
           serialized <- serializeVariable env dapVar 0 maxDepth ;;
           assemble env workspaceRoot expression topFrame serialized
       end).

(** The callback given to [withProgress]. *)
Definition captureWithProgress (env : Env) (workspaceRoot expression : string)
  : M CaptureResult :=
  let maxDepth := maxDepthSetting env in
  (fun st => (Returned tt, setCounter SerializeCounter.new [] st)) ;;
  progressReport "Evaluating expression…" ;;
  attempt
    (withTimeout (customRequest env Threads (threads env)) "threads")
    (fun e =>
       showErrorMessage (orElse (message e) "Data Snapshot: Failed to get threads.") ;;
       ret None)
    (fun threadsResp =>
       match orElse threadsResp [] with
       | [] => showErrorMessage "Data Snapshot: No threads found." ;; ret None
       | thread0 :: _ =>
           attempt
             (withTimeout
                (customRequest env (StackTrace (threadId thread0))
                               (fun k => stackTrace env k (threadId thread0)))
                "stack trace")
             (fun e =>
                showErrorMessage
                  (orElse (message e) "Data Snapshot: Failed to get stack trace.") ;;
                ret None)
             (fun stackResp =>
                match orElse stackResp [] with
                | [] =>
                    showErrorMessage
                      "Data Snapshot: No stack frames — is the debugger paused at a breakpoint?" ;;
                    ret None
                | topFrame :: _ =>
                    progressReport "Serializing (fast path)…" ;;
                    serialized <- fastSerialize env expression (frameId topFrame) ;;
                    if isUndefined serialized
                    then slowPath env workspaceRoot expression topFrame maxDepth
                    else assemble env workspaceRoot expression topFrame serialized
                end)
       end).

Definition selectFirstText : string :=
  "Data Snapshot: Select a variable or expression in the editor first.".

Definition notValidText (expression : string) : string :=
  "Data Snapshot: " ++ dquote ++ expression ++ dquote ++ " is not a valid expression. "
  ++ "Select a single variable name or property access (e.g. "
  ++ dquote ++ "listings" ++ dquote ++ " or " ++ dquote ++ "order.items" ++ dquote ++ ").".

Definition captureVariable (env : Env) (workspaceRoot : string) : M CaptureResult :=
  if negb (activeDebugSession env) then
    showErrorMessage "Data Snapshot: No active debug session." ;; ret None
  else
    match option_map trim (selection env) with
    | None => showErrorMessage selectFirstText ;; ret None
    | Some expression =>
        if (expression =? "")%string then showErrorMessage selectFirstText ;; ret None
        else if startsWithBracketOrBrace expression || includes expression newline then
          showErrorMessage (notValidText expression) ;; ret None
        else captureWithProgress env workspaceRoot expression
    end.

(* ------------------------------------------------------------------ *)
(** ** Specification of the decoder *)

(** The four literal texts that denote a value of their own. *)
Definition isKeyword (raw : string) : Prop :=
  raw = "undefined" \/ raw = "null" \/ raw = "true" \/ raw = "false".

(** The numeric rule applies: the tag says number, or there is no tag and
    the text is a signed integer or decimal. *)
Definition looksNumeric (raw : string) (type : option string) : Prop :=
  type = Some "number" \/ (type = None /\ matchesSignedDecimal raw = true).

Definition parsesAsNumber (raw : string) (type : option string) : Prop :=
  looksNumeric raw type /\ isNaN (Number raw) = false.

(** The text starts and ends with the quote character [q]. *)
Definition wrappedIn (q raw : string) : Prop :=
  startsWith raw q = true /\ endsWith raw q = true.

(** The decoder as the specification words it: a numeric text whose parse
    is not-a-number falls back to the raw string. *)
Definition decodeAsWorded (raw : string) (type : option string) : MValue :=
  if (raw =? "undefined")%string then VUndefined
  else if (raw =? "null")%string then VNull
  else if (raw =? "true")%string then VBool true
  else if (raw =? "false")%string then VBool false
  else if match type with
          | Some t => (t =? "number")%string
          | None => matchesSignedDecimal raw
          end
  then (if isNaN (Number raw) then VString raw else VNumber (Number raw))
  else if startsWith raw dquote && endsWith raw dquote then VString (slice raw 1 (-1))
  else if startsWith raw squote && endsWith raw squote then VString (slice raw 1 (-1))
  else VString raw.

(** The rules of the decoder, each with the condition that no earlier rule
    applies; a numeric text that does not parse goes on to the quote rules. *)
Inductive Decodes (raw : string) (type : option string) : MValue -> Prop :=
| DecodesUndefined : raw = "undefined" -> Decodes raw type VUndefined
| DecodesNull : raw = "null" -> Decodes raw type VNull
| DecodesTrue : raw = "true" -> Decodes raw type (VBool true)
| DecodesFalse : raw = "false" -> Decodes raw type (VBool false)
| DecodesNumber :
    ~ isKeyword raw -> parsesAsNumber raw type ->
    Decodes raw type (VNumber (Number raw))
| DecodesQuoted :
    ~ isKeyword raw -> ~ parsesAsNumber raw type ->
    wrappedIn dquote raw \/ wrappedIn squote raw ->
    Decodes raw type (VString (slice raw 1 (-1)))
| DecodesRaw :
    ~ isKeyword raw -> ~ parsesAsNumber raw type ->
    ~ wrappedIn dquote raw -> ~ wrappedIn squote raw ->
    Decodes raw type (VString raw).

(* ------------------------------------------------------------------ *)
(** ** Specification of the progress counter *)

(** A double whose sign bit is clear, or not-a-number. *)
Definition signless (x : spec_float) : Prop :=
  match x with
  | S754_zero s | S754_infinity s | S754_finite s _ _ => s = false
  | S754_nan => True
  end.

(** A double other than not-a-number. *)
Definition isNumber (x : spec_float) : Prop :=
  match x with S754_nan => False | _ => True end.

(** The message was computed from its two counts, with a non-zero divisor. *)
Definition wellFormedMessage (m : SerializeCounter.Message) : Prop :=
  SerializeCounter.msgTotal m <> 0%N
  /\ SerializeCounter.msgPct m
     = minFloor99 (ratio100 (SerializeCounter.msgCompleted m) (SerializeCounter.msgTotal m)).

(** No [addItems] call of the sequence raises the total. *)
Definition addsNothing (k : SerializeCounter.Call) : Prop :=
  match k with
  | SerializeCounter.AddItems n => n = 0%N
  | SerializeCounter.CompleteItem => True
  end.

(* ------------------------------------------------------------------ *)
(** ** Specification of the gate *)

(** The invariant of the gate with limit [n]. *)
Definition gateInvariant (n : nat) (sys : Semaphore.System) : Prop :=
  Semaphore.limit (Semaphore.sem sys) = Z.of_nat n
  /\ Semaphore.active (Semaphore.sem sys) = Z.of_nat (List.length (Semaphore.running sys))
  /\ (List.length (Semaphore.running sys) <= n)%nat
  /\ (Semaphore.queue (Semaphore.sem sys) <> [] -> List.length (Semaphore.running sys) = n)
  /\ (Semaphore.admitted sys ++ Semaphore.queue (Semaphore.sem sys))%list
     = seq 0 (Semaphore.calls sys).

(** What [release()] does when the task [k] settles in [sys]: the oldest
    waiter, if any, takes over the slot. *)
Definition handsOver (sys sys' : Semaphore.System) : Prop :=
  match Semaphore.queue (Semaphore.sem sys) with
  | oldest :: rest =>
      Semaphore.active (Semaphore.sem sys') = Semaphore.active (Semaphore.sem sys)
      /\ Semaphore.queue (Semaphore.sem sys') = rest
      /\ Semaphore.admitted sys' = (Semaphore.admitted sys ++ [oldest])%list
      /\ In oldest (Semaphore.running sys')
      /\ List.length (Semaphore.running sys') = List.length (Semaphore.running sys)
  | [] =>
      Semaphore.active (Semaphore.sem sys') = Semaphore.active (Semaphore.sem sys) - 1
      /\ Semaphore.queue (Semaphore.sem sys') = []
      /\ Semaphore.admitted sys' = Semaphore.admitted sys
      /\ S (List.length (Semaphore.running sys')) = List.length (Semaphore.running sys)
  end.

(** Three calls against a gate of two slots, the first of which then fails. *)
Definition gateExampleEvents : list Semaphore.Event :=
  [Semaphore.Run; Semaphore.Run; Semaphore.Run; Semaphore.Settle 0 false].

Definition gateExampleSystem : Semaphore.System :=
  Semaphore.system (Semaphore.mk 2 [] 2) 3 [1; 2]%nat [0; 1; 2]%nat.

(* ------------------------------------------------------------------ *)
(** ** Specification of the graph walker *)



(** [s] begins with the prefix [p]. *)
Definition beginsWith (p s : string) : Prop := exists rest, s = p ++ rest.

(** [sub] occurs in [s]. *)
Definition occursIn (sub s : string) : Prop := exists before after, s = before ++ sub ++ after.



(** The gate has a free slot and nobody waits. *)
Definition gateFree (st : State) : Prop :=
  Semaphore.queue (semaphore st) = []
  /\ Semaphore.active (semaphore st) < Semaphore.limit (semaphore st).

Definition neverCancels (env : Env) : Prop := forall k, userCancels env k = false.

(** A synthetic chain of composites: the node with handle [i] has the single
    child [next], a composite with handle [i + 1]. *)
Definition chainChild (reference : Z) : DapVariable :=
  {| name := "next"; value := "Object"; type := Some "Object";
     variablesReference := reference |}.

(** The chain from handle 1 is nested to depth [D] at least. *)
Definition nestedTo (D : Z) (env : Env) : Prop :=
  forall k i, 1 <= i < D -> variablesOf env k i = Resolves (Some [chainChild (i + 1)]).

(** [n] objects around [leaf], each under the property [next]. *)
Fixpoint nest (n : nat) (leaf : MValue) : MValue :=
  match n with
  | O => leaf
  | S n' => VObject [("next", nest n' leaf)]
  end.

(** The value [d] levels below [v] along the property [key]; depth 0 is [v]
    itself, the originally requested expression. *)
Fixpoint below (key : string) (d : nat) (v : MValue) : option MValue :=
  match d with
  | O => Some v
  | S d' =>
      match v with
      | VObject props =>
          match getProp key props with
          | Some child => below key d' child
          | None => None
          end
      | _ => None
      end
  end.

(** The same with depth 0 at the immediate children of the expression. *)
Definition belowChildren (key : string) (d : nat) (v : MValue) : option MValue :=
  below key (S d) v.

(* ------------------------------------------------------------------ *)
(** ** Specification of the fast path *)

(** The [evaluate] request of the fast path. *)
Definition fastRequest (env : Env) (expression : string) (frame : Z) : Request :=
  Evaluate (fastScript (dquote ++ tmpFileOf env ++ dquote) expression) frame "repl".

(** The reply to the fast-path request sent in state [st]. *)
Definition fastReply (env : Env) (expression : string) (frame : Z) (st : State)
  : Reply (option EvaluateResponse) :=
  evaluate env (List.length (requests st))
           (fastScript (dquote ++ tmpFileOf env ++ dquote) expression) frame "repl".

(** The causes of failure of the fast path, for the request sent in [st]:
    the evaluation is rejected or does not report success, the artifact is
    missing once the request is served, or its content does not parse. *)
Definition fastPathFails (env : Env) (expression : string) (frame : Z) (st : State) : Prop :=
  let st1 := addRequest env (fastRequest env expression frame) st in
  (exists e, fastReply env expression frame st = Rejects e)
  \/ (exists resp, fastReply env expression frame st = Resolves resp /\ reportsOk resp = false)
  \/ (exists resp, fastReply env expression frame st = Resolves resp
                   /\ files st1 (tmpFileOf env) = None)
  \/ (exists resp json, fastReply env expression frame st = Resolves resp
                        /\ files st1 (tmpFileOf env) = Some json
                        /\ JSON_parse env json = None).

(** The state once [unlinkSync(path)] has been tried, whatever came of it. *)
Definition afterUnlink (path : string) (st : State) : State := snd (unlinkSync path st).

(* ------------------------------------------------------------------ *)
(** ** Scenarios *)

(** Nothing has happened yet: empty logs, no file, a fresh counter and gate. *)
Definition idle : State :=
  {| requests := []; errorMessages := []; progress := [];
     files := fun _ => None; fsCalls := [];
     isCancellationRequested := false;
     counter := SerializeCounter.new;
     semaphore := Semaphore.new DAP_CONCURRENCY |}.

Definition cancelRequested : State :=
  {| requests := []; errorMessages := []; progress := [];
     files := fun _ => None; fsCalls := [];
     isCancellationRequested := true;
     counter := SerializeCounter.new;
     semaphore := Semaphore.new DAP_CONCURRENCY |}.

Definition mainFrame : DapStackFrame :=
  {| frameId := 7; frameName := Some "load.items"; sourcePath := Some "/src/app.ts";
     frameLine := Some 12 |}.

(** A paused session whose fast path fails (the evaluation is rejected in
    the [repl] context) and whose object graph is given by [graph]. *)
Definition session (selected : option string) (maxDepth : Z)
  (root : EvaluateResponse) (graph : Z -> option (list DapVariable))
  (cancels : nat -> bool) : Env :=
  {| activeDebugSession := true;
     selection := selected;
     maxDepthSetting := maxDepth;
     threads := fun _ => Resolves (Some [ {| threadId := 1; threadName := "main" |} ]);
     stackTrace := fun _ _ => Resolves (Some [mainFrame]);
     evaluate := fun _ _ _ context =>
                   if (context =? "hover")%string then Resolves (Some root)
                   else Rejects {| message := Some "ReferenceError" |};
     variablesOf := fun _ reference => Resolves (graph reference);
     debuggee := fun _ _ fs => fs;
     userCancels := cancels;
     tmpdir := "/tmp";
     dateNow := "1700000000000";
     mathRandom := "k3x9q";
     isoNow := "2024-01-02T03:04:05.678Z";
     JSON_parse := fun _ => None;
     JSON_stringify := fun _ => "{}" |}.

Definition primitive (n v : string) : DapVariable :=
  {| name := n; value := v; type := None; variablesReference := 0 |}.

Definition composite (n : string) (reference : Z) : DapVariable :=
  {| name := n; value := "Object"; type := Some "Object"; variablesReference := reference |}.

(** Handle 1 has the children 0, 1, 2; handle 2 the children 0 and foo;
    handle 3 an internal slot beside a property. *)
Definition sampleGraph (reference : Z) : option (list DapVariable) :=
  if reference =? 1 then Some [primitive "0" "10"; primitive "1" "20"; primitive "2" "30"]
  else if reference =? 2 then Some [primitive "0" "10"; primitive "foo" "'bar'"]
  else if reference =? 3 then Some [primitive "a" "true"; composite "[[Prototype]]" 4]
  else None.

Definition sampleEnv : Env :=
  session (Some "order") 5
          {| result := "Object"; resultType := Some "Object"; resultReference := 1 |}
          sampleGraph (fun _ => false).

(** An endless chain: every handle has one composite child [next]. *)
Definition chainEnv (maxDepth : Z) : Env :=
  session (Some "order") maxDepth
          {| result := "Object"; resultType := Some "Object"; resultReference := 1 |}
          (fun reference => Some [chainChild (reference + 1)]) (fun _ => false).

(* ------------------------------------------------------------------ *)
(** ** Specification of the orchestrator *)

(** [m] leaves the observation [K] of the state as it was. *)
Definition preserves {A X} (K : State -> X) (m : M A) : Prop :=
  forall st r st', m st = (r, st') -> K st' = K st.

Definition isWrite (c : FsCall) : bool :=
  match c with WriteFileSync _ _ => true | _ => false end.

(** The [writeFileSync] calls made so far. *)
Definition written (st : State) : list FsCall := List.filter isWrite (fsCalls st).

(** How a capture of [expression] ends: without any new write and without
    a result, or through [assemble]. *)
Definition finishes (env : Env) (workspaceRoot expression : string) (m : M CaptureResult)
  : Prop :=
  forall st r st',
    m st = (r, st') ->
    (written st' = written st /\ forall p, r <> Returned (Some p))
    \/ (exists topFrame serialized st0,
          written st0 = written st
          /\ assemble env workspaceRoot expression topFrame serialized st0 = (r, st')).

(** The expression the capture is about, when the selection is accepted. *)
Definition acceptedExpression (env : Env) (expression : string) : Prop :=
  activeDebugSession env = true
  /\ option_map trim (selection env) = Some expression
  /\ expression <> ""
  /\ startsWithBracketOrBrace expression = false
  /\ includes expression newline = false.

(** The selection the orchestrator refuses: no text, a text that begins
    with a bracket or a brace, or spans several lines. *)
Definition invalidSelection (expression : option string) : Prop :=
  expression = None \/ expression = Some ""
  \/ exists e, expression = Some e
               /\ (beginsWith "[" e \/ beginsWith "{" e \/ occursIn newline e).


(** A letter, a digit, an underscore or a hyphen. *)
Definition nameCharacter (c : ascii) : Prop :=
  (97 <= nat_of_ascii c <= 122)%nat \/ (65 <= nat_of_ascii c <= 90)%nat
  \/ (48 <= nat_of_ascii c <= 57)%nat \/ c = "_"%char \/ c = "-"%char.

(** The sanitization as the specification words it: the other characters
    are stripped. *)
Fixpoint keepChars (p : ascii -> bool) (s : string) : string :=
  match s with
  | EmptyString => EmptyString
  | String c rest => if p c then String c (keepChars p rest) else keepChars p rest
  end.

Definition stripName (name : string) : string := slice (keepChars isNameChar name) 0 64.

(** A session whose fast path works: the debuggee writes the artifact and
    reports success. *)
Definition fastEnv : Env :=
  {| activeDebugSession := true;
     selection := Some " order.items ";
     maxDepthSetting := 5;
     threads := fun _ => Resolves (Some [ {| threadId := 1; threadName := "main" |} ]);
     stackTrace := fun _ _ => Resolves (Some [mainFrame]);
     evaluate := fun _ _ _ _ =>
                   Resolves (Some {| result := "'ok'"; resultType := Some "string";
                                     resultReference := 0 |});
     variablesOf := fun _ _ => Rejects {| message := None |};
     debuggee := fun _ req fs =>
                   match req with
                   | Evaluate _ _ "repl" =>
                       writeFile "/tmp/data-snapshot-1700000000000-k3x9q.json" "[1,2]" fs
                   | _ => fs
                   end;
     userCancels := fun _ => false;
     tmpdir := "/tmp";
     dateNow := "1700000000000";
     mathRandom := "k3x9q";
     isoNow := "2024-01-02T03:04:05.678Z";
     JSON_parse := fun json =>
                     if (json =? "[1,2]")%string
                     then Some (VArray [VNumber (Decimal false 1 0); VNumber (Decimal false 2 0)])
                     else None;
     JSON_stringify := fun _ => "{}" |}.

(** The user cancels while the children of the root are being fetched (the
    fifth request of the capture). *)
Definition cancelEnv : Env :=
  session (Some "order") 5
          {| result := "Array(3)"; resultType := Some "Array"; resultReference := 1 |}
          sampleGraph (fun k => Nat.eqb k 4).


(** The debuggee reports success but the artifact is nowhere to be found. *)
Definition noArtifactEnv : Env :=
  {| activeDebugSession := true;
     selection := Some "order";
     maxDepthSetting := 5;
     threads := fun _ => Resolves (Some [ {| threadId := 1; threadName := "main" |} ]);
     stackTrace := fun _ _ => Resolves (Some [mainFrame]);
     evaluate := fun _ _ _ _ =>
                   Resolves (Some {| result := "'ok'"; resultType := Some "string";
                                     resultReference := 0 |});
     variablesOf := fun _ _ => Rejects {| message := None |};
     debuggee := fun _ _ fs => fs;
     userCancels := fun _ => false;
     tmpdir := "/tmp";
     dateNow := "1700000000000";
     mathRandom := "k3x9q";
     isoNow := "2024-01-02T03:04:05.678Z";
     JSON_parse := fun _ => None;
     JSON_stringify := fun _ => "{}" |}.

Definition sampleTmpFile : string := "/tmp/data-snapshot-1700000000000-k3x9q.json".

Definition sampleSnapshotPath : string :=
  "/ws/.snapshots/snapshots/load_items_order_items_2024-01-02T03-04-05-678Z.json".

Definition sampleSnapshot : Snapshot :=
  {| version := 1;
     capturedAt := "2024-01-02T03:04:05.678Z";
     source := {| file := "/src/app.ts"; line := 12; functionName := "load.items" |};
     frame := {| frame_name := Some "load.items"; frame_id := 7 |};
     variables := [("order.items",
                    VArray [VNumber (Decimal false 1 0); VNumber (Decimal false 2 0)])] |}.

(* ------------------------------------------------------------------ *)
(** ** Specification of the walk as a whole *)





(** Whatever its outcome, [m] takes a state to one related to it by [R]. *)
Definition relates {A} (R : State -> State -> Prop) (m : M A) : Prop :=
  forall st r st', m st = (r, st') -> R st st'.

(** What a walk does to the world: it sends [variables] requests for
    non-zero handles and reports progress, and nothing else; a cancellation
    that was requested stays requested. *)
Definition fetchesOnly (st st' : State) : Prop :=
  (exists references,
      requests st' = (requests st ++ map Variables references)%list
      /\ Forall (fun reference => reference <> 0) references)
  /\ (exists messages, progress st' = (progress st ++ map Serializing messages)%list)
  /\ errorMessages st' = errorMessages st
  /\ fsCalls st' = fsCalls st
  /\ (isCancellationRequested st = true -> isCancellationRequested st' = true).








(* ------------------------------------------------------------------ *)
(** ** Specification of the capture as a whole *)

(** The variable the slow path walks: the evaluated expression. *)
Definition rootVariable (expression : string) (r : EvaluateResponse) : DapVariable :=
  {| name := expression; value := result r; type := resultType r;
     variablesReference := resultReference r |}.

(** What reading a property of an [undefined] response throws. *)
Definition undefinedResponse : Error :=
  {| message := Some "TypeError: Cannot read properties of undefined" |}.

(** The text of the error [withTimeout] rejects with. *)
Definition timeoutText (label : string) : string :=
  "Data Snapshot: Timed out waiting for " ++ label
  ++ ". Is the debugger paused at a breakpoint?".

(** The state when the first request of a capture is sent. *)
Definition started (st : State) : State :=
  addProgress (Note "Evaluating expression…") (setCounter SerializeCounter.new [] st).

(** A capture from [st] to [st'] with the outcome [r] has accounted for
    itself: when it returns nothing it has shown one error message, or
    cancellation was requested; otherwise it has shown none. *)
Definition explained (st : State) (r : Outcome CaptureResult) (st' : State) : Prop :=
  match r with
  | Returned None =>
      (exists text, errorMessages st' = (errorMessages st ++ [text])%list)
      \/ (errorMessages st' = errorMessages st /\ isCancellationRequested st' = true)
  | _ => errorMessages st' = errorMessages st
  end.

(** The directory the snapshots of a workspace are kept in. *)
Definition snapshotsDirOf (workspaceRoot : string) : string :=
  pathJoin (pathJoin workspaceRoot ".snapshots") "snapshots".



(** The requests of a capture that goes all the way through the slow path,
    in the order they are sent. *)
Definition captureProtocol (env : Env) (expression : string) (thread frame : Z)
  (references : list Z) : list Request :=
  ([Threads; StackTrace thread; fastRequest env expression frame;
    Evaluate expression frame "hover"] ++ map Variables references)%list.


(** A session that answers no request. *)
Definition silentEnv : Env :=
  {| activeDebugSession := true;
     selection := Some "order";
     maxDepthSetting := 5;
     threads := fun _ => Silent;
     stackTrace := fun _ _ => Silent;
     evaluate := fun _ _ _ _ => Silent;
     variablesOf := fun _ _ => Silent;
     debuggee := fun _ _ fs => fs;
     userCancels := fun _ => false;
     tmpdir := "/tmp";
     dateNow := "1700000000000";
     mathRandom := "k3x9q";
     isoNow := "2024-01-02T03:04:05.678Z";
     JSON_parse := fun _ => None;
     JSON_stringify := fun _ => "{}" |}.

(* ------------------------------------------------------------------ *)
(** ** Decimal literals *)


(** A session whose fast path fails and whose adapter rejects every
    [variables] request. *)
Definition refusingEnv : Env :=
  {| activeDebugSession := true;
     selection := Some "order";
     maxDepthSetting := 5;
     threads := fun _ => Resolves (Some [ {| threadId := 1; threadName := "main" |} ]);
     stackTrace := fun _ _ => Resolves (Some [mainFrame]);
     evaluate := fun _ _ _ context =>
                   if (context =? "hover")%string
                   then Resolves (Some {| result := "Object"; resultType := Some "Object";
                                          resultReference := 1 |})
                   else Rejects {| message := Some "ReferenceError" |};
     variablesOf := fun _ _ => Rejects {| message := Some "Unable to fetch" |};
     debuggee := fun _ _ fs => fs;
     userCancels := fun _ => false;
     tmpdir := "/tmp";
     dateNow := "1700000000000";
     mathRandom := "k3x9q";
     isoNow := "2024-01-02T03:04:05.678Z";
     JSON_parse := fun _ => None;
     JSON_stringify := fun _ => "{}" |}.

(** Three calls against a gate of two slots. *)
Definition gateFullSystem : Semaphore.System :=
  Semaphore.system (Semaphore.mk 2 [2%nat] 2) 3 [0; 1]%nat [0; 1]%nat.

(* ------------------------------------------------------------------ *)
(** ** More strings *)

(** [s.indexOf(sub)], or -1. *)
Fixpoint indexOfFrom (s sub : string) (i : Z) : Z :=
  if String.prefix sub s then i
  else match s with
       | EmptyString => -1
       | String _ rest => indexOfFrom rest sub (i + 1)
       end.

Definition indexOf (s sub : string) : Z := indexOfFrom s sub 0.

(** [s.slice(start)] *)
Definition sliceFrom (s : string) (start : Z) : string := slice s start (strlen s).

(** The white space [s] begins with: what the group of the indentation
    pattern (a start anchor, then white-space characters, as many as there
    are) captures. *)
Fixpoint leadingSpace (s : string) : string :=
  match s with
  | String c rest => if isSpace c then String c (leadingSpace rest) else EmptyString
  | EmptyString => EmptyString
  end.

(** [parts.join(sep)] *)
Fixpoint join (sep : string) (parts : list string) : string :=
  match parts with
  | [] => EmptyString
  | [p] => p
  | p :: rest => p ++ sep ++ join sep rest
  end.

(** [\w] *)
Definition isWordChar (c : ascii) : bool :=
  codeBetween 97 122 c || codeBetween 65 90 c || codeBetween 48 57 c || (c =? "_")%char.

Definition hexDigit (n : nat) : ascii :=
  ascii_of_nat (if (n <? 10)%nat then 48 + n else 87 + n).

(** What [JSON.stringify] writes for the character [c] of a string. *)
Definition quoteJSONChar (c : ascii) : string :=
  let n := nat_of_ascii c in
  if (n =? 8)%nat then "\b"
  else if (n =? 9)%nat then "\t"
  else if (n =? 10)%nat then "\n"
  else if (n =? 12)%nat then "\f"
  else if (n =? 13)%nat then "\r"
  else if (n =? 34)%nat then String "\" dquote
  else if (n =? 92)%nat then "\\"
  else if (n <? 32)%nat
       then "\u00" ++ String (hexDigit (n / 16)) (String (hexDigit (n mod 16)) "")
       else String c "".

Fixpoint quoteJSONChars (s : string) : string :=
  match s with
  | EmptyString => EmptyString
  | String c rest => quoteJSONChar c ++ quoteJSONChars rest
  end.

(** [JSON.stringify(s)] for a string [s]. *)
Definition quoteJSON (s : string) : string := dquote ++ quoteJSONChars s ++ dquote.

(* ------------------------------------------------------------------ *)
(** ** Regular expressions built at run time

    The declaration pattern is built from a variable name.  Patterns are
    read as far as the generator needs them: a sequence of pattern
    characters, identity escapes of syntax characters, word boundaries,
    runs of white space and groups of alternative words. *)

(** The syntax characters of the pattern language. *)
Definition isSyntaxChar (c : ascii) : bool :=
  existsb (Ascii.eqb c)
          ["^"; "$"; "\"; "."; "*"; "+"; "?"; "("; ")"; "["; "]"; "{"; "}"; "|"]%char.

(** What [replace] with the replacement [\$&] puts for the character [c]:
    the character itself after a backslash. *)
Definition escapeChar (c : ascii) : string :=
  if existsb (Ascii.eqb c)
             ["."; "*"; "+"; "?"; "^"; "$"; "{"; "}"; "("; ")"; "|"; "["; "]"; "\"]%char
  then String "\" (String c "")
  else String c "".

(** [escapeRegExp(s)] *)
Fixpoint escapeRegExp (s : string) : string :=
  match s with
  | EmptyString => EmptyString
  | String c rest => escapeChar c ++ escapeRegExp rest
  end.

Inductive Atom : Type :=
| Char (c : ascii)
| Boundary
| Spaces
| Words (alternatives : list string).

(** The words of a group up to its closing parenthesis, and what follows. *)
Fixpoint readWords (s : string) (word : string) : option (list string * string) :=
  match s with
  | EmptyString => None
  | String c rest =>
      if (c =? ")")%char then Some ([word], rest)
      else if (c =? "|")%char then
        match readWords rest "" with
        | Some (ws, tl) => Some (word :: ws, tl)
        | None => None
        end
      else if isSyntaxChar c then None
      else readWords rest (word ++ String c "")
  end.

(** [new RegExp(pattern)], for the patterns read here. *)
Fixpoint parsePattern (fuel : nat) (pattern : string) : option (list Atom) :=
  match fuel with
  | O => None
  | S fuel' =>
      let next atom rest :=
        match parsePattern fuel' rest with
        | Some atoms => Some (atom :: atoms)
        | None => None
        end in
      match pattern with
      | EmptyString => Some []
      | String "\" (String "b" rest) => next Boundary rest
      | String "\" (String "s" (String "+" rest)) => next Spaces rest
      | String "\" (String c rest) => if isSyntaxChar c then next (Char c) rest else None
      | String "(" (String "?" (String ":" rest)) =>
          match readWords rest "" with
          | Some (ws, tl) => next (Words ws) tl
          | None => None
          end
      | String c rest => if isSyntaxChar c then None else next (Char c) rest
      end
  end.

Definition isWord (c : option ascii) : bool :=
  match c with Some c => isWordChar c | None => false end.

Definition firstChar (s : string) : option ascii :=
  match s with String c _ => Some c | EmptyString => None end.

Fixpoint lastChar (s : string) (before : option ascii) : option ascii :=
  match s with
  | EmptyString => before
  | String c rest => lastChar rest (Some c)
  end.

Fixpoint dropChars (n : nat) (s : string) : string :=
  match n, s with
  | S n', String _ rest => dropChars n' rest
  | _, _ => s
  end.

(** The atoms match at the start of [s]; [before] is the character that
    precedes [s] in the text. *)
Fixpoint matchAtoms (atoms : list Atom) (before : option ascii) (s : string) : bool :=
  match atoms with
  | [] => true
  | Char c :: atoms' =>
      match s with
      | String c' rest => (c' =? c)%char && matchAtoms atoms' (Some c') rest
      | EmptyString => false
      end
  | Boundary :: atoms' =>
      xorb (isWord before) (isWord (firstChar s)) && matchAtoms atoms' before s
  | Spaces :: atoms' =>
      (fix spaces (s : string) : bool :=
         match s with
         | String c rest =>
             isSpace c && (spaces rest || matchAtoms atoms' (Some c) rest)
         | EmptyString => false
         end) s
  | Words alternatives :: atoms' =>
      existsb (fun w => String.prefix w s
                        && matchAtoms atoms' (lastChar w before)
                                      (dropChars (String.length w) s))
              alternatives
  end.

(** The atoms match somewhere in [s]. *)
Fixpoint matchSomewhere (atoms : list Atom) (before : option ascii) (s : string) : bool :=
  matchAtoms atoms before s
  || match s with
     | String c rest => matchSomewhere atoms (Some c) rest
     | EmptyString => false
     end.

(** [new RegExp(pattern).test(text)]; a pattern that is not read is an
    error, which no pattern of the generator is. *)
Definition regExpTest (pattern text : string) : option bool :=
  match parsePattern (S (String.length pattern)) pattern with
  | Some atoms => Some (matchSomewhere atoms None text)
  | None => None
  end.

(* ------------------------------------------------------------------ *)
(** ** Text documents

    A document of the editor is the list of its lines, without their line
    breaks.  An edit replaces a range of whole lines by a text. *)

Definition Document : Type := list string.

(** [document.lineAt(i).text] *)
Definition lineAt (document : Document) (i : nat) : string := nth i document "".

(** [document.getText()] *)
Definition getText (document : Document) : string := join newline document.

(** The line breaks of a text: a line feed, a carriage return, or a
    carriage return and a line feed. *)
Fixpoint splitLinesFrom (text : string) (line : string) : list string :=
  match text with
  | EmptyString => [line]
  | String c rest =>
      if (nat_of_ascii c =? 10)%nat then line :: splitLinesFrom rest ""
      else if (nat_of_ascii c =? 13)%nat then
        match rest with
        | String c' rest' =>
            if (nat_of_ascii c' =? 10)%nat then line :: splitLinesFrom rest' ""
            else line :: splitLinesFrom rest ""
        | EmptyString => line :: splitLinesFrom rest ""
        end
      else splitLinesFrom rest (line ++ String c "")
  end.

Definition splitLines (text : string) : list string := splitLinesFrom text "".

(** [edit.replace(uri, new Range(start of firstLine, end of lastLine), newText)] *)
Record Edit : Type :=
  { firstLine : nat;
    lastLine : nat;
    newText : string }.

Definition replaceLines (e : Edit) (document : Document) : Document :=
  (firstn (firstLine e) document ++ splitLines (newText e)
   ++ skipn (S (lastLine e)) document)%list.

(** The edits of one [WorkspaceEdit], which are given in document order
    and do not overlap, take effect together. *)
Definition applyEdits (edits : list Edit) (document : Document) : Document :=
  fold_right replaceLines document edits.

(* ------------------------------------------------------------------ *)
(** ** Inline stubs (inlineStubGenerator.ts) *)

Definition MARKER_START : string := "// data-snapshot-stub-start:".
Definition MARKER_END : string := "// data-snapshot-stub-end".

(** The pattern of a declaration of [varName]. *)
Definition assignPattern (varName : string) : string :=
  "\b(?:const|let|var)\s+" ++ escapeRegExp varName ++ "\b".

(** The white space and the word characters [s] begins with. *)
Fixpoint spanSpace (s : string) : string * string :=
  match s with
  | String c rest =>
      if isSpace c then let (ws, tl) := spanSpace rest in (String c ws, tl)
      else (EmptyString, s)
  | EmptyString => (EmptyString, EmptyString)
  end.

Fixpoint spanWord (s : string) : string * string :=
  match s with
  | String c rest =>
      if isWordChar c then let (w, tl) := spanWord rest in (String c w, tl)
      else (EmptyString, s)
  | EmptyString => (EmptyString, EmptyString)
  end.

(** The characters up to the first equals sign. *)
Fixpoint spanNotEquals (s : string) : string * string :=
  match s with
  | String c rest =>
      if (c =? "=")%char then (EmptyString, s)
      else let (r, tl) := spanNotEquals rest in (String c r, tl)
  | EmptyString => (EmptyString, EmptyString)
  end.

(** The first group of the match of the declaration pattern on [text]: at
    the start of the text one of the keywords [const], [let] and [var],
    white space, a name of word characters, possibly a type annotation (a
    colon between optional white space, then characters other than the
    equals sign), and then, after optional white space, an equals sign.
    The group is the text from the keyword to the name or, when there is
    one, to the end of the annotation.  Every repetition is greedy, and
    none can give back a character to what follows it, except the
    annotation, which extends to the equals sign. *)
Definition declMatch (text : string) : option string :=
  let keyword :=
    if startsWith text "const" then Some "const"
    else if startsWith text "let" then Some "let"
    else if startsWith text "var" then Some "var"
    else None in
  match keyword with
  | None => None
  | Some kw =>
      let (ws1, afterSpace) := spanSpace (dropChars (String.length kw) text) in
      let (w, afterName) := spanWord afterSpace in
      if (ws1 =? "")%string || (w =? "")%string then None
      else
        let (ws2, afterSpace2) := spanSpace afterName in
        match afterSpace2 with
        | String ":" afterColon =>
            let (annotation, afterAnnotation) := spanNotEquals afterColon in
            match annotation, afterAnnotation with
            | String _ _, String _ _ => Some (kw ++ ws1 ++ w ++ ws2 ++ ":" ++ annotation)
            | _, _ => None
            end
        | String "=" _ => Some (kw ++ ws1 ++ w)
        | _ => None
        end
  end.

(** The right-hand side of the stubbed declaration. *)
Definition fullRhs (snapshotPath varName : string) : string :=
  let stubRhs :=
    "(await import(" ++ dquote ++ "fs" ++ dquote ++ ")).readFileSync("
    ++ quoteJSON snapshotPath ++ ", " ++ dquote ++ "utf8" ++ dquote ++ ")" in
  "JSON.parse(" ++ stubRhs ++ ").variables[" ++ quoteJSON varName ++ "]".

(** The text that replaces the line [originalText]. *)
Definition replacement (snapshotPath varName originalText : string) : string :=
  let originalTrimmed := trim originalText in
  let indent := leadingSpace originalText in
  let prefix :=
    match declMatch originalTrimmed with
    | Some group => group
    | None => "const " ++ varName
    end in
  join newline
       [ indent ++ MARKER_START ++ " " ++ originalTrimmed;
         indent ++ "/* eslint-disable */";
         indent ++ prefix ++ " = " ++ fullRhs snapshotPath varName ++ ";";
         indent ++ "/* eslint-enable */";
         indent ++ MARKER_END ].

(** The items of a quick pick. *)
Record QuickPickItem : Type :=
  { label : string;
    detail : string;
    lineIndex : nat }.

(** The editor and the file system, as the generator sees them.  A quick
    pick resolves to one of its items, given by its position, or to
    nothing. *)
Record Workbench : Type :=
  { existsSync : string -> bool;
    openTextDocument : string -> Document;
    showQuickPick : list QuickPickItem -> option nat;
    applyEdit : string -> list Edit -> bool;
    findFiles : string -> list string }.

(** How [applyInlineStub] ends.  It returns [true] in the last case only. *)
Inductive StubOutcome : Type :=
| PatternError
| StubFailed (errorMessage : string)
| StubDismissed
| StubRefused
| StubApplied (filePath : string) (document : Document).

Definition decimal (n : nat) : string := NilZero.string_of_uint (Nat.to_uint n).

Definition basename (path : string) : string :=
  let fix strip (s : string) : string :=
    match s with
    | EmptyString => EmptyString
    | String c rest =>
        let rest' := strip rest in
        if (c =? "/")%char && (rest' =? "")%string then EmptyString else String c rest'
    end in
  let fix lastSegment (s : string) (segment : string) : string :=
    match s with
    | EmptyString => segment
    | String c rest =>
        if (c =? "/")%char then lastSegment rest "" else lastSegment rest (segment ++ String c "")
    end in
  lastSegment (strip path) "".

(** The lines that declare [varName] and are not stubbed yet; nothing when
    the pattern is refused. *)
Definition candidateLines (varName : string) (document : Document) : option (list nat) :=
  match parsePattern (S (String.length (assignPattern varName))) (assignPattern varName) with
  | None => None
  | Some atoms =>
      Some (List.filter
              (fun i => let text := lineAt document i in
                        matchSomewhere atoms None text && negb (includes text MARKER_START))
              (seq 0 (List.length document)))
  end.

Definition applyInlineStub (wb : Workbench) (snapshotPath : string) (snapshot : Snapshot)
  : StubOutcome :=
  match map fst (variables snapshot) with
  | [varName] =>
      let filePath := file (source snapshot) in
      if (filePath =? "")%string || negb (existsSync wb filePath) then
        StubFailed ("Data Snapshot: Source file not found: " ++ filePath)
      else
        let document := openTextDocument wb filePath in
        match candidateLines varName document with
        | None => PatternError
        | Some [] =>
            StubFailed ("Data Snapshot: No declaration of " ++ dquote ++ varName ++ dquote
                        ++ " found in " ++ basename filePath ++ ".")
        | Some candidates =>
            let chosen :=
              match candidates with
              | [i] => Some i
              | _ =>
                  let items :=
                    map (fun i => {| label := "Line " ++ decimal (i + 1);
                                     detail := trim (lineAt document i);
                                     lineIndex := i |}) candidates in
                  match showQuickPick wb items with
                  | Some k => option_map lineIndex (nth_error items k)
                  | None => None
                  end
              end in
            match chosen with
            | None => StubDismissed
            | Some i =>
                let edit :=
                  {| firstLine := i; lastLine := i;
                     newText := replacement snapshotPath varName (lineAt document i) |} in
                if applyEdit wb filePath [edit]
                then StubApplied filePath (applyEdits [edit] document)
                else StubRefused
            end
        end
  | _ => StubFailed "Data Snapshot: Inline stub requires exactly one captured variable."
  end.

(** The first line from [i] on that begins, after its indentation, with
    the end marker; the number of lines when there is none. *)
Fixpoint findEnd (lines : list string) (i : nat) : nat :=
  match lines with
  | [] => i
  | l :: rest => if startsWith (trimStart l) MARKER_END then i else findEnd rest (S i)
  end.

(** The body of the loop of [removeAllInlineStubs] from the line [i] on:
    the edits it records.  The loop ends, the line number growing at each
    turn; [turns] bounds their number. *)
Fixpoint revertEdits (turns : nat) (document : Document) (i : nat) : list Edit :=
  match turns with
  | O => []
  | S turns' =>
      if (i <? List.length document)%nat then
        let startText := lineAt document i in
        if negb (startsWith (trimStart startText) MARKER_START)
        then revertEdits turns' document (S i)
        else
          let markerIdx := indexOf startText MARKER_START in
          let originalTrimmed := trim (sliceFrom startText (markerIdx + strlen MARKER_START)) in
          let indent := leadingSpace startText in
          let endLineIdx := findEnd (skipn (S i) document) (S i) in
          {| firstLine := i;
             lastLine := if (endLineIdx <? List.length document)%nat then endLineIdx else i;
             newText := indent ++ originalTrimmed |}
          :: revertEdits turns' document (S endLineIdx)
      else []
  end.

(** What [removeAllInlineStubs] does to one document: nothing ([None]), or
    the edits it applies before it saves the document. *)
Definition revertDocument (document : Document) : option (list Edit) :=
  if negb (includes (getText document) MARKER_START) then None
  else
    match revertEdits (List.length document) document 0 with
    | [] => None
    | edits => Some edits
    end.

(** The documents [removeAllInlineStubs] saves, with their new content. *)
Definition removeAllInlineStubs (wb : Workbench) (workspaceRoot : string)
  : list (string * Document) :=
  flat_map
    (fun uri =>
       let document := openTextDocument wb uri in
       match revertDocument document with
       | None => []
       | Some edits =>
           [(uri, if applyEdit wb uri edits then applyEdits edits document else document)]
       end)
    (findFiles wb workspaceRoot).

(* ------------------------------------------------------------------ *)
(** ** Specification of the inline stubs *)

(** The text [s] holds no line break. *)
Definition singleLine (s : string) : Prop :=
  allChars (fun c => negb ((nat_of_ascii c =? 10)%nat || (nat_of_ascii c =? 13)%nat)) s = true.

(** The line [l] reads as the start of a stub block. *)
Definition looksLikeStart (l : string) : Prop := startsWith (trimStart l) MARKER_START = true.

(** The document with its line [i] replaced by [l]. *)
Definition withLine (i : nat) (l : string) (document : Document) : Document :=
  (firstn i document ++ [l] ++ skipn (S i) document)%list.

(** The five lines of the stub block that replaces the line [originalText]. *)
Definition stubBlock (snapshotPath varName originalText : string) : list string :=
  let indent := leadingSpace originalText in
  [ indent ++ MARKER_START ++ " " ++ trim originalText;
    indent ++ "/* eslint-disable */";
    indent ++ match declMatch (trim originalText) with
              | Some group => group
              | None => "const " ++ varName
              end ++ " = " ++ fullRhs snapshotPath varName ++ ";";
    indent ++ "/* eslint-enable */";
    indent ++ MARKER_END ].

(** The line [l] reads as the end of a stub block. *)
Definition looksLikeEnd (l : string) : Prop := startsWith (trimStart l) MARKER_END = true.

(** What the declaration pattern of [varName] is to be read as: a word
    boundary, one of the three keywords, white space, the characters of
    the name as they are, a word boundary. *)
Definition declarationOf (varName : string) : list Atom :=
  ([Boundary; Words ["const"; "let"; "var"]; Spaces]
     ++ map Char (list_ascii_of_string varName) ++ [Boundary])%list.

(** A workbench with one source file and nobody at the quick pick. *)
Definition sampleDocument : Document :=
  ["async function load() {";
   "  const order = await fetchOrder();";
   "  return order;";
   "}"].

Definition sampleWorkbench : Workbench :=
  {| existsSync := fun path => (path =? "/src/app.ts")%string;
     openTextDocument := fun _ => sampleDocument;
     showQuickPick := fun _ => None;
     applyEdit := fun _ _ => true;
     findFiles := fun _ => ["/src/app.ts"] |}.

Definition sampleStubSnapshot : Snapshot :=
  {| version := 1;
     capturedAt := "2024-01-02T03:04:05.678Z";
     source := {| file := "/src/app.ts"; line := 2; functionName := "load" |};
     frame := {| frame_name := Some "load"; frame_id := 7 |};
     variables := [("order", VNull)] |}.

(** The sample document with the declaration of [order] stubbed from the
    snapshot at [snapshotPath]. *)
Definition sampleStubbedFrom (snapshotPath : string) : Document :=
  ["async function load() {";
   "  // data-snapshot-stub-start: const order = await fetchOrder();";
   "  /* eslint-disable */";
   "  const order = JSON.parse((await import(" ++ dquote ++ "fs" ++ dquote
   ++ ")).readFileSync(" ++ dquote ++ snapshotPath ++ dquote ++ ", " ++ dquote ++ "utf8"
   ++ dquote ++ ")).variables[" ++ dquote ++ "order" ++ dquote ++ "];";
   "  /* eslint-enable */";
   "  // data-snapshot-stub-end";
   "  return order;";
   "}"].

Definition sampleStubbed : Document := sampleStubbedFrom "/ws/order.json".

(* ------------------------------------------------------------------ *)
(** ** The capture command (extension.ts) *)

Definition stubAppliedText : string :=
  "Data Snapshot: Stub applied. Run " ++ dquote ++ "Remove All Stubs" ++ dquote
  ++ " to revert.".

(** The handler of the command [data-snapshot.captureVariable]: nothing
    when the capture returns nothing, otherwise what became of the stub
    and the information message shown.  The refresh of the tree view
    between the two only fires an event. *)
Definition captureVarCmd (env : Env) (wb : Workbench) (workspaceRoot : string)
  : M (option (StubOutcome * option string)) :=
  result <- captureVariable env workspaceRoot ;;
  match result with
  | None => ret None
  | Some (snapshotPath, snapshot) =>
      let outcome := applyInlineStub wb snapshotPath snapshot in
      match outcome with
      | StubApplied _ _ => ret (Some (outcome, Some stubAppliedText))
      | _ => ret (Some (outcome, None))
      end
  end.

Definition oneVariableText : string :=
  "Data Snapshot: Inline stub requires exactly one captured variable.".

(** Where the capture of [order] in the sample session is written. *)
Definition sampleCommandPath : string :=
  "/ws/.snapshots/snapshots/load_items_order_2024-01-02T03-04-05-678Z.json".

(* ================================================================== *)
(** * Properties *)

(* ------------------------------------------------------------------ *)
(** ** Primitive value decoder *)

Example slice_inner : slice "'abc'" 1 (-1) = "abc" /\ slice "'" 1 (-1) = "" /\ slice "abcdef" 0 4 = "abcd".
Proof. repeat split. Qed.

Example trim_both_ends : trim (newline ++ "  order.items " ++ newline) = "order.items".
Proof. reflexivity. Qed.

Example signed_decimal_pattern :
  map matchesSignedDecimal ["-12.5"; "007"; "12."; ".5"; "1e3"; "-"; ""; "1.2.3"]
  = [true; true; false; false; false; false; false; false].
Proof. reflexivity. Qed.

Example number_of_text :
  map Number ["12.5"; "-0"; ""; "  7  "; "1e3"; ".5"; "5."; "0b101"; "Infinity"; "-Infinity"]
  = [Decimal false 125 (-1); Decimal true 0 0; Decimal false 0 0; Decimal false 7 0;
     Decimal false 1 3; Decimal false 5 (-1); Decimal false 5 0; Decimal false 5 0;
     Infinity false; Infinity true]
  /\ map Number ["abc"; "12px"; "1e"; "."; "0x"; "-0x10"; "1 2"; "'x'"]
     = [NaN; NaN; NaN; NaN; NaN; NaN; NaN; NaN].
Proof. split; reflexivity. Qed.

Example decode_int : parsePrimitiveValue "42" None = VNumber (Decimal false 42 0).
Proof. reflexivity. Qed.

Example decode_fraction :
  parsePrimitiveValue "-12.50" None = VNumber (Decimal true 1250 (-2)).
Proof. reflexivity. Qed.

Example decode_hex_tagged :
  parsePrimitiveValue "0x1F" (Some "number") = VNumber (Decimal false 31 0).
Proof. reflexivity. Qed.

Example decode_nan_tagged : parsePrimitiveValue "NaN" (Some "number") = VString "NaN".
Proof. reflexivity. Qed.

Example decode_untagged_only :
  parsePrimitiveValue "42" (Some "string") = VString "42".
Proof. reflexivity. Qed.

Example decode_quoted : parsePrimitiveValue "'abc'" (Some "string") = VString "abc".
Proof. reflexivity. Qed.

Example decode_lone_quote : parsePrimitiveValue "'" None = VString "".
Proof. reflexivity. Qed.

Example number_exponent : Number " 1.5e3 " = Decimal false 15 2.
Proof. reflexivity. Qed.

Lemma looksNumeric_dec (raw : string) (type : option string) :
  looksNumeric raw type <->
  match type with
  | Some t => (t =? "number")%string
  | None => matchesSignedDecimal raw
  end = true.
Proof.
  unfold looksNumeric. destruct type as [t|].
  - rewrite String.eqb_eq. split.
    + intros [H|[H _]]; congruence.
    + intros ->. now left.
  - split.
    + intros [H|[_ H]]; [discriminate|exact H].
    + intros H. right. now split.
Qed.

Lemma parsesAsNumber_dec (raw : string) (type : option string) :
  parsesAsNumber raw type <->
  match type with
  | Some t => (t =? "number")%string
  | None => matchesSignedDecimal raw
  end && negb (isNaN (Number raw)) = true.
Proof.
  unfold parsesAsNumber. rewrite looksNumeric_dec, andb_true_iff, negb_true_iff.
  reflexivity.
Qed.

Lemma wrappedIn_dec (q raw : string) :
  wrappedIn q raw <-> startsWith raw q && endsWith raw q = true.
Proof. unfold wrappedIn. now rewrite andb_true_iff. Qed.

Lemma Decodes_parsePrimitiveValue (raw : string) (type : option string) :
  Decodes raw type (parsePrimitiveValue raw type).
Proof.
  unfold parsePrimitiveValue.
  destruct (String.eqb_spec raw "undefined") as [->|N1]; [now constructor|].
  destruct (String.eqb_spec raw "null") as [->|N2]; [now constructor|].
  destruct (String.eqb_spec raw "true") as [->|N3]; [now constructor|].
  destruct (String.eqb_spec raw "false") as [->|N4]; [now constructor|].
  assert (NK : ~ isKeyword raw) by (intros [H|[H|[H|H]]]; contradiction).
  cbv zeta.
  destruct (_ && negb (isNaN (Number raw))) eqn:En.
  - apply DecodesNumber; [exact NK|]. now apply parsesAsNumber_dec.
  - assert (NN : ~ parsesAsNumber raw type).
    { rewrite parsesAsNumber_dec. congruence. }
    destruct (startsWith raw dquote && endsWith raw dquote) eqn:Ed.
    + apply DecodesQuoted; auto. left. now apply wrappedIn_dec.
    + destruct (startsWith raw squote && endsWith raw squote) eqn:Es.
      * apply DecodesQuoted; auto. right. now apply wrappedIn_dec.
      * apply DecodesRaw; auto; rewrite wrappedIn_dec; congruence.
Qed.

Lemma Decodes_functional (raw : string) (type : option string) (v w : MValue) :
  Decodes raw type v -> Decodes raw type w -> v = w.
Proof.
  assert (K : forall s, In s ["undefined"; "null"; "true"; "false"] -> raw = s -> isKeyword raw).
  { unfold isKeyword. simpl. intros s [<-|[<-|[<-|[<-|[]]]]] ->; auto. }
  intros Hv Hw.
  destruct Hv; destruct Hw; subst;
    try reflexivity; try discriminate;
    try tauto;
    try (exfalso;
         match goal with
         | H : ~ isKeyword ?r |- _ =>
             apply H; unfold isKeyword; auto
         end).
Qed.

(** C5, as amended: the decoder applies its rules in order: the four
    keyword texts give undefined, null and the two booleans; a text tagged
    as a number, or untagged and shaped like a signed integer or decimal,
    gives the parsed number unless the parse is not-a-number, in which case
    the text goes on to the remaining rules; a text that starts and ends
    with the same quote character gives the text between them; any other
    text is returned verbatim.  The decoder is total: it yields exactly the
    value the rules determine. *)
Theorem parsePrimitiveValue_rules (raw : string) (type : option string) (v : MValue) :
  parsePrimitiveValue raw type = v <-> Decodes raw type v.
Proof.
  split.
  - intros <-. apply Decodes_parsePrimitiveValue.
  - intros H. eapply Decodes_functional; [apply Decodes_parsePrimitiveValue|exact H].
Qed.

(** C5, as stated, fails: a quoted text tagged as a number does not parse,
    and is then unwrapped instead of being returned as the raw string. *)
Lemma parsePrimitiveValue_nan_not_raw :
  isNaN (Number "'x'") = true /\
  parsePrimitiveValue "'x'" (Some "number") = VString "x" /\
  decodeAsWorded "'x'" (Some "number") = VString "'x'" /\
  parsePrimitiveValue "'x'" (Some "number") <> decodeAsWorded "'x'" (Some "number").
Proof. repeat split; try reflexivity. discriminate. Qed.

(* ------------------------------------------------------------------ *)
(** ** Doubles *)

Example ratio_29_of_100 : minFloor99 (ratio100 29 100) = 28.
Proof. reflexivity. Qed.

Example ratio_1_of_3 : minFloor99 (ratio100 1 3) = 33.
Proof. reflexivity. Qed.

Example ratio_full : minFloor99 (ratio100 7 7) = 99.
Proof. reflexivity. Qed.

Lemma binary_round_aux_signless mx ex lx :
  signless (binary_round_aux prec emax false mx ex lx).
Proof.
  unfold binary_round_aux.
  destruct (shr_fexp prec emax mx ex lx) as [mrs' e'].
  destruct (shr_fexp prec emax _ e' loc_Exact) as [mrs'' e''].
  destruct (shr_m mrs''); cbn; auto.
  destruct (e'' <=? _); reflexivity.
Qed.

Lemma toDouble_signless n : signless (toDouble n).
Proof.
  unfold toDouble. destruct n as [|p]; [reflexivity|].
  change (Z.of_N (N.pos p)) with (Zpos p).
  unfold binary_normalize, binary_round.
  destruct (shl_align _ _ _). apply binary_round_aux_signless.
Qed.

Lemma SFdiv_signless x y : signless x -> signless y -> signless (SFdiv prec emax x y).
Proof.
  intros Hx Hy.
  destruct x as [sx|sx| |sx mx ex], y as [sy|sy| |sy my ey];
    simpl in Hx, Hy; subst; try exact I; try reflexivity.
  unfold SFdiv. destruct (SFdiv_core_binary _ _ _ _ _ _) as [[mz ez] lz].
  apply binary_round_aux_signless.
Qed.

Lemma SFmul_signless x y : signless x -> signless y -> signless (SFmul prec emax x y).
Proof.
  intros Hx Hy.
  destruct x as [sx|sx| |sx mx ex], y as [sy|sy| |sy my ey];
    simpl in Hx, Hy; subst; try exact I; try reflexivity.
  apply binary_round_aux_signless.
Qed.

Lemma ratio100_signless c t : signless (ratio100 c t).
Proof.
  unfold ratio100. apply SFmul_signless; [apply SFdiv_signless|]; apply toDouble_signless.
Qed.

Lemma minFloor99_le x : minFloor99 x <= 99.
Proof. destruct x as [s|[|]| |s m e]; simpl; lia. Qed.

Lemma minFloor99_nonneg x : signless x -> 0 <= minFloor99 x.
Proof.
  destruct x as [s|[|]| |s m e]; simpl; try lia.
  intros ->. apply Z.min_glb; [lia|].
  destruct (0 <=? e) eqn:E.
  - apply Z.mul_nonneg_nonneg; [lia|]. apply Z.pow_nonneg. lia.
  - apply Z.div_pos; [lia|]. apply Z.pow_pos_nonneg; lia.
Qed.

(** Rounding never turns a non-negative significand into not-a-number. *)

Lemma shr_1_nonneg mrs : 0 <= shr_m mrs -> 0 <= shr_m (shr_1 mrs).
Proof.
  destruct mrs as [m r s]. simpl.
  destruct m as [|p|p]; [| |lia]; intros _.
  - simpl. lia.
  - destruct p; simpl; lia.
Qed.

Lemma iter_pos_shr_1_nonneg p : forall mrs,
  0 <= shr_m mrs -> 0 <= shr_m (iter_pos shr_1 p mrs).
Proof.
  induction p as [p IH|p IH|]; intros mrs H; simpl.
  - apply IH, IH, shr_1_nonneg, H.
  - apply IH, IH, H.
  - apply shr_1_nonneg, H.
Qed.

Lemma shr_fexp_nonneg m e l :
  0 <= m -> 0 <= shr_m (fst (shr_fexp prec emax m e l)).
Proof.
  intros H. unfold shr_fexp, shr.
  assert (H0 : 0 <= shr_m (shr_record_of_loc m l)) by (destruct l as [|[]]; exact H).
  destruct (fexp prec emax (Zdigits2 m + e) - e); simpl; auto.
  now apply iter_pos_shr_1_nonneg.
Qed.

Lemma round_nearest_even_nonneg m l : 0 <= m -> 0 <= round_nearest_even m l.
Proof.
  intros H. destruct l as [|[]]; simpl; try lia. destruct (Z.even m); lia.
Qed.

Lemma binary_round_aux_isNumber sx mx ex lx :
  0 <= mx -> isNumber (binary_round_aux prec emax sx mx ex lx).
Proof.
  intros H. unfold binary_round_aux.
  pose proof (shr_fexp_nonneg mx ex lx H) as H1.
  destruct (shr_fexp prec emax mx ex lx) as [mrs' e']. simpl in H1.
  pose proof (shr_fexp_nonneg _ e' loc_Exact
                (round_nearest_even_nonneg _ (loc_of_shr_record mrs') H1)) as H2.
  destruct (shr_fexp prec emax _ e' loc_Exact) as [mrs'' e'']. simpl in H2.
  destruct (shr_m mrs''); cbn; [exact I| |lia].
  destruct (e'' <=? _); exact I.
Qed.

Lemma digits2_pos_bounds p :
  2 ^ (Zpos (digits2_pos p) - 1) <= Zpos p < 2 ^ Zpos (digits2_pos p).
Proof.
  induction p as [p IH|p IH|]; simpl digits2_pos.
  - rewrite Pos2Z.inj_succ.
    replace (Z.succ (Zpos (digits2_pos p)) - 1) with (Z.succ (Zpos (digits2_pos p) - 1)) by lia.
    rewrite !Z.pow_succ_r by lia. lia.
  - rewrite Pos2Z.inj_succ.
    replace (Z.succ (Zpos (digits2_pos p)) - 1) with (Z.succ (Zpos (digits2_pos p) - 1)) by lia.
    rewrite !Z.pow_succ_r by lia. lia.
  - simpl. lia.
Qed.

Lemma digits2_iter_xO p k :
  Zpos (digits2_pos (Pos.iter xO p k)) = Zpos (digits2_pos p) + Zpos k.
Proof.
  induction k as [|k IH] using Pos.peano_ind.
  - simpl. lia.
  - rewrite Pos.iter_succ. simpl digits2_pos. lia.
Qed.

Lemma shr_fexp_exact m e :
  Zpos (digits2_pos m) = 53 -> -1074 <= e <= 971 ->
  shr_fexp prec emax (Zpos m) e loc_Exact
  = ({| shr_m := Zpos m; shr_r := false; shr_s := false |}, e).
Proof.
  intros Hd He.
  assert (F : fexp prec emax (Zdigits2 (Zpos m) + e) - e = 0).
  { unfold fexp, SpecFloat.emin, prec, emax. simpl Zdigits2. rewrite Hd. lia. }
  unfold shr_fexp. rewrite F. reflexivity.
Qed.

Lemma binary_round_aux_exact m e :
  Zpos (digits2_pos m) = 53 -> -1074 <= e <= 971 ->
  binary_round_aux prec emax false (Zpos m) e loc_Exact = S754_finite false m e.
Proof.
  intros Hd He. unfold binary_round_aux.
  rewrite (shr_fexp_exact m e Hd He).
  cbn [shr_m loc_of_shr_record shr_r shr_s round_nearest_even].
  rewrite (shr_fexp_exact m e Hd He).
  cbn [shr_m].
  replace (e <=? emax - prec) with true
    by (symmetry; apply Z.leb_le; unfold emax, prec; lia).
  reflexivity.
Qed.

(** A positive count below [2^53] is a finite, non-zero double. *)
Lemma toDouble_finite t :
  (0 < t < 2 ^ 53)%N -> exists m e, toDouble t = S754_finite false m e.
Proof.
  intros [H0 H1]. destruct t as [|p]; [lia|].
  unfold toDouble. change (Z.of_N (N.pos p)) with (Zpos p).
  assert (Hp : Zpos p < 2 ^ 53).
  { change (2 ^ 53) with (Z.of_N (2 ^ 53)). lia. }
  pose proof (digits2_pos_bounds p) as [Hlo Hhi].
  assert (Hd : Zpos (digits2_pos p) <= 53).
  { destruct (Z.le_gt_cases (Zpos (digits2_pos p)) 53) as [|G]; [assumption|].
    exfalso.
    assert (2 ^ 53 <= 2 ^ (Zpos (digits2_pos p) - 1)) by (apply Z.pow_le_mono_r; lia).
    lia. }
  unfold binary_normalize, binary_round, shl_align.
  assert (F : fexp prec emax (Zpos (digits2_pos p) + 0) = Zpos (digits2_pos p) - 53).
  { unfold fexp, SpecFloat.emin, prec, emax. lia. }
  rewrite F.
  destruct (Zpos (digits2_pos p) - 53 - 0) as [|k|k] eqn:E; [|lia|].
  - eexists _, _. apply binary_round_aux_exact; lia.
  - eexists _, _. apply binary_round_aux_exact; [|lia].
    rewrite digits2_iter_xO. lia.
Qed.

Lemma toDouble_isNumber n : isNumber (toDouble n).
Proof.
  unfold toDouble. destruct n as [|p]; [exact I|].
  change (Z.of_N (N.pos p)) with (Zpos p).
  unfold binary_normalize, binary_round.
  destruct (shl_align _ _ _). apply binary_round_aux_isNumber. lia.
Qed.

Lemma SFdiv_core_binary_nonneg mx ex my ey :
  0 <= fst (fst (SFdiv_core_binary prec emax (Zpos mx) ex (Zpos my) ey)).
Proof.
  unfold SFdiv_core_binary.
  set (s := _ - _ - Z.min _ _).
  set (m' := match s with Z0 => _ | Zpos _ => _ | Zneg _ => _ end).
  assert (Hm : 0 <= m').
  { subst m'. destruct s; [lia| |lia]. apply Z.shiftl_nonneg. lia. }
  pose proof (Z.div_pos m' (Zpos my) Hm ltac:(lia)) as Hq.
  unfold Z.div in Hq. destruct (Z.div_eucl m' (Zpos my)) as [q r]. exact Hq.
Qed.

Lemma SFdiv_isNumber x my ey :
  isNumber x -> isNumber (SFdiv prec emax x (S754_finite false my ey)).
Proof.
  intros Hx. destruct x as [sx|sx| |sx mx ex]; try exact I; [contradiction|].
  unfold SFdiv.
  pose proof (SFdiv_core_binary_nonneg mx ex my ey) as Hn.
  destruct (SFdiv_core_binary _ _ _ _ _ _) as [[mz ez] lz].
  now apply binary_round_aux_isNumber.
Qed.

Lemma SFmul_isNumber x my ey :
  isNumber x -> isNumber (SFmul prec emax x (S754_finite false my ey)).
Proof.
  intros Hx. destruct x as [sx|sx| |sx mx ex]; try exact I; [contradiction|].
  unfold SFmul. apply binary_round_aux_isNumber. lia.
Qed.

(** With a non-zero total (below [2^53]) the scaled quotient is a number. *)
Lemma ratio100_isNumber c t :
  (0 < t < 2 ^ 53)%N -> isNumber (ratio100 c t).
Proof.
  intros Ht. destruct (toDouble_finite t Ht) as (my & ey & Ey).
  destruct (toDouble_finite 100 ltac:(split; reflexivity)) as (mh & eh & Eh).
  unfold ratio100. rewrite Ey, Eh.
  apply SFmul_isNumber, SFdiv_isNumber, toDouble_isNumber.
Qed.

(** Without the guard, a zero total would give not-a-number. *)
Example ratio_zero_total : ratio100 0 0 = S754_nan.
Proof. reflexivity. Qed.

(* ------------------------------------------------------------------ *)
(** ** Progress counter *)

Lemma report_cases (c : SerializeCounter.t) :
  SerializeCounter.report c = (c, [])
  \/ (SerializeCounter.total c <> 0%N
      /\ SerializeCounter.percent c <> SerializeCounter.lastPct c
      /\ SerializeCounter.report c
         = (SerializeCounter.mk (SerializeCounter.total c) (SerializeCounter.completed c)
                                (SerializeCounter.percent c),
            [ SerializeCounter.message (SerializeCounter.completed c)
                                       (SerializeCounter.total c)
                                       (SerializeCounter.percent c) ])).
Proof.
  unfold SerializeCounter.report.
  destruct (N.eqb_spec (SerializeCounter.total c) 0) as [E|E]; [now left|].
  destruct (Z.eqb_spec (SerializeCounter.percent c) (SerializeCounter.lastPct c)) as [E'|E'];
    [now left|].
  right. auto.
Qed.

Lemma report_zero_total (c : SerializeCounter.t) :
  SerializeCounter.total c = 0%N -> SerializeCounter.report c = (c, []).
Proof. intros E. unfold SerializeCounter.report. now rewrite E. Qed.

(** What a sequence of calls emits, from any state of the counter: the
    first emission differs from the last one before, consecutive emissions
    differ, and every message is well formed. *)
Lemma calls_emitted (ks : list SerializeCounter.Call) : forall c,
  noConsecutiveRepeat
    (SerializeCounter.lastPct c
       :: map SerializeCounter.msgPct (snd (SerializeCounter.calls ks c)))
  /\ Forall wellFormedMessage (snd (SerializeCounter.calls ks c)).
Proof.
  induction ks as [|k ks IH]; intros c.
  - simpl. auto.
  - cbn [SerializeCounter.calls].
    assert (S : forall c0, SerializeCounter.lastPct c0 = SerializeCounter.lastPct c ->
      let r := (let (c1, out1) := SerializeCounter.report c0 in
                let (c2, out2) := SerializeCounter.calls ks c1 in
                (c2, (out1 ++ out2)%list)) in
      noConsecutiveRepeat
        (SerializeCounter.lastPct c :: map SerializeCounter.msgPct (snd r))
      /\ Forall wellFormedMessage (snd r)).
    { intros c0 E0. cbv zeta.
      destruct (report_cases c0) as [R|(Ht & Hp & R)]; rewrite R.
      - specialize (IH c0). destruct (SerializeCounter.calls ks c0) as [c2 out2].
        simpl in *. rewrite <- E0. exact IH.
      - specialize (IH (SerializeCounter.mk (SerializeCounter.total c0)
                          (SerializeCounter.completed c0) (SerializeCounter.percent c0))).
        destruct (SerializeCounter.calls ks _) as [c2 out2]. simpl in *.
        destruct IH as [IH1 IH2]. split.
        + split; [rewrite <- E0; congruence|exact IH1].
        + constructor; [|exact IH2]. split; [exact Ht|reflexivity]. }
    destruct k as [n|]; apply S; reflexivity.
Qed.

Lemma calls_without_total (ks : list SerializeCounter.Call) : forall c,
  SerializeCounter.total c = 0%N -> Forall addsNothing ks ->
  snd (SerializeCounter.calls ks c) = [].
Proof.
  induction ks as [|k ks IH]; intros c Hc Hks; [reflexivity|].
  inversion Hks as [|k' ks' Hk Hks']; subst.
  cbn [SerializeCounter.calls].
  destruct k as [n|]; simpl in Hk; subst;
    unfold SerializeCounter.call, SerializeCounter.addItems, SerializeCounter.completeItem;
    rewrite report_zero_total by (simpl; rewrite ?N.add_0_r; exact Hc);
    match goal with
    | |- context [SerializeCounter.calls ks ?c1] =>
        specialize (IH c1); destruct (SerializeCounter.calls ks c1) as [c2 out2]
    end;
    simpl in *; apply IH; auto; rewrite ?N.add_0_r; exact Hc.
Qed.

(** C3, as amended: for every sequence of addItems and completeItem calls
    on one fresh counter, the emitted percentages never repeat
    consecutively and each of them lies between 0 and 99, so 100 is never
    reached; each is the floor of completed / total * 100 on doubles,
    capped at 99, for the counts of its message.  (They need not be
    non-decreasing: raising the total lowers the percentage.) *)
Theorem emitted_distinct_and_capped (ks : list SerializeCounter.Call) :
  noConsecutiveRepeat (SerializeCounter.emitted ks)
  /\ Forall (fun p => 0 <= p <= 99) (SerializeCounter.emitted ks)
  /\ Forall wellFormedMessage (snd (SerializeCounter.calls ks SerializeCounter.new)).
Proof.
  unfold SerializeCounter.emitted.
  destruct (calls_emitted ks SerializeCounter.new) as [H1 H2]. split; [|split].
  - destruct (map SerializeCounter.msgPct (snd (SerializeCounter.calls ks SerializeCounter.new)));
      [exact I|]. simpl in H1. tauto.
  - apply Forall_map. eapply Forall_impl; [|exact H2].
    intros m [_ ->]. split.
    + apply minFloor99_nonneg, ratio100_signless.
    + apply minFloor99_le.
  - exact H2.
Qed.

(** C3, as stated, fails: two items are queued, one completes (50%), then
    ten more are queued (8%): the emitted percentages decrease. *)
Lemma emitted_can_decrease :
  SerializeCounter.emitted
    [SerializeCounter.AddItems 2; SerializeCounter.CompleteItem; SerializeCounter.AddItems 10]
  = [0; 50; 8]
  /\ ~ nonDecreasing
       (SerializeCounter.emitted
          [SerializeCounter.AddItems 2; SerializeCounter.CompleteItem;
           SerializeCounter.AddItems 10]).
Proof.
  assert (E : SerializeCounter.emitted
                [SerializeCounter.AddItems 2; SerializeCounter.CompleteItem;
                 SerializeCounter.AddItems 10] = [0; 50; 8]) by reflexivity.
  split; [exact E|]. rewrite E. simpl. lia.
Qed.

(** C10: while the total is zero no call emits a message; in particular
    completeItem on a counter whose total is zero emits nothing and leaves
    the total at zero.  Every message that is ever emitted was computed
    with a non-zero divisor, and (for totals a double counts exactly) its
    scaled quotient is a number, not not-a-number. *)
Theorem no_report_without_total (ks : list SerializeCounter.Call) :
  (forall c, SerializeCounter.total c = 0%N ->
             snd (SerializeCounter.completeItem c) = []
             /\ SerializeCounter.total (fst (SerializeCounter.completeItem c)) = 0%N)
  /\ (Forall addsNothing ks -> snd (SerializeCounter.calls ks SerializeCounter.new) = [])
  /\ Forall (fun m =>
               SerializeCounter.msgTotal m <> 0%N
               /\ SerializeCounter.msgPct m
                  = minFloor99 (ratio100 (SerializeCounter.msgCompleted m)
                                         (SerializeCounter.msgTotal m))
               /\ ((SerializeCounter.msgTotal m < 2 ^ 53)%N ->
                   isNumber (ratio100 (SerializeCounter.msgCompleted m)
                                      (SerializeCounter.msgTotal m))))
            (snd (SerializeCounter.calls ks SerializeCounter.new)).
Proof.
  split; [|split].
  - intros c Hc. unfold SerializeCounter.completeItem.
    rewrite report_zero_total by exact Hc. simpl. auto.
  - apply calls_without_total. reflexivity.
  - destruct (calls_emitted ks SerializeCounter.new) as [_ H].
    eapply Forall_impl; [|exact H].
    intros m [Ht Hp]. split; [exact Ht|]. split; [exact Hp|].
    intros Hb. apply ratio100_isNumber. lia.
Qed.

(* ------------------------------------------------------------------ *)
(** ** Bounded concurrency gate *)

Lemma removeFirst_length k l :
  existsb (Nat.eqb k) l = true ->
  S (List.length (Semaphore.removeFirst k l)) = List.length l.
Proof.
  induction l as [|x l IH]; simpl; [discriminate|].
  rewrite (Nat.eqb_sym k x).
  destruct (Nat.eqb x k); simpl; [reflexivity|].
  intros H. now rewrite IH.
Qed.

Lemma gateInvariant_init n : gateInvariant n (Semaphore.init (Z.of_nat n)).
Proof.
  unfold gateInvariant. simpl. repeat split; try lia. congruence.
Qed.

Lemma settle_handsOver k ok sys :
  existsb (Nat.eqb k) (Semaphore.running sys) = true ->
  exists sys', Semaphore.step (Semaphore.Settle k ok) sys = Some sys' /\ handsOver sys sys'.
Proof.
  intros Hk. unfold Semaphore.step, handsOver, Semaphore.release. rewrite Hk.
  pose proof (removeFirst_length k _ Hk) as Hl.
  destruct (Semaphore.queue (Semaphore.sem sys)) as [|w rest]; eexists; split;
    try reflexivity; simpl.
  - rewrite !app_nil_r. repeat split; auto.
  - repeat split; auto; try lia.
    + apply in_or_app. right. now left.
    + rewrite length_app. simpl. lia.
Qed.

Lemma gateInvariant_step n e sys sys' :
  gateInvariant n sys -> Semaphore.step e sys = Some sys' -> gateInvariant n sys'.
Proof.
  intros (Hlim & Hact & Hle & Hq & Hfifo) Hstep.
  destruct e as [|k ok].
  - unfold Semaphore.step, Semaphore.acquire in Hstep.
    destruct (Z.ltb_spec (Semaphore.active (Semaphore.sem sys))
                         (Semaphore.limit (Semaphore.sem sys))) as [Hlt|Hge];
      inversion Hstep; subst; clear Hstep; unfold gateInvariant;
      cbn [Semaphore.sem Semaphore.calls Semaphore.running Semaphore.admitted
           Semaphore.limit Semaphore.active Semaphore.queue].
    + assert (Hempty : Semaphore.queue (Semaphore.sem sys) = []).
      { destruct (Semaphore.queue (Semaphore.sem sys)) eqn:E; [reflexivity|].
        assert (List.length (Semaphore.running sys) = n) by (apply Hq; congruence). lia. }
      rewrite Hempty in *. rewrite app_nil_r in *.
      rewrite length_app, seq_S, Hfifo. cbn [List.length Nat.add].
      repeat split; try lia. congruence.
    + rewrite seq_S, app_assoc, Hfifo.
      repeat split; try lia.
  - unfold Semaphore.step in Hstep.
    destruct (existsb (Nat.eqb k) (Semaphore.running sys)) eqn:Hk; [|discriminate].
    destruct (settle_handsOver k ok sys Hk) as (sys2 & Hs & Hh).
    unfold Semaphore.step in Hs. rewrite Hk in Hs. rewrite Hs in Hstep.
    inversion Hstep; subst sys2; clear Hstep.
    assert (Hlim' : Semaphore.limit (Semaphore.sem sys') = Semaphore.limit (Semaphore.sem sys)
                    /\ Semaphore.calls sys' = Semaphore.calls sys).
    { unfold Semaphore.release in Hs.
      destruct (Semaphore.queue (Semaphore.sem sys)); inversion Hs; simpl; auto. }
    destruct Hlim' as [Hl' Hc'].
    unfold handsOver in Hh. unfold gateInvariant. rewrite Hl', Hc'.
    destruct (Semaphore.queue (Semaphore.sem sys)) as [|w rest] eqn:Eq.
    + destruct Hh as (Ha & Hq' & Had & Hlen). rewrite Hq', Had, Ha.
      repeat split; try lia; try congruence.
    + destruct Hh as (Ha & Hq' & Had & Hin & Hlen). rewrite Hq', Had, Ha, Hlen.
      repeat split; try lia.
      * intros _. apply Hq. congruence.
      * rewrite <- app_assoc. exact Hfifo.
Qed.

Lemma gateInvariant_steps n es : forall sys sys',
  gateInvariant n sys -> Semaphore.steps es sys = Some sys' -> gateInvariant n sys'.
Proof.
  induction es as [|e es IH]; intros sys sys' Hinv Hsteps; simpl in Hsteps.
  - now inversion Hsteps; subst.
  - destruct (Semaphore.step e sys) as [sys1|] eqn:E; [|discriminate].
    eapply IH; [|exact Hsteps]. eapply gateInvariant_step; eauto.
Qed.

(** C2: in every state reached by any interleaving of run calls and task
    completions against a gate of limit n (so also by n+k concurrent calls),
    at most n tasks are active and the active count is the number of
    admitted, unreleased tasks; the tasks admitted so far followed by the
    queued ones are the calls in the order they were made (FIFO); and when
    an admitted task settles, by success or by failure, the slot goes to the
    oldest queued waiter with the active count unchanged, or is freed when
    nobody waits. *)
Theorem gate_bounded_fifo (n : nat) (es : list Semaphore.Event) (sys : Semaphore.System) :
  Semaphore.steps es (Semaphore.init (Z.of_nat n)) = Some sys ->
  (List.length (Semaphore.running sys) <= n)%nat
  /\ Semaphore.active (Semaphore.sem sys) = Z.of_nat (List.length (Semaphore.running sys))
  /\ (Semaphore.admitted sys ++ Semaphore.queue (Semaphore.sem sys))%list
     = seq 0 (Semaphore.calls sys)
  /\ (forall k ok, In k (Semaphore.running sys) ->
        exists sys', Semaphore.step (Semaphore.Settle k ok) sys = Some sys'
                     /\ handsOver sys sys').
Proof.
  intros H.
  destruct (gateInvariant_steps n es _ _ (gateInvariant_init n) H) as (_ & Ha & Hle & _ & Hf).
  repeat split; auto.
  intros k ok Hin. apply settle_handsOver.
  apply existsb_exists. exists k. split; [exact Hin|apply Nat.eqb_refl].
Qed.

Lemma steps_app es1 : forall es2 sys,
  Semaphore.steps (es1 ++ es2) sys
  = match Semaphore.steps es1 sys with
    | Some sys1 => Semaphore.steps es2 sys1
    | None => None
    end.
Proof.
  induction es1 as [|e es1 IH]; intros es2 sys; simpl; [reflexivity|].
  destruct (Semaphore.step e sys); [apply IH|reflexivity].
Qed.

Lemma repeat_snoc {A} (x : A) n : repeat x (S n) = (repeat x n ++ [x])%list.
Proof. induction n as [|n IH]; simpl in *; [reflexivity|]. now rewrite <- IH. Qed.

(** The first [n] calls are admitted at once. *)
Lemma runs_admitted (n m : nat) :
  (m <= n)%nat ->
  Semaphore.steps (repeat Semaphore.Run m) (Semaphore.init (Z.of_nat n))
  = Some (Semaphore.system (Semaphore.mk (Z.of_nat m) [] (Z.of_nat n)) m (seq 0 m) (seq 0 m)).
Proof.
  induction m as [|m IH]; intros Hm; [reflexivity|].
  rewrite repeat_snoc, steps_app, IH by lia.
  cbn [Semaphore.steps Semaphore.step Semaphore.sem Semaphore.calls
       Semaphore.running Semaphore.admitted].
  unfold Semaphore.acquire. cbn [Semaphore.active Semaphore.limit Semaphore.queue].
  replace (Z.of_nat m <? Z.of_nat n) with true by (symmetry; apply Z.ltb_lt; lia).
  rewrite seq_S. simpl. repeat f_equal. lia.
Qed.

(** The calls beyond the limit are queued in the order they were made. *)
Lemma runs_queued (n k : nat) :
  Semaphore.steps (repeat Semaphore.Run (n + k)) (Semaphore.init (Z.of_nat n))
  = Some (Semaphore.system (Semaphore.mk (Z.of_nat n) (seq n k) (Z.of_nat n))
                           (n + k) (seq 0 n) (seq 0 n)).
Proof.
  induction k as [|k IH].
  - rewrite Nat.add_0_r. apply runs_admitted. lia.
  - rewrite Nat.add_succ_r, repeat_snoc, steps_app, IH.
    cbn [Semaphore.steps Semaphore.step Semaphore.sem Semaphore.calls
         Semaphore.running Semaphore.admitted].
    unfold Semaphore.acquire. cbn [Semaphore.active Semaphore.limit Semaphore.queue].
    rewrite Z.ltb_irrefl. rewrite seq_S. reflexivity.
Qed.

(** Three calls against two slots, then the first task fails: the third
    call takes over its slot. *)
Lemma gate_bounded_fifo_example :
  (List.length (Semaphore.running gateExampleSystem) <= 2)%nat
  /\ Semaphore.active (Semaphore.sem gateExampleSystem)
     = Z.of_nat (List.length (Semaphore.running gateExampleSystem))
  /\ (Semaphore.admitted gateExampleSystem
        ++ Semaphore.queue (Semaphore.sem gateExampleSystem))%list
     = seq 0 (Semaphore.calls gateExampleSystem)
  /\ (forall k ok, In k (Semaphore.running gateExampleSystem) ->
        exists sys', Semaphore.step (Semaphore.Settle k ok) gateExampleSystem = Some sys'
                     /\ handsOver gateExampleSystem sys').
Proof. exact (gate_bounded_fifo 2 gateExampleEvents gateExampleSystem eq_refl). Defined.

(* ------------------------------------------------------------------ *)
(** ** Graph walker *)

Lemma serializeVariable_eq env variable depth maxDepth st :
  serializeVariable env variable depth maxDepth st
  = serializeStep (fun child d => serializeVariable env child d maxDepth)
                  env variable depth maxDepth st.
Proof.
  unfold serializeVariable.
  destruct (Z.to_nat (maxDepth - depth)) as [|levels] eqn:E.
  - cbn [serializeLevels]. unfold serializeStep.
    destruct (isCancellationRequested st); [reflexivity|].
    replace (depth >=? maxDepth) with true by (symmetry; apply Z.geb_le; lia).
    rewrite orb_true_r. reflexivity.
  - cbn [serializeLevels]. unfold serializeStep.
    replace (Z.to_nat (maxDepth - (depth + 1))) with levels by lia.
    reflexivity.
Qed.

(** Below the depth limit, a composite is expanded. *)
Lemma expands variable depth maxDepth :
  variablesReference variable <> 0 -> depth < maxDepth ->
  (variablesReference variable =? 0) || (depth >=? maxDepth) = false.
Proof.
  intros Hr Hd. apply orb_false_iff. split; [now apply Z.eqb_neq|].
  rewrite Z.geb_leb. apply Z.leb_gt. exact Hd.
Qed.

Lemma serializeVariable_cancelled env variable depth maxDepth st :
  isCancellationRequested st = true ->
  serializeVariable env variable depth maxDepth st = (Returned cancelledSentinel, st).
Proof.
  intros H. rewrite serializeVariable_eq. unfold serializeStep. now rewrite H.
Qed.

Lemma serializeVariable_unresolved env variable depth maxDepth st :
  isCancellationRequested st = false ->
  variablesReference variable <> 0 -> maxDepth <= depth ->
  serializeVariable env variable depth maxDepth st = (Returned (unresolvedSentinel variable), st).
Proof.
  intros Hc Hr Hd. rewrite serializeVariable_eq. unfold serializeStep. rewrite Hc.
  replace (depth >=? maxDepth) with true by (symmetry; apply Z.geb_le; lia).
  rewrite orb_true_r.
  replace (variablesReference variable =? 0) with false by (symmetry; now apply Z.eqb_neq).
  reflexivity.
Qed.

Lemma serializeVariable_primitive env variable depth maxDepth st :
  isCancellationRequested st = false ->
  variablesReference variable = 0 ->
  serializeVariable env variable depth maxDepth st
  = (Returned (parsePrimitiveValue (value variable) (type variable)), st).
Proof.
  intros Hc Hr. rewrite serializeVariable_eq. unfold serializeStep. rewrite Hc, Hr.
  reflexivity.
Qed.

Lemma semaphoreRun_free {A} env req (reply : nat -> Reply A) st a :
  gateFree st ->
  reply (List.length (requests st)) = Resolves a ->
  semaphoreRun (customRequest env req reply) st = (Returned a, addRequest env req st).
Proof.
  intros [Hq Ha] Hr.
  unfold semaphoreRun, Semaphore.acquire.
  replace (Semaphore.active (semaphore st) <? Semaphore.limit (semaphore st)) with true
    by (symmetry; now apply Z.ltb_lt).
  unfold tryFinally, customRequest. cbn [requests setSemaphore]. rewrite Hr.
  unfold semaphoreRelease, Semaphore.release, addRequest, setSemaphore.
  destruct st as [rq em pr fl fc cr ct sm]. destruct sm as [a0 q l].
  cbn in *. subst q. cbn. repeat f_equal. lia.
Qed.

(** Walking [n] levels of a chain from the node [i], [n] levels above the
    depth limit. *)
Lemma walk_chain env D (HD : nestedTo D env) (HC : neverCancels env) (n : nat) :
  forall i depth maxDepth st,
    maxDepth - depth = Z.of_nat n -> 1 <= i -> i + Z.of_nat n <= D ->
    isCancellationRequested st = false -> gateFree st ->
    exists st',
      serializeVariable env (chainChild i) depth maxDepth st
      = (Returned (nest n (unresolvedSentinel (chainChild (i + Z.of_nat n)))), st')
      /\ requests st' = (requests st ++ map Variables (map (fun j => i + Z.of_nat j) (seq 0 n)))%list
      /\ isCancellationRequested st' = false /\ gateFree st'.
Proof.
  induction n as [|n IH]; intros i depth maxDepth st Hn Hi HiD Hc Hg.
  - exists st. rewrite serializeVariable_unresolved; [|exact Hc|cbn; lia|lia].
    cbn [seq map Z.of_nat nest]. rewrite Z.add_0_r, app_nil_r. auto.
  - rewrite serializeVariable_eq. unfold serializeStep.
    rewrite Hc, expands by (cbn; lia).
    cbn [variablesReference chainChild].
    unfold bind at 1. unfold requestVariables.
    rewrite (semaphoreRun_free env _ _ st (Some [chainChild (i + 1)]) Hg)
      by (apply HD; lia).
    cbn [isArrayLike].
    change (isArrayLike [chainChild (i + 1)]) with false. cbv iota.
    change (relevantChildren [chainChild (i + 1)]) with [chainChild (i + 1)].
    set (st1 := addRequest env (Variables i) st).
    unfold bind at 1. unfold counterAddItems at 1.
    destruct (SerializeCounter.addItems _ (counter st1)) as [c1 out1].
    set (st2 := setCounter c1 out1 st1).
    destruct (IH (i + 1) (depth + 1) maxDepth st2) as (st3 & E3 & R3 & C3 & G3); try lia.
    { subst st2 st1. cbn. rewrite Hc, HC. reflexivity. }
    { subst st2 st1. exact Hg. }
    cbn [mapM]. unfold bind at 1. unfold bind at 1. unfold bind at 1.
    rewrite E3. unfold bind at 1. unfold counterCompleteItem at 1.
    destruct (SerializeCounter.completeItem (counter st3)) as [c4 out4].
    unfold ret. cbn.
    eexists. split; [|split; [|split]].
    + replace (i + Z.pos (Pos.of_succ_nat n)) with (i + 1 + Z.of_nat n) by lia.
      reflexivity.
    + cbn [requests setCounter]. rewrite R3. subst st2 st1.
      cbn [requests setCounter addRequest]. rewrite <- app_assoc. f_equal.
      cbn [seq map app Z.of_nat]. rewrite Z.add_0_r. f_equal.
      rewrite <- seq_shift, !map_map. apply map_ext. intros j. f_equal. lia.
    + cbn. exact C3.
    + exact G3.
Qed.



(* ------------------------------------------------------------------ *)
(** ** Strings *)

Lemma startsWith_iff (s p : string) : startsWith s p = true <-> beginsWith p s.
Proof.
  unfold startsWith, beginsWith. revert s.
  induction p as [|c p IH]; intros s.
  - split; [intros _; now exists s|intros _; now destruct s].
  - destruct s as [|d s]; simpl.
    + split; [discriminate|intros [r H]; discriminate].
    + destruct (Ascii.ascii_dec c d) as [->|N].
      * rewrite IH. split; intros [r H]; exists r; [now rewrite H|now injection H].
      * split; [discriminate|intros [r H]; injection H; congruence].
Qed.

Lemma includes_iff (s sub : string) : includes s sub = true <-> occursIn sub s.
Proof.
  unfold occursIn. induction s as [|c s IH]; cbn [includes].
  - rewrite orb_false_r. fold (startsWith "" sub). rewrite startsWith_iff.
    split.
    + intros [r H]. exists "", r. exact H.
    + intros (a & b & H). destruct a; [now exists b|discriminate].
  - rewrite orb_true_iff, IH. fold (startsWith (String c s) sub). rewrite startsWith_iff.
    split.
    + intros [[r H]|(a & b & H)].
      * exists "", r. exact H.
      * exists (String c a), b. simpl. now rewrite H.
    + intros (a & b & H). destruct a as [|d a].
      * left. now exists b.
      * right. simpl in H. injection H as _ H. now exists a, b.
Qed.






(* ------------------------------------------------------------------ *)
(** ** Graph walker: expansion *)


Example walk_array :
  fst (serializeVariable sampleEnv (composite "xs" 1) 0 5 idle)
  = Returned (VArray [VNumber (Decimal false 10 0); VNumber (Decimal false 20 0);
                      VNumber (Decimal false 30 0)]).
Proof. vm_compute. reflexivity. Qed.

Example walk_mixed_names :
  fst (serializeVariable sampleEnv (composite "o" 2) 0 5 idle)
  = Returned (VObject [("0", VNumber (Decimal false 10 0)); ("foo", VString "bar")]).
Proof. vm_compute. reflexivity. Qed.

Example walk_internal_slot :
  fst (serializeVariable sampleEnv (composite "o" 3) 0 5 idle)
  = Returned (VObject [("a", VBool true)])
  /\ requests (snd (serializeVariable sampleEnv (composite "o" 3) 0 5 idle)) = [Variables 3].
Proof. vm_compute. split; reflexivity. Qed.


(* ------------------------------------------------------------------ *)
(** ** Graph walker: depth limit *)

Lemma below_nest_leaf n leaf : below "next" n (nest n leaf) = Some leaf.
Proof. induction n as [|n IH]; [reflexivity|exact IH]. Qed.

Lemma below_nest_object n leaf : forall d,
  (d < n)%nat -> exists props, below "next" d (nest n leaf) = Some (VObject props).
Proof.
  induction n as [|n IH]; intros d Hd; [lia|].
  destruct d as [|d].
  - now eexists.
  - cbn. apply IH. lia.
Qed.

(** C1, as amended: while cancellation has not been requested, a reference
    with a non-zero handle passed to serialize with depth >= maxDepth gives
    the string [unresolved: type] (object when there is no type tag) and
    leaves the state as it was: no request is sent for the node or below it.
    With depth counted from 0 at the originally requested expression itself,
    a chain of composites nested to depth D walked with maxDepth = M < D has
    objects at the depths below M and the unresolved sentinel exactly at
    depth M, and the only requests sent are the M fetches of the nodes above
    the sentinel. *)
Theorem unresolved_at_depth_limit (env : Env) :
  (forall variable depth maxDepth st,
      isCancellationRequested st = false ->
      variablesReference variable <> 0 ->
      maxDepth <= depth ->
      serializeVariable env variable depth maxDepth st
      = (Returned (VString ("[unresolved: " ++ orElse (type variable) "object" ++ "]")), st))
  /\ (forall D M st,
        nestedTo D env -> neverCancels env -> 0 <= M < D ->
        isCancellationRequested st = false -> gateFree st ->
        exists v st',
          serializeVariable env (chainChild 1) 0 M st = (Returned v, st')
          /\ below "next" (Z.to_nat M) v = Some (VString "[unresolved: Object]")
          /\ (forall d, (d < Z.to_nat M)%nat ->
                exists props, below "next" d v = Some (VObject props))
          /\ requests st'
             = (requests st ++ map Variables (map Z.of_nat (seq 1 (Z.to_nat M))))%list).
Proof.
  split.
  - intros variable depth maxDepth st Hc Hr Hd.
    now rewrite serializeVariable_unresolved.
  - intros D M st HD HC HM Hc Hg.
    destruct (walk_chain env D HD HC (Z.to_nat M) 1 0 M st) as (st' & E & R & _ & _);
      try lia; auto.
    eexists _, st'. split; [exact E|]. split; [|split].
    + apply below_nest_leaf.
    + apply below_nest_object.
    + rewrite R. f_equal. f_equal. rewrite <- seq_shift, map_map.
      apply map_ext. intros j. lia.
Qed.

Lemma nestedTo_chainEnv D maxDepth : nestedTo D (chainEnv maxDepth).
Proof. intros k i _. reflexivity. Qed.

Lemma gateFree_idle : gateFree idle.
Proof. split; reflexivity. Qed.

(** A chain walked with maxDepth 2: two fetches, the sentinel at depth 2. *)
Lemma unresolved_at_depth_limit_example :
  exists v st',
    serializeVariable (chainEnv 2) (chainChild 1) 0 2 idle = (Returned v, st')
    /\ below "next" (Z.to_nat 2) v = Some (VString "[unresolved: Object]")
    /\ (forall d, (d < Z.to_nat 2)%nat ->
          exists props, below "next" d v = Some (VObject props))
    /\ requests st'
       = (requests idle ++ map Variables (map Z.of_nat (seq 1 (Z.to_nat 2))))%list.
Proof.
  exact (proj2 (unresolved_at_depth_limit (chainEnv 2)) 3 2 idle
               (nestedTo_chainEnv 3 2) (fun _ => eq_refl) (conj (Z.le_0_2) eq_refl)
               eq_refl gateFree_idle).
Defined.

(** C1, as stated, fails.  With maxDepth 1 the sentinel is the immediate
    child of the requested expression: counted from 0 at the immediate
    children it sits at depth 0 and nothing is found at depth 1.  And once
    cancellation is requested a composite at the depth limit gives the
    cancellation sentinel, not the unresolved one. *)
Lemma sentinel_depth_counts_from_root :
  fst (serializeVariable (chainEnv 1) (chainChild 1) 0 1 idle)
  = Returned (VObject [("next", VString "[unresolved: Object]")])
  /\ belowChildren "next" 1 (VObject [("next", VString "[unresolved: Object]")])
     <> Some (VString "[unresolved: Object]")
  /\ belowChildren "next" 0 (VObject [("next", VString "[unresolved: Object]")])
     = Some (VString "[unresolved: Object]")
  /\ fst (serializeVariable (chainEnv 1) (chainChild 1) 1 1 cancelRequested)
     = Returned (VString "[cancelled]")
  /\ fst (serializeVariable (chainEnv 1) (chainChild 1) 1 1 cancelRequested)
     <> Returned (VString "[unresolved: Object]").
Proof.
  split; [vm_compute; reflexivity|]. split; [discriminate|]. split; [reflexivity|].
  split; [reflexivity|discriminate].
Qed.

(* ------------------------------------------------------------------ *)
(** ** Fast-path serializer *)

Lemma afterUnlink_files path st : files (afterUnlink path st) path = None.
Proof.
  unfold afterUnlink, unlinkSync.
  destruct (files st path) eqn:E; cbn [snd files addFsCall]; [|exact E].
  unfold removeFile. now rewrite String.eqb_refl.
Qed.

Lemma afterUnlink_fsCalls path st :
  fsCalls (afterUnlink path st) = (fsCalls st ++ [UnlinkSync path])%list.
Proof. unfold afterUnlink, unlinkSync. now destruct (files st path). Qed.

Lemma fastSerialize_eq env expression frame st :
  fastSerialize env expression frame st
  = let tmpFile := tmpFileOf env in
    let st1 := addRequest env (fastRequest env expression frame) st in
    let st2 := addFsCall (ReadFileSync tmpFile) (files st1) st1 in
    match fastReply env expression frame st with
    | Silent => (Pending, st1)
    | Rejects _ => (Returned VUndefined, afterUnlink tmpFile st1)
    | Resolves resp =>
        if reportsOk resp then
          match files st1 tmpFile with
          | Some json =>
              match JSON_parse env json with
              | Some v => (Returned v, afterUnlink tmpFile st2)
              | None => (Returned VUndefined, afterUnlink tmpFile st2)
              end
          | None => (Returned VUndefined, afterUnlink tmpFile st2)
          end
        else (Returned VUndefined, afterUnlink tmpFile st1)
    end.
Proof.
  cbv zeta. unfold fastReply, fastRequest, afterUnlink.
  unfold fastSerialize, bind, tryFinally, tryCatch, requestEvaluate, customRequest,
    readFileSync, unlinkSync, parseJSON, ret, throw.
  set (script := fastScript _ _).
  set (st1 := addRequest env _ st).
  destruct (evaluate env _ script frame "repl") as [resp|e|]; cbv beta iota zeta.
  - destruct (reportsOk resp); cbv beta iota zeta.
    + destruct (files st1 (tmpFileOf env)) as [json|] eqn:Ef; cbv beta iota zeta.
      * destruct (JSON_parse env json) as [v|]; cbv beta iota zeta;
          cbn [files addFsCall]; rewrite Ef; reflexivity.
      * cbn [files addFsCall]; rewrite Ef; reflexivity.
    + destruct (files st1 (tmpFileOf env)); reflexivity.
  - destruct (files st1 (tmpFileOf env)); reflexivity.
  - reflexivity.
Qed.

(** C6: the fast-path serializer never throws.  It settles unless the
    evaluation is never answered; every failure (rejected evaluation, no
    success report, missing artifact, malformed content) makes it return
    undefined; and whenever it settles, the last thing it did was to try to
    remove the artifact, which does not exist afterwards, a failed removal
    included. *)
Theorem fastSerialize_degrades env expression frame st :
  let tmpFile := tmpFileOf env in
  let out := fastSerialize env expression frame st in
  (forall e, fst out <> Threw e)
  /\ (fst out = Pending <-> fastReply env expression frame st = Silent)
  /\ (fastPathFails env expression frame st -> fst out = Returned VUndefined)
  /\ (fst out <> Pending ->
      files (snd out) tmpFile = None
      /\ exists calls,
           fsCalls (snd out) = (fsCalls st ++ calls ++ [UnlinkSync tmpFile])%list
           /\ (calls = [] \/ calls = [ReadFileSync tmpFile])).
Proof.
  cbv zeta. rewrite fastSerialize_eq. cbv zeta. unfold fastPathFails.
  set (st1 := addRequest env _ st).
  assert (C1 : fsCalls st1 = fsCalls st) by reflexivity.
  assert (C2 : fsCalls (addFsCall (ReadFileSync (tmpFileOf env)) (files st1) st1)
               = (fsCalls st ++ [ReadFileSync (tmpFileOf env)])%list) by reflexivity.
  destruct (fastReply env expression frame st) as [resp|e|].
  - destruct (reportsOk resp) eqn:Eok;
      [destruct (files st1 (tmpFileOf env)) as [json|] eqn:Ef;
       [destruct (JSON_parse env json) as [v|] eqn:Ep|]|];
      cbn [fst snd]; rewrite afterUnlink_files, afterUnlink_fsCalls, ?C1, ?C2;
      (split; [discriminate|]); (split; [split; discriminate|]);
      (split; [|intros _; split; [reflexivity|];
                first [ exists []; split; [reflexivity|now left]
                      | exists [ReadFileSync (tmpFileOf env)];
                        split; [now rewrite <- app_assoc|now right] ]]);
      try reflexivity.
    intros [(e & H)|[(r & H & H')|[(r & H & H')|(r & j & H & H' & H'')]]];
      try discriminate; try congruence.
  - cbn [fst snd]. rewrite afterUnlink_files, afterUnlink_fsCalls, C1.
    split; [discriminate|]. split; [split; discriminate|]. split; [reflexivity|].
    intros _. split; [reflexivity|]. exists []. split; [reflexivity|now left].
  - cbn [fst snd]. split; [discriminate|]. split; [tauto|]. split.
    + intros [(e & H)|[(r & H & H')|[(r & H & H')|(r & j & H & H' & H'')]]]; discriminate.
    + congruence.
Qed.

(* ------------------------------------------------------------------ *)
(** ** Capture orchestrator *)

(** Frame rules: what each construct leaves as it was. *)
Section Frame.

Context {X : Type} (K : State -> X).

Lemma preserves_ret {A} (a : A) : preserves K (ret a).
Proof. intros st r st' H. now inversion H. Qed.

Lemma preserves_throw {A} (e : Error) : preserves K (@throw A e).
Proof. intros st r st' H. now inversion H. Qed.

Lemma preserves_bind {A B} (m : M A) (k : A -> M B) :
  preserves K m -> (forall a, preserves K (k a)) -> preserves K (bind m k).
Proof.
  intros Hm Hk st r st' H. unfold bind in H.
  destruct (m st) as [[a|e|] s1] eqn:E; apply Hm in E.
  - apply Hk in H. congruence.
  - inversion H; subst. exact E.
  - inversion H; subst. exact E.
Qed.

Lemma preserves_attempt {A B} (m : M A) (h : Error -> M B) (k : A -> M B) :
  preserves K m -> (forall e, preserves K (h e)) -> (forall a, preserves K (k a)) ->
  preserves K (attempt m h k).
Proof.
  intros Hm Hh Hk st r st' H. unfold attempt in H.
  destruct (m st) as [[a|e|] s1] eqn:E; apply Hm in E.
  - apply Hk in H. congruence.
  - apply Hh in H. congruence.
  - inversion H; subst. exact E.
Qed.

Lemma preserves_withTimeout {A} (m : M A) label :
  preserves K m -> preserves K (withTimeout m label).
Proof.
  intros Hm st r st' H. unfold withTimeout in H.
  destruct (m st) as [[a|e|] s1] eqn:E; apply Hm in E; inversion H; subst; exact E.
Qed.

Lemma preserves_tryFinally {A} (m : M A) (c : M unit) :
  preserves K m -> preserves K c -> preserves K (tryFinally m c).
Proof.
  intros Hm Hc st r st' H. unfold tryFinally in H.
  destruct (m st) as [[a|e|] s1] eqn:E; apply Hm in E;
    try (inversion H; subst; exact E);
    destruct (c s1) as [[[]|e'|] s2] eqn:E2; apply Hc in E2; inversion H; subst; congruence.
Qed.

Lemma preserves_mapM {A B} (f : A -> M B) (items : list A) :
  (forall x, preserves K (f x)) -> preserves K (mapM f items).
Proof.
  intros Hf. induction items as [|x items IH]; cbn [mapM].
  - apply preserves_ret.
  - apply preserves_bind; [apply Hf|]. intros y.
    apply preserves_bind; [exact IH|]. intros ys. apply preserves_ret.
Qed.

Lemma preserves_customRequest {A} env req (reply : nat -> Reply A) :
  (forall st, K (addRequest env req st) = K st) -> preserves K (customRequest env req reply).
Proof.
  intros HK st r st' H. unfold customRequest in H.
  destruct (reply _); inversion H; subst; apply HK.
Qed.

Lemma preserves_semaphoreRun {A} (fn : M A) :
  (forall s st, K (setSemaphore s st) = K st) -> preserves K fn ->
  preserves K (semaphoreRun fn).
Proof.
  intros HK Hfn st r st' H. unfold semaphoreRun in H.
  destruct (Semaphore.acquire tt (semaphore st)) as [s now].
  destruct now.
  - apply (preserves_tryFinally fn semaphoreRelease) in H; [now rewrite H, HK|exact Hfn|].
    intros s0 r0 s0' H0. inversion H0; subst. apply HK.
  - inversion H; subst. apply HK.
Qed.

Lemma preserves_counterAddItems n :
  (forall c out st, K (setCounter c out st) = K st) -> preserves K (counterAddItems n).
Proof.
  intros HK st r st' H. unfold counterAddItems in H.
  destruct (SerializeCounter.addItems n (counter st)). inversion H; subst. apply HK.
Qed.

Lemma preserves_counterCompleteItem :
  (forall c out st, K (setCounter c out st) = K st) -> preserves K counterCompleteItem.
Proof.
  intros HK st r st' H. unfold counterCompleteItem in H.
  destruct (SerializeCounter.completeItem (counter st)). inversion H; subst. apply HK.
Qed.

End Frame.

(** The walker calls nothing of the file system. *)
Lemma serializeLevels_fsCalls levels : forall env variable depth maxDepth,
  preserves fsCalls (serializeLevels levels env variable depth maxDepth).
Proof.
  assert (Step : forall recurse env variable depth maxDepth,
             (forall child d, preserves fsCalls (recurse child d)) ->
             preserves fsCalls (serializeStep recurse env variable depth maxDepth)).
  { intros recurse env variable depth maxDepth Hrec st r st' H.
    unfold serializeStep in H.
    destruct (isCancellationRequested st); [now inversion H|].
    destruct (_ || _).
    - destruct (negb _); now inversion H.
    - revert st r st' H. apply preserves_bind.
      + apply preserves_semaphoreRun; [reflexivity|].
        apply preserves_customRequest. reflexivity.
      + intros response. cbv zeta.
        destruct (isArrayLike _).
        * apply preserves_bind; [now apply preserves_counterAddItems|]. intros _.
          apply preserves_bind; [|intros; apply preserves_ret].
          apply preserves_mapM. intros child.
          apply preserves_bind; [apply Hrec|]. intros result.
          apply preserves_bind; [now apply preserves_counterCompleteItem|].
          intros _. apply preserves_ret.
        * apply preserves_bind; [now apply preserves_counterAddItems|]. intros _.
          apply preserves_bind; [|intros; apply preserves_ret].
          apply preserves_mapM. intros child.
          apply preserves_bind; [apply Hrec|]. intros result.
          apply preserves_bind; [now apply preserves_counterCompleteItem|].
          intros _. apply preserves_ret. }
  induction levels as [|levels IH]; intros env variable depth maxDepth;
    cbn [serializeLevels]; apply Step.
  - intros child d st r st' H. now inversion H.
  - intros child d. apply IH.
Qed.

Lemma preserves_fsCalls_written {A} (m : M A) : preserves fsCalls m -> preserves written m.
Proof. intros H st r st' E. unfold written. now rewrite (H _ _ _ E). Qed.

Lemma serializeVariable_written env variable depth maxDepth :
  preserves written (serializeVariable env variable depth maxDepth).
Proof. apply preserves_fsCalls_written, serializeLevels_fsCalls. Qed.

Lemma written_afterUnlink path st : written (afterUnlink path st) = written st.
Proof.
  unfold written. rewrite afterUnlink_fsCalls, filter_app. cbn. apply app_nil_r.
Qed.

Lemma written_read path fs st : written (addFsCall (ReadFileSync path) fs st) = written st.
Proof. unfold written. cbn [fsCalls addFsCall]. rewrite filter_app. cbn. apply app_nil_r. Qed.

Lemma fastSerialize_written env expression frame :
  preserves written (fastSerialize env expression frame).
Proof.
  intros st r st' H. rewrite fastSerialize_eq in H. cbv zeta in H.
  destruct (fastReply env expression frame st) as [resp|e|].
  - destruct (reportsOk resp).
    + destruct (files _ _) as [json|]; [destruct (JSON_parse env json)|];
        inversion H; subst; now rewrite written_afterUnlink, written_read.
    + inversion H; subst. now rewrite written_afterUnlink.
  - inversion H; subst. now rewrite written_afterUnlink.
  - now inversion H.
Qed.

(** The end of a continuation, carried back over a step that wrote nothing
    (equation [E]); and a step that stops the capture there. *)
Ltac carried_over F E :=
  let H1 := fresh in
  let H2 := fresh in
  let tf := fresh in
  let v := fresh in
  let s0 := fresh in
  destruct F as [[H1 H2]|(tf & v & s0 & H1 & H2)];
  [ left; split; [congruence|exact H2]
  | right; exists tf, v, s0; split; [congruence|exact H2] ].

Ltac stops_here H E :=
  inversion H; subst; left; split; [exact E|discriminate].

Lemma finishes_bind {A} env ws ex (m : M A) (k : A -> M CaptureResult) :
  preserves written m -> (forall a, finishes env ws ex (k a)) -> finishes env ws ex (bind m k).
Proof.
  intros Hm Hk st r st' H. unfold bind in H.
  destruct (m st) as [[a|e|] s1] eqn:E; apply Hm in E.
  - pose proof (Hk a _ _ _ H) as F. carried_over F E.
  - stops_here H E.
  - stops_here H E.
Qed.

Lemma finishes_attempt {A} env ws ex (m : M A) (h : Error -> M CaptureResult)
  (k : A -> M CaptureResult) :
  preserves written m -> (forall e, finishes env ws ex (h e)) ->
  (forall a, finishes env ws ex (k a)) -> finishes env ws ex (attempt m h k).
Proof.
  intros Hm Hh Hk st r st' H. unfold attempt in H.
  destruct (m st) as [[a|e|] s1] eqn:E; apply Hm in E.
  - pose proof (Hk a _ _ _ H) as F. carried_over F E.
  - pose proof (Hh e _ _ _ H) as F. carried_over F E.
  - stops_here H E.
Qed.

Lemma finishes_abort env ws ex text :
  finishes env ws ex (showErrorMessage text ;; ret None).
Proof. intros st r st' H. inversion H; subst. left. split; [reflexivity|discriminate]. Qed.

Lemma finishes_throw env ws ex e : finishes env ws ex (throw e).
Proof. intros st r st' H. inversion H; subst. left. split; [reflexivity|discriminate]. Qed.

Lemma finishes_assemble env ws ex topFrame serialized :
  finishes env ws ex (assemble env ws ex topFrame serialized).
Proof. intros st r st' H. right. now exists topFrame, serialized, st. Qed.

Lemma preserves_step {A} (f : State -> State) (a : A) :
  (forall st, written (f st) = written st) ->
  preserves written (fun st => (Returned a, f st)).
Proof. intros Hf st r st' H. inversion H; subst. apply Hf. Qed.

Lemma slowPath_finishes env ws ex topFrame maxDepth :
  finishes env ws ex (slowPath env ws ex topFrame maxDepth).
Proof.
  unfold slowPath.
  apply finishes_bind; [now apply preserves_step|]. intros _.
  apply finishes_attempt.
  - apply preserves_withTimeout, preserves_customRequest. reflexivity.
  - intros e. apply finishes_abort.
  - intros evalResp. apply finishes_bind; [now apply preserves_step|]. intros _.
    destruct evalResp as [r|]; [|apply finishes_throw].
    apply finishes_bind; [apply serializeVariable_written|].
    intros serialized. apply finishes_assemble.
Qed.

Lemma captureWithProgress_finishes env ws ex :
  finishes env ws ex (captureWithProgress env ws ex).
Proof.
  unfold captureWithProgress.
  apply finishes_bind; [now apply preserves_step|]. intros _.
  apply finishes_bind; [now apply preserves_step|]. intros _.
  apply finishes_attempt.
  - apply preserves_withTimeout, preserves_customRequest. reflexivity.
  - intros e. apply finishes_abort.
  - intros threadsResp. destruct (orElse threadsResp []) as [|thread0 ?];
      [apply finishes_abort|].
    apply finishes_attempt.
    + apply preserves_withTimeout, preserves_customRequest. reflexivity.
    + intros e. apply finishes_abort.
    + intros stackResp. destruct (orElse stackResp []) as [|topFrame ?];
        [apply finishes_abort|].
      apply finishes_bind; [now apply preserves_step|]. intros _.
      apply finishes_bind; [apply fastSerialize_written|]. intros serialized.
      destruct (isUndefined serialized);
        [apply slowPath_finishes|apply finishes_assemble].
Qed.

Lemma captureVariable_cases env ws st r st' :
  captureVariable env ws st = (r, st') ->
  (written st' = written st /\ forall p, r <> Returned (Some p))
  \/ (exists expression topFrame serialized st0,
        acceptedExpression env expression
        /\ written st0 = written st
        /\ assemble env ws expression topFrame serialized st0 = (r, st')).
Proof.
  unfold captureVariable. intros H.
  assert (Abort : forall text,
             (showErrorMessage text ;; ret None) st = (r, st') ->
             written st' = written st /\ forall p, r <> Returned (Some p)).
  { intros text E. inversion E; subst. split; [reflexivity|discriminate]. }
  destruct (activeDebugSession env) eqn:Ea; cbn [negb] in H; [|left; eapply Abort, H].
  destruct (option_map trim (selection env)) as [expression|] eqn:Es;
    [|left; eapply Abort, H].
  destruct (String.eqb_spec expression "") as [E0|E0]; [left; eapply Abort, H|].
  destruct (startsWithBracketOrBrace expression || includes expression newline) eqn:Eb;
    [left; eapply Abort, H|].
  apply orb_false_iff in Eb. destruct Eb as [Eb1 Eb2].
  destruct (captureWithProgress_finishes env ws expression _ _ _ H)
    as [Hl|(tf & v & s0 & H1 & H2)]; [now left|].
  right. exists expression, tf, v, s0. unfold acceptedExpression. auto 10.
Qed.

Lemma assemble_eq env ws expression topFrame serialized st :
  assemble env ws expression topFrame serialized st
  = if isCancellationRequested st then (Returned None, st)
    else
      let functionName := orElse (frameName topFrame) "unknown" in
      let snapshot :=
        {| version := 1;
           capturedAt := isoNow env;
           source := {| file := orElse (sourcePath topFrame) "";
                        line := orElse (frameLine topFrame) 0;
                        functionName := functionName |};
           frame := {| frame_name := frameName topFrame; frame_id := frameId topFrame |};
           variables := [(expression, serialized)] |} in
      let snapshotsDir := pathJoin (pathJoin ws ".snapshots") "snapshots" in
      let safeName :=
        sanitizeName functionName ++ "_" ++ sanitizeName expression ++ "_"
        ++ dashTimestamp (isoNow env) in
      let snapshotPath := pathJoin snapshotsDir (safeName ++ ".json") in
      (Returned (Some (snapshotPath, snapshot)),
       addFsCall (WriteFileSync snapshotPath (JSON_stringify env snapshot))
                 (writeFile snapshotPath (JSON_stringify env snapshot) (files st))
                 (addFsCall (MkdirSync snapshotsDir) (files st) st)).
Proof.
  unfold assemble. destruct (isCancellationRequested st); [reflexivity|].
  reflexivity.
Qed.

(** C7: once cancellation is requested, a serialize call returns the
    string [cancelled] without throwing and without touching the state (no
    request is sent); the orchestrator's check after the walk returns
    nothing; and a capture at whose end cancellation has been requested has
    returned no snapshot and written no file. *)
Theorem cancelled_capture_writes_nothing (env : Env) :
  (forall variable depth maxDepth st,
      isCancellationRequested st = true ->
      serializeVariable env variable depth maxDepth st = (Returned (VString "[cancelled]"), st))
  /\ (forall ws expression topFrame serialized st,
        isCancellationRequested st = true ->
        assemble env ws expression topFrame serialized st = (Returned None, st))
  /\ (forall ws st r st',
        captureVariable env ws st = (r, st') ->
        isCancellationRequested st' = true ->
        written st' = written st /\ forall p, r <> Returned (Some p)).
Proof.
  split; [|split].
  - intros. now apply serializeVariable_cancelled.
  - intros ws expression topFrame serialized st H. rewrite assemble_eq. now rewrite H.
  - intros ws st r st' H Hc.
    destruct (captureVariable_cases env ws st r st' H)
      as [Hl|(ex & tf & v & s0 & _ & Hw & Ha)]; [exact Hl|].
    rewrite assemble_eq in Ha.
    destruct (isCancellationRequested s0) eqn:E0.
    + inversion Ha; subst. split; [exact Hw|discriminate].
    + cbv zeta in Ha. inversion Ha; subst. cbn in Hc. congruence.
Qed.



Lemma isNameChar_iff c : isNameChar c = true <-> nameCharacter c.
Proof.
  unfold isNameChar, nameCharacter, codeBetween.
  rewrite !orb_true_iff, !andb_true_iff, !Nat.leb_le, !Ascii.eqb_eq. tauto.
Qed.

Lemma get_mapChars f s : forall i,
  String.get i (mapChars f s) = option_map f (String.get i s).
Proof.
  induction s as [|c s IH]; intros i; simpl; [reflexivity|].
  destruct i; [reflexivity|apply IH].
Qed.

Lemma length_mapChars f s : String.length (mapChars f s) = String.length s.
Proof. induction s as [|c s IH]; simpl; congruence. Qed.

Lemma length_substring0 n : forall s,
  String.length (substring 0 n s) = Nat.min n (String.length s).
Proof.
  induction n as [|n IH]; intros s; destruct s as [|c s]; simpl; try reflexivity.
  now rewrite IH.
Qed.

Lemma get_substring0 n : forall s i,
  (i < n)%nat -> String.get i (substring 0 n s) = String.get i s.
Proof.
  induction n as [|n IH]; intros s i Hi; [lia|].
  destruct s as [|c s]; simpl; [reflexivity|].
  destruct i; [reflexivity|]. apply IH. lia.
Qed.

Lemma get_substring0_some n s i c :
  String.get i (substring 0 n s) = Some c -> (i < n)%nat.
Proof.
  revert s i. induction n as [|n IH]; intros s i H.
  - destruct s; simpl in H; destruct i; discriminate.
  - destruct s as [|d s]; simpl in H; [destruct i; discriminate|].
    destruct i; [lia|]. apply IH in H. lia.
Qed.

Lemma slice_prefix s (n : nat) : slice s 0 (Z.of_nat n) = substring 0 (Nat.min n (String.length s)) s.
Proof.
  unfold slice, strlen.
  replace (0 <? 0) with false by reflexivity.
  replace (Z.of_nat n <? 0) with false by (symmetry; apply Z.ltb_ge; lia).
  f_equal; lia.
Qed.

Lemma substring_min n s : substring 0 (Nat.min n (String.length s)) s = substring 0 n s.
Proof.
  revert s. induction n as [|n IH]; intros s; destruct s as [|c s]; simpl; try reflexivity.
  now rewrite IH.
Qed.

Lemma sanitizeName_eq name :
  sanitizeName name = substring 0 64 (mapChars underscoreOther name).
Proof.
  unfold sanitizeName. change 64 with (Z.of_nat 64).
  now rewrite slice_prefix, substring_min.
Qed.

Lemma sanitizeName_spec name :
  String.length (sanitizeName name) = Nat.min 64 (String.length name)
  /\ (forall i c, (i < 64)%nat -> String.get i name = Some c ->
                  String.get i (sanitizeName name) = Some (if isNameChar c then c else "_"%char))
  /\ (forall i c, String.get i (sanitizeName name) = Some c -> nameCharacter c).
Proof.
  rewrite sanitizeName_eq. split; [|split].
  - now rewrite length_substring0, length_mapChars.
  - intros i c Hi Hc. rewrite get_substring0 by exact Hi.
    rewrite get_mapChars, Hc. reflexivity.
  - intros i c Hc. pose proof (get_substring0_some _ _ _ _ Hc) as Hi.
    rewrite get_substring0 in Hc by exact Hi. rewrite get_mapChars in Hc.
    destruct (String.get i name) as [d|]; [|discriminate]. injection Hc as <-.
    apply isNameChar_iff. unfold underscoreOther.
    destruct (isNameChar d) eqn:E; [exact E|reflexivity].
Qed.

Lemma dashTimestamp_spec iso :
  String.length (dashTimestamp iso) = String.length iso
  /\ forall i c, String.get i iso = Some c ->
       String.get i (dashTimestamp iso)
       = Some (if (c =? ":")%char || (c =? ".")%char then "-"%char else c).
Proof.
  unfold dashTimestamp. split; [apply length_mapChars|].
  intros i c Hc. now rewrite get_mapChars, Hc.
Qed.

(** C9, as amended: the file of a successful capture is named after the
    sanitized function name, the sanitized expression and the timestamp,
    joined by underscores.  Sanitizing replaces every character that is not
    a letter, a digit, an underscore or a hyphen by an underscore and keeps
    the first 64 characters; in the timestamp every colon and dot becomes a
    hyphen. *)
Theorem snapshot_file_name env ws st path snapshot st' :
  captureVariable env ws st = (Returned (Some (path, snapshot)), st') ->
  (exists expression value,
      option_map trim (selection env) = Some expression
      /\ variables snapshot = [(expression, value)]
      /\ path = pathJoin (pathJoin (pathJoin ws ".snapshots") "snapshots")
                  ((sanitizeName (functionName (source snapshot)) ++ "_"
                    ++ sanitizeName expression ++ "_"
                    ++ dashTimestamp (capturedAt snapshot)) ++ ".json"))
  /\ (forall name,
        String.length (sanitizeName name) = Nat.min 64 (String.length name)
        /\ (forall i c, (i < 64)%nat -> String.get i name = Some c ->
              String.get i (sanitizeName name) = Some (if isNameChar c then c else "_"%char))
        /\ (forall i c, String.get i (sanitizeName name) = Some c -> nameCharacter c))
  /\ (forall iso,
        String.length (dashTimestamp iso) = String.length iso
        /\ forall i c, String.get i iso = Some c ->
             String.get i (dashTimestamp iso)
             = Some (if (c =? ":")%char || (c =? ".")%char then "-"%char else c)).
Proof.
  intros H. split; [|split; [apply sanitizeName_spec|apply dashTimestamp_spec]].
  destruct (captureVariable_cases env ws st _ st' H)
    as [[_ Hl]|(ex & tf & v & s0 & (_ & Hex & _) & _ & Ha)]; [now elim (Hl (path, snapshot))|].
  rewrite assemble_eq in Ha. destruct (isCancellationRequested s0); [discriminate|].
  cbv zeta in Ha. injection Ha as Hp Hs _. subst snapshot.
  exists ex, v. cbn [variables source functionName capturedAt]. auto.
Qed.

(** C9, as stated, fails: the dot of a property access is replaced by an
    underscore, not stripped. *)
Lemma sanitizeName_replaces_not_strips :
  sanitizeName "order.items" = "order_items"
  /\ stripName "order.items" = "orderitems"
  /\ sanitizeName "order.items" <> stripName "order.items".
Proof. repeat split. discriminate. Qed.


(* ------------------------------------------------------------------ *)
(** ** Scenarios *)

Example fast_path_success :
  fst (fastSerialize fastEnv "order.items" 7 idle)
  = Returned (VArray [VNumber (Decimal false 1 0); VNumber (Decimal false 2 0)])
  /\ files (snd (fastSerialize fastEnv "order.items" 7 idle)) sampleTmpFile = None
  /\ fsCalls (snd (fastSerialize fastEnv "order.items" 7 idle))
     = [ReadFileSync sampleTmpFile; UnlinkSync sampleTmpFile].
Proof. vm_compute. repeat split. Qed.

(** The artifact is missing: reading it fails, removing it fails too, and
    the serializer still returns undefined. *)
Example fast_path_missing_artifact :
  fst (fastSerialize noArtifactEnv "order" 7 idle) = Returned VUndefined
  /\ fsCalls (snd (fastSerialize noArtifactEnv "order" 7 idle))
     = [ReadFileSync sampleTmpFile; UnlinkSync sampleTmpFile]
  /\ (exists e, fst (unlinkSync sampleTmpFile idle) = Threw e).
Proof. vm_compute. repeat split. now eexists. Qed.

Example fast_path_rejected :
  fst (fastSerialize sampleEnv "order" 7 idle) = Returned VUndefined
  /\ fsCalls (snd (fastSerialize sampleEnv "order" 7 idle)) = [UnlinkSync sampleTmpFile].
Proof. vm_compute. repeat split. Qed.

(** The fast path fails and the walker takes over. *)
Example capture_by_slow_path :
  exists path snapshot,
    fst (captureVariable sampleEnv "/ws" idle) = Returned (Some (path, snapshot))
    /\ path = "/ws/.snapshots/snapshots/load_items_order_2024-01-02T03-04-05-678Z.json"
    /\ variables snapshot
       = [("order", VArray [VNumber (Decimal false 10 0); VNumber (Decimal false 20 0);
                            VNumber (Decimal false 30 0)])]
    /\ requests (snd (captureVariable sampleEnv "/ws" idle))
       = [Threads; StackTrace 1;
          fastRequest sampleEnv "order" 7;
          Evaluate "order" 7 "hover"; Variables 1].
Proof. eexists _, _. vm_compute. repeat split. Qed.

(** The children fetched while the user cancels come back as sentinels. *)
Example walk_cancelled_children :
  fst (serializeVariable
         (session (Some "order") 5
                  {| result := "Array(3)"; resultType := Some "Array"; resultReference := 1 |}
                  sampleGraph (fun k => Nat.eqb k 0))
         (composite "order" 1) 0 5 idle)
  = Returned (VArray [VString "[cancelled]"; VString "[cancelled]"; VString "[cancelled]"]).
Proof. vm_compute. reflexivity. Qed.

(** The user cancels while the children of the root are fetched. *)
Lemma cancelled_capture_example :
  written (snd (captureVariable cancelEnv "/ws" idle)) = written idle
  /\ forall p, fst (captureVariable cancelEnv "/ws" idle) <> Returned (Some p).
Proof.
  refine (proj2 (proj2 (cancelled_capture_writes_nothing cancelEnv)) "/ws" idle
                (fst (captureVariable cancelEnv "/ws" idle))
                (snd (captureVariable cancelEnv "/ws" idle)) _ _).
  - apply surjective_pairing.
  - vm_compute. reflexivity.
Defined.

Example cancelled_capture_returns_nothing :
  fst (captureVariable cancelEnv "/ws" idle) = Returned None
  /\ fsCalls (snd (captureVariable cancelEnv "/ws" idle)) = [UnlinkSync sampleTmpFile]
  /\ errorMessages (snd (captureVariable cancelEnv "/ws" idle)) = [].
Proof. vm_compute. repeat split. Qed.


(** A selection that only ends with a line break is trimmed and accepted. *)
Example trailing_line_break_is_trimmed :
  option_map trim (Some ("order" ++ newline)) = Some "order"
  /\ ~ invalidSelection (option_map trim (Some ("order" ++ newline))).
Proof.
  split; [reflexivity|].
  change (option_map trim (Some ("order" ++ newline))) with (Some "order").
  intros [H|[H|(e & H & Hc)]]; try discriminate.
  injection H as <-.
  rewrite <- !startsWith_iff, <- includes_iff in Hc.
  destruct Hc as [Hc|[Hc|Hc]]; vm_compute in Hc; discriminate.
Qed.

(** A capture of [order.items] in the frame [load.items]. *)
Lemma snapshot_file_name_example :
  (exists expression value,
      option_map trim (selection fastEnv) = Some expression
      /\ variables sampleSnapshot = [(expression, value)]
      /\ sampleSnapshotPath
         = pathJoin (pathJoin (pathJoin "/ws" ".snapshots") "snapshots")
                    ((sanitizeName (functionName (source sampleSnapshot)) ++ "_"
                      ++ sanitizeName expression ++ "_"
                      ++ dashTimestamp (capturedAt sampleSnapshot)) ++ ".json"))
  /\ (forall name,
        String.length (sanitizeName name) = Nat.min 64 (String.length name)
        /\ (forall i c, (i < 64)%nat -> String.get i name = Some c ->
              String.get i (sanitizeName name) = Some (if isNameChar c then c else "_"%char))
        /\ (forall i c, String.get i (sanitizeName name) = Some c -> nameCharacter c))
  /\ (forall iso,
        String.length (dashTimestamp iso) = String.length iso
        /\ forall i c, String.get i iso = Some c ->
             String.get i (dashTimestamp iso)
             = Some (if (c =? ":")%char || (c =? ".")%char then "-"%char else c)).
Proof.
  refine (snapshot_file_name fastEnv "/ws" idle sampleSnapshotPath sampleSnapshot
            (snd (captureVariable fastEnv "/ws" idle)) _).
  vm_compute. reflexivity.
Defined.

(* ------------------------------------------------------------------ *)
(** ** Graph walker: outcomes *)
















(* ------------------------------------------------------------------ *)
(** ** Graph walker: effects *)

Section Relates.
Context (R : State -> State -> Prop).
Hypothesis R_refl : forall st, R st st.
Hypothesis R_trans : forall a b c, R a b -> R b c -> R a c.

Lemma relates_ret {A} (a : A) : relates R (ret a).
Proof. intros st r st' H. inversion H; subst. apply R_refl. Qed.

Lemma relates_bind {A B} (m : M A) (k : A -> M B) :
  relates R m -> (forall a, relates R (k a)) -> relates R (bind m k).
Proof.
  intros Hm Hk st r st' H. unfold bind in H.
  destruct (m st) as [[a|e|] s1] eqn:E; specialize (Hm _ _ _ E).
  - eapply R_trans; [exact Hm|]. eapply Hk, H.
  - now inversion H; subst.
  - now inversion H; subst.
Qed.

Lemma relates_mapM {A B} (f : A -> M B) (items : list A) :
  (forall x, relates R (f x)) -> relates R (mapM f items).
Proof.
  intros Hf. induction items as [|x items IH]; cbn [mapM].
  - apply relates_ret.
  - apply relates_bind; [apply Hf|]. intros y.
    apply relates_bind; [exact IH|]. intros ys. apply relates_ret.
Qed.

Lemma relates_tryFinally {A} (m : M A) (c : M unit) :
  relates R m -> relates R c -> relates R (tryFinally m c).
Proof.
  intros Hm Hc st r st' H. unfold tryFinally in H.
  destruct (m st) as [[a|e|] s1] eqn:E; specialize (Hm _ _ _ E).
  - destruct (c s1) as [[[]|e|] s2] eqn:E2; specialize (Hc _ _ _ E2);
      inversion H; subst; eapply R_trans; eauto.
  - destruct (c s1) as [[[]|e'|] s2] eqn:E2; specialize (Hc _ _ _ E2);
      inversion H; subst; eapply R_trans; eauto.
  - now inversion H; subst.
Qed.

Lemma relates_semaphoreRun {A} (fn : M A) :
  (forall s st, R st (setSemaphore s st)) -> relates R fn -> relates R (semaphoreRun fn).
Proof.
  intros Hs Hfn st r st' H. unfold semaphoreRun in H.
  destruct (Semaphore.acquire tt (semaphore st)) as [s now].
  destruct now.
  - eapply R_trans; [apply (Hs s)|].
    revert H. apply relates_tryFinally; [exact Hfn|].
    intros s0 r0 s0' H0. inversion H0; subst. apply Hs.
  - inversion H; subst. apply Hs.
Qed.

Lemma relates_serializeLevels levels :
  (forall s st, R st (setSemaphore s st)) ->
  (forall n, relates R (counterAddItems n)) ->
  relates R counterCompleteItem ->
  (forall env reference st, reference <> 0 -> R st (addRequest env (Variables reference) st)) ->
  forall env variable depth maxDepth,
    relates R (serializeLevels levels env variable depth maxDepth).
Proof.
  intros Hs Add Hc Hq.
  assert (Step : forall recurse env variable depth maxDepth,
             (forall child d, relates R (recurse child d)) ->
             relates R (serializeStep recurse env variable depth maxDepth)).
  { intros recurse env variable depth maxDepth Hrec st r st' H.
    unfold serializeStep in H.
    destruct (isCancellationRequested st); [inversion H; subst; apply R_refl|].
    destruct (variablesReference variable =? 0) eqn:Ez; cbn [orb negb] in H;
      [inversion H; subst; apply R_refl|].
    destruct (depth >=? maxDepth); [inversion H; subst; apply R_refl|].
    apply Z.eqb_neq in Ez.
    assert (Child : forall (B : Type) (g : DapVariable -> MValue -> B) child,
               relates R (result <- recurse child (depth + 1) ;;
                          counterCompleteItem ;; ret (g child result))).
    { intros B g child. apply relates_bind; [apply Hrec|]. intros result.
      apply relates_bind; [exact Hc|intros; apply relates_ret]. }
    revert st r st' H. apply relates_bind.
    - apply relates_semaphoreRun; [exact Hs|].
      intros s0 r0 s0' H0. unfold requestVariables, customRequest in H0.
      destruct (variablesOf env _ _); inversion H0; subst; now apply Hq.
    - intros response. cbv zeta. destruct (isArrayLike _).
      + apply relates_bind; [apply Add|]. intros _.
        apply relates_bind; [|intros; apply relates_ret].
        apply relates_mapM. intros child. apply (Child MValue (fun _ result => result)).
      + apply relates_bind; [apply Add|]. intros _.
        apply relates_bind; [|intros; apply relates_ret].
        apply relates_mapM. intros child.
        apply (Child (string * MValue)%type (fun child result => (name child, result))). }
  induction levels as [|levels IH]; intros env variable depth maxDepth;
    cbn [serializeLevels]; apply Step.
  - intros child d st r st' H. inversion H; subst. apply R_refl.
  - intros child d. apply IH.
Qed.

End Relates.

Lemma fetchesOnly_refl st : fetchesOnly st st.
Proof.
  repeat split; auto.
  - exists []. cbn. now rewrite app_nil_r.
  - exists []. cbn. now rewrite app_nil_r.
Qed.

Lemma fetchesOnly_trans a b c : fetchesOnly a b -> fetchesOnly b c -> fetchesOnly a c.
Proof.
  intros ((r1 & Q1 & F1) & (m1 & P1) & E1 & C1 & K1) ((r2 & Q2 & F2) & (m2 & P2) & E2 & C2 & K2).
  repeat split.
  - exists (r1 ++ r2)%list. rewrite Q2, Q1, map_app, app_assoc. split; [reflexivity|].
    apply Forall_app. now split.
  - exists (m1 ++ m2)%list. now rewrite P2, P1, map_app, app_assoc.
  - congruence.
  - congruence.
  - auto.
Qed.

Lemma fetchesOnly_setCounter c out st : fetchesOnly st (setCounter c out st).
Proof.
  repeat split; auto.
  - exists []. cbn. now rewrite app_nil_r.
  - now exists out.
Qed.

Lemma serializeVariable_fetchesOnly env variable depth maxDepth :
  relates fetchesOnly (serializeVariable env variable depth maxDepth).
Proof.
  unfold serializeVariable.
  apply (relates_serializeLevels fetchesOnly fetchesOnly_refl fetchesOnly_trans).
  - intros s st. repeat split; auto; exists []; cbn; now rewrite app_nil_r.
  - intros n st r st' H. unfold counterAddItems in H.
    destruct (SerializeCounter.addItems n (counter st)). inversion H; subst.
    apply fetchesOnly_setCounter.
  - intros st r st' H. unfold counterCompleteItem in H.
    destruct (SerializeCounter.completeItem (counter st)). inversion H; subst.
    apply fetchesOnly_setCounter.
  - intros env0 reference st Hr. repeat split; auto.
    + exists [reference]. split; [reflexivity|]. now constructor.
    + exists []. cbn. now rewrite app_nil_r.
    + cbn. now intros ->.
Qed.

(** X3: whatever its outcome, a walk only fetches: the requests it sends
    are [variables] requests for non-zero handles, what it adds to the
    progress sink are counter messages, it shows no error message and makes
    no file-system call, and it never withdraws a cancellation. *)
Theorem walk_only_fetches env variable depth maxDepth st r st' :
  serializeVariable env variable depth maxDepth st = (r, st') ->
  (exists references,
      requests st' = (requests st ++ map Variables references)%list
      /\ Forall (fun reference => reference <> 0) references)
  /\ (exists messages, progress st' = (progress st ++ map Serializing messages)%list)
  /\ errorMessages st' = errorMessages st
  /\ fsCalls st' = fsCalls st
  /\ (isCancellationRequested st = true -> isCancellationRequested st' = true).
Proof. apply serializeVariable_fetchesOnly. Qed.

(** The walk of an array of three numbers. *)
Lemma walk_only_fetches_example :
  fetchesOnly idle (snd (serializeVariable sampleEnv (composite "order" 1) 0 5 idle)).
Proof.
  exact (walk_only_fetches sampleEnv (composite "order" 1) 0 5 idle
           (fst (serializeVariable sampleEnv (composite "order" 1) 0 5 idle))
           (snd (serializeVariable sampleEnv (composite "order" 1) 0 5 idle))
           (surjective_pairing _)).
Defined.

(* ------------------------------------------------------------------ *)
(** ** Graph walker: the progress counter *)



























Example walk_of_three_items_shows_99 :
  map SerializeCounter.msgPct
      (snd (SerializeCounter.calls
              [SerializeCounter.AddItems 3; SerializeCounter.CompleteItem;
               SerializeCounter.CompleteItem; SerializeCounter.CompleteItem]
              SerializeCounter.new))
  = [0; 33; 66; 99].
Proof. vm_compute. reflexivity. Qed.

(* ------------------------------------------------------------------ *)
(** ** Capture orchestrator: the steps of a capture *)

Lemma slowPath_eq env ws expression topFrame maxDepth st :
  slowPath env ws expression topFrame maxDepth st
  = let request := Evaluate expression (frameId topFrame) "hover" in
    let st1 :=
      addRequest env request
        (addProgress (Note "Fast path unavailable — using DAP fallback…") st) in
    match evaluate env (List.length (requests st)) expression (frameId topFrame) "hover" with
    | Silent => (Returned None, addErrorMessage (timeoutText "evaluate") st1)
    | Rejects e => (Returned None, addErrorMessage (evaluateErrorText expression e) st1)
    | Resolves None => (Threw undefinedResponse, setSemaphore (Semaphore.new DAP_CONCURRENCY) st1)
    | Resolves (Some r) =>
        match serializeVariable env (rootVariable expression r) 0 maxDepth
                (setSemaphore (Semaphore.new DAP_CONCURRENCY) st1) with
        | (Returned serialized, st2) => assemble env ws expression topFrame serialized st2
        | (Threw e, st2) => (Threw e, st2)
        | (Pending, st2) => (Pending, st2)
        end
    end.
Proof.
  unfold slowPath, bind at 1, progressReport, attempt, withTimeout, requestEvaluate,
    customRequest.
  cbn [requests addProgress]. cbv zeta.
  destruct (evaluate env _ expression (frameId topFrame) "hover") as [[r|]|e|];
    try reflexivity.
Qed.

Lemma captureWithProgress_eq env ws expression st :
  captureWithProgress env ws expression st
  = let st1 := addRequest env Threads (started st) in
    match threads env (List.length (requests st)) with
    | Silent => (Returned None, addErrorMessage (timeoutText "threads") st1)
    | Rejects e =>
        (Returned None,
         addErrorMessage (orElse (message e) "Data Snapshot: Failed to get threads.") st1)
    | Resolves threadsResp =>
        match orElse threadsResp [] with
        | [] => (Returned None, addErrorMessage "Data Snapshot: No threads found." st1)
        | thread0 :: _ =>
            let st2 := addRequest env (StackTrace (threadId thread0)) st1 in
            match stackTrace env (S (List.length (requests st))) (threadId thread0) with
            | Silent => (Returned None, addErrorMessage (timeoutText "stack trace") st2)
            | Rejects e =>
                (Returned None,
                 addErrorMessage
                   (orElse (message e) "Data Snapshot: Failed to get stack trace.") st2)
            | Resolves stackResp =>
                match orElse stackResp [] with
                | [] =>
                    (Returned None,
                     addErrorMessage
                       "Data Snapshot: No stack frames — is the debugger paused at a breakpoint?"
                       st2)
                | topFrame :: _ =>
                    match fastSerialize env expression (frameId topFrame)
                            (addProgress (Note "Serializing (fast path)…") st2) with
                    | (Returned serialized, st3) =>
                        if isUndefined serialized
                        then slowPath env ws expression topFrame (maxDepthSetting env) st3
                        else assemble env ws expression topFrame serialized st3
                    | (Threw e, st3) => (Threw e, st3)
                    | (Pending, st3) => (Pending, st3)
                    end
                end
            end
        end
    end.
Proof.
  unfold captureWithProgress, started.
  unfold bind at 1. unfold bind at 1. unfold progressReport at 1.
  unfold attempt at 1, withTimeout at 1, customRequest at 1.
  cbn [requests addProgress setCounter]. cbv zeta.
  destruct (threads env _) as [threadsResp|e|]; try reflexivity.
  destruct (orElse threadsResp []) as [|thread0 others]; [reflexivity|].
  unfold attempt at 1, withTimeout at 1, customRequest at 1.
  cbn [requests addProgress setCounter addRequest]. rewrite length_app. cbn [List.length].
  replace (List.length (requests st) + 1)%nat with (S (List.length (requests st))) by lia.
  destruct (stackTrace env _ _) as [stackResp|e|]; try reflexivity.
  destruct (orElse stackResp []) as [|topFrame frames]; [reflexivity|].
  unfold bind at 1. unfold progressReport at 1. unfold bind at 1.
  destruct (fastSerialize env expression (frameId topFrame) _) as [[serialized|e|] st3];
    try reflexivity.
  now destruct (isUndefined serialized).
Qed.

Lemma captureVariable_accepted env ws expression st :
  acceptedExpression env expression ->
  captureVariable env ws st = captureWithProgress env ws expression st.
Proof.
  intros (Ha & Hs & Hn & Hb & Hi). unfold captureVariable.
  rewrite Ha, Hs. cbn [negb].
  destruct (String.eqb_spec expression "") as [E|_]; [contradiction|].
  now rewrite Hb, Hi.
Qed.

Lemma captureVariable_inv env ws st r st' :
  captureVariable env ws st = (r, st') ->
  (exists text, r = Returned None /\ st' = addErrorMessage text st)
  \/ (exists expression,
        acceptedExpression env expression
        /\ captureWithProgress env ws expression st = (r, st')).
Proof.
  unfold captureVariable. intros H.
  assert (Abort : forall text,
             (showErrorMessage text ;; ret None) st = (r, st') ->
             exists text, r = Returned None /\ st' = addErrorMessage text st).
  { intros text E. inversion E; subst. now exists text. }
  destruct (activeDebugSession env) eqn:Ea; cbn [negb] in H; [|left; eapply Abort, H].
  destruct (option_map trim (selection env)) as [expression|] eqn:Es;
    [|left; eapply Abort, H].
  destruct (String.eqb_spec expression "") as [E0|E0]; [left; eapply Abort, H|].
  destruct (startsWithBracketOrBrace expression || includes expression newline) eqn:Eb;
    [left; eapply Abort, H|].
  apply orb_false_iff in Eb. destruct Eb as [Eb1 Eb2].
  right. exists expression. unfold acceptedExpression. auto 10.
Qed.

Lemma afterUnlink_cases path st :
  exists fs, afterUnlink path st = addFsCall (UnlinkSync path) fs st.
Proof.
  unfold afterUnlink, unlinkSync. destruct (files st path); cbn [snd]; eauto.
Qed.

(** The fast path, whatever comes of it, sends its request and touches
    nothing but the files. *)
Lemma fastSerialize_sends env expression frame st r st' :
  fastSerialize env expression frame st = (r, st') ->
  requests st' = (requests st ++ [fastRequest env expression frame])%list
  /\ errorMessages st' = errorMessages st
  /\ isCancellationRequested st'
     = isCancellationRequested st || userCancels env (List.length (requests st))
  /\ (forall e, r <> Threw e)
  /\ (r = Pending -> fastReply env expression frame st = Silent).
Proof.
  intros H. rewrite fastSerialize_eq in H. cbv zeta in H.
  assert (U : forall s, requests (afterUnlink (tmpFileOf env) s) = requests s
                        /\ errorMessages (afterUnlink (tmpFileOf env) s) = errorMessages s
                        /\ isCancellationRequested (afterUnlink (tmpFileOf env) s)
                           = isCancellationRequested s).
  { intros s. destruct (afterUnlink_cases (tmpFileOf env) s) as [fs ->]. now cbn. }
  assert (Done : forall s,
             requests s = (requests st ++ [fastRequest env expression frame])%list ->
             errorMessages s = errorMessages st ->
             isCancellationRequested s
             = isCancellationRequested st || userCancels env (List.length (requests st)) ->
             requests (afterUnlink (tmpFileOf env) s)
             = (requests st ++ [fastRequest env expression frame])%list
             /\ errorMessages (afterUnlink (tmpFileOf env) s) = errorMessages st
             /\ isCancellationRequested (afterUnlink (tmpFileOf env) s)
                = isCancellationRequested st || userCancels env (List.length (requests st))).
  { intros s H1 H2 H3. destruct (U s) as (-> & -> & ->). auto. }
  destruct (fastReply env expression frame st) as [resp|e|].
  - destruct (reportsOk resp).
    + destruct (files _ _) as [json|]; [destruct (JSON_parse env json)|];
        inversion H; subst;
        (split; [|split; [|split; [|split]]]; [apply Done| apply Done| apply Done| |];
         try reflexivity; discriminate).
    + inversion H; subst.
      split; [|split; [|split; [|split]]]; [apply Done| apply Done| apply Done| |];
        try reflexivity; discriminate.
  - inversion H; subst.
    split; [|split; [|split; [|split]]]; [apply Done| apply Done| apply Done| |];
      try reflexivity; discriminate.
  - inversion H; subst. cbn. repeat split; discriminate.
Qed.

Lemma serializeVariable_errorMessages env variable depth maxDepth :
  preserves errorMessages (serializeVariable env variable depth maxDepth).
Proof.
  intros st r st' H.
  now destruct (serializeVariable_fetchesOnly _ _ _ _ _ _ _ H) as (_ & _ & E & _).
Qed.

(* ------------------------------------------------------------------ *)
(** ** Capture orchestrator: outcomes *)

Lemma explained_abort st s text :
  errorMessages s = errorMessages st -> explained st (Returned None) (addErrorMessage text s).
Proof. intros E. left. exists text. cbn. now rewrite E. Qed.

Lemma explained_assemble env ws expression topFrame serialized st s r st' :
  errorMessages s = errorMessages st ->
  assemble env ws expression topFrame serialized s = (r, st') -> explained st r st'.
Proof.
  intros E H. rewrite assemble_eq in H.
  destruct (isCancellationRequested s) eqn:Ec; inversion H; subst.
  - right. now split.
  - exact E.
Qed.

Lemma explained_slowPath env ws expression topFrame maxDepth st s r st' :
  errorMessages s = errorMessages st ->
  slowPath env ws expression topFrame maxDepth s = (r, st') -> explained st r st'.
Proof.
  intros E H. rewrite slowPath_eq in H. cbv zeta in H.
  destruct (evaluate env _ _ _ _) as [[resp|]|e|].
  - destruct (serializeVariable _ _ _ _ _) as [[serialized|e|] s2] eqn:Ew;
      apply serializeVariable_errorMessages in Ew; cbn in Ew.
    + eapply explained_assemble; [|exact H]. congruence.
    + inversion H; subst. cbn. congruence.
    + inversion H; subst. cbn. congruence.
  - inversion H; subst. exact E.
  - inversion H; subst. now apply explained_abort.
  - inversion H; subst. now apply explained_abort.
Qed.

Lemma explained_captureWithProgress env ws expression st r st' :
  captureWithProgress env ws expression st = (r, st') -> explained st r st'.
Proof.
  intros H. rewrite captureWithProgress_eq in H. cbv zeta in H.
  destruct (threads env _) as [threadsResp|e|];
    [|inversion H; subst; now apply explained_abort..].
  destruct (orElse threadsResp []) as [|thread0 others];
    [inversion H; subst; now apply explained_abort|].
  destruct (stackTrace env _ _) as [stackResp|e|];
    [|inversion H; subst; now apply explained_abort..].
  destruct (orElse stackResp []) as [|topFrame frames];
    [inversion H; subst; now apply explained_abort|].
  destruct (fastSerialize _ _ _ _) as [[serialized|e|] st3] eqn:Ef;
    apply fastSerialize_sends in Ef; destruct Ef as (_ & Ee & _); cbn in Ee.
  - destruct (isUndefined serialized).
    + eapply explained_slowPath; [|exact H]. exact Ee.
    + eapply explained_assemble; [|exact H]. exact Ee.
  - inversion H; subst. exact Ee.
  - inversion H; subst. exact Ee.
Qed.

(** X6: a capture never fails silently.  When it returns nothing it has
    shown exactly one error message, unless cancellation was requested, in
    which case it has shown none; when it returns a snapshot, throws or
    stays pending it has shown no error message. *)
Theorem capture_never_fails_silently env ws st r st' :
  captureVariable env ws st = (r, st') ->
  match r with
  | Returned None =>
      (exists text, errorMessages st' = (errorMessages st ++ [text])%list)
      \/ (errorMessages st' = errorMessages st /\ isCancellationRequested st' = true)
  | _ => errorMessages st' = errorMessages st
  end.
Proof.
  intros H. destruct (captureVariable_inv env ws st r st' H)
    as [(text & -> & ->)|(expression & _ & Hc)].
  - left. now exists text.
  - exact (explained_captureWithProgress env ws expression st r st' Hc).
Qed.

(** The user cancels during the walk: nothing is returned, nothing shown. *)
Lemma capture_never_fails_silently_example :
  explained idle (fst (captureVariable cancelEnv "/ws" idle))
            (snd (captureVariable cancelEnv "/ws" idle)).
Proof.
  exact (capture_never_fails_silently cancelEnv "/ws" idle
           (fst (captureVariable cancelEnv "/ws" idle))
           (snd (captureVariable cancelEnv "/ws" idle))
           (surjective_pairing _)).
Defined.

(** X7: a capture that returns a snapshot has written it: the file at the
    returned path holds the serialized snapshot, this is the only write of
    the capture and its last file-system call, made right after the
    snapshots directory was created; cancellation was not requested; the
    snapshot has version 1, the capture time of the host clock, and the
    function name of its frame (or [unknown]). *)
Theorem successful_capture_is_persisted env ws st path snapshot st' :
  captureVariable env ws st = (Returned (Some (path, snapshot)), st') ->
  files st' path = Some (JSON_stringify env snapshot)
  /\ written st' = (written st ++ [WriteFileSync path (JSON_stringify env snapshot)])%list
  /\ (exists earlier,
        fsCalls st'
        = (earlier ++ [MkdirSync (snapshotsDirOf ws);
                       WriteFileSync path (JSON_stringify env snapshot)])%list)
  /\ isCancellationRequested st' = false
  /\ version snapshot = 1
  /\ capturedAt snapshot = isoNow env
  /\ functionName (source snapshot) = orElse (frame_name (frame snapshot)) "unknown".
Proof.
  intros H.
  destruct (captureVariable_cases env ws st _ st' H)
    as [[_ Hn]|(ex & tf & v & s0 & _ & Hw & Ha)]; [now elim (Hn (path, snapshot))|].
  rewrite assemble_eq in Ha.
  destruct (isCancellationRequested s0) eqn:E0; [discriminate|].
  cbv zeta in Ha. injection Ha as Hp Hs Hst. subst st'.
  rewrite Hp, Hs. repeat split.
  - cbn [files addFsCall]. unfold writeFile. now rewrite String.eqb_refl.
  - unfold written in *. cbn [fsCalls addFsCall]. rewrite <- app_assoc, filter_app, Hw.
    reflexivity.
  - exists (fsCalls s0). cbn [fsCalls addFsCall]. now rewrite <- app_assoc.
  - exact E0.
  - now subst snapshot.
  - now subst snapshot.
  - now subst snapshot.
Qed.

(** A capture of [order.items] by the fast path. *)
Lemma successful_capture_is_persisted_example :
  files (snd (captureVariable fastEnv "/ws" idle)) sampleSnapshotPath
  = Some (JSON_stringify fastEnv sampleSnapshot)
  /\ written (snd (captureVariable fastEnv "/ws" idle))
     = (written idle
          ++ [WriteFileSync sampleSnapshotPath (JSON_stringify fastEnv sampleSnapshot)])%list
  /\ (exists earlier,
        fsCalls (snd (captureVariable fastEnv "/ws" idle))
        = (earlier ++ [MkdirSync (snapshotsDirOf "/ws");
                       WriteFileSync sampleSnapshotPath
                                     (JSON_stringify fastEnv sampleSnapshot)])%list)
  /\ isCancellationRequested (snd (captureVariable fastEnv "/ws" idle)) = false
  /\ version sampleSnapshot = 1
  /\ capturedAt sampleSnapshot = isoNow fastEnv
  /\ functionName (source sampleSnapshot)
     = orElse (frame_name (frame sampleSnapshot)) "unknown".
Proof.
  refine (successful_capture_is_persisted fastEnv "/ws" idle sampleSnapshotPath sampleSnapshot
            (snd (captureVariable fastEnv "/ws" idle)) _).
  vm_compute. reflexivity.
Defined.






Example capture_refused_by_the_adapter :
  fst (captureVariable refusingEnv "/ws" idle) = Threw {| message := Some "Unable to fetch" |}
  /\ errorMessages (snd (captureVariable refusingEnv "/ws" idle)) = []
  /\ written (snd (captureVariable refusingEnv "/ws" idle)) = [].
Proof. vm_compute. repeat split. Qed.

(** X9: a set-up request that is never answered ends the capture instead
    of blocking it.  For an accepted selection, an unanswered [threads]
    request, an unanswered [stackTrace] request and, in the slow path, an
    unanswered [evaluate] request each make the capture return nothing with
    one error message, the time-out text that names the request, right
    after that request and without any further effect. *)
Theorem unanswered_setup_request_times_out env ws expression st :
  acceptedExpression env expression ->
  (threads env (List.length (requests st)) = Silent ->
   captureVariable env ws st
   = (Returned None,
      addErrorMessage (timeoutText "threads") (addRequest env Threads (started st))))
  /\ (forall thread0 others,
        threads env (List.length (requests st)) = Resolves (Some (thread0 :: others)) ->
        stackTrace env (S (List.length (requests st))) (threadId thread0) = Silent ->
        captureVariable env ws st
        = (Returned None,
           addErrorMessage (timeoutText "stack trace")
             (addRequest env (StackTrace (threadId thread0))
                (addRequest env Threads (started st)))))
  /\ (forall topFrame maxDepth s,
        evaluate env (List.length (requests s)) expression (frameId topFrame) "hover" = Silent ->
        slowPath env ws expression topFrame maxDepth s
        = (Returned None,
           addErrorMessage (timeoutText "evaluate")
             (addRequest env (Evaluate expression (frameId topFrame) "hover")
                (addProgress (Note "Fast path unavailable — using DAP fallback…") s)))).
Proof.
  intros Ha. split; [|split].
  - intros Ht. rewrite (captureVariable_accepted env ws expression st Ha).
    rewrite captureWithProgress_eq. cbv zeta. now rewrite Ht.
  - intros thread0 others Ht Hs. rewrite (captureVariable_accepted env ws expression st Ha).
    rewrite captureWithProgress_eq. cbv zeta. rewrite Ht. cbn [orElse]. now rewrite Hs.
  - intros topFrame maxDepth s He. rewrite slowPath_eq. cbv zeta. now rewrite He.
Qed.

(** A session that answers nothing: the capture ends at [threads]. *)
Lemma unanswered_setup_request_example :
  captureVariable silentEnv "/ws" idle
  = (Returned None,
     addErrorMessage "Data Snapshot: Timed out waiting for threads. Is the debugger paused at a breakpoint?"
       (addRequest silentEnv Threads (started idle))).
Proof.
  refine (proj1 (unanswered_setup_request_times_out silentEnv "/ws" "order" idle _) _).
  - vm_compute. repeat split. discriminate.
  - reflexivity.
Defined.

(* ------------------------------------------------------------------ *)
(** ** Capture orchestrator: requests *)

Lemma requests_assemble env ws expression topFrame serialized st r st' :
  assemble env ws expression topFrame serialized st = (r, st') -> requests st' = requests st.
Proof.
  intros H. rewrite assemble_eq in H.
  destruct (isCancellationRequested st); inversion H; subst; reflexivity.
Qed.

Lemma requests_slowPath env ws expression topFrame maxDepth st r st' :
  slowPath env ws expression topFrame maxDepth st = (r, st') ->
  exists references,
    Forall (fun reference => reference <> 0) references
    /\ (requests st' = (requests st ++ [Evaluate expression (frameId topFrame) "hover"])%list
        \/ requests st'
           = (requests st ++ Evaluate expression (frameId topFrame) "hover"
                :: map Variables references)%list).
Proof.
  intros H. rewrite slowPath_eq in H. cbv zeta in H.
  destruct (evaluate env _ _ _ _) as [[resp|]|e|];
    [|inversion H; subst; exists []; split; [constructor|now left]..].
  destruct (serializeVariable _ _ _ _ _) as [[serialized|e|] s2] eqn:Ew;
    apply serializeVariable_fetchesOnly in Ew; destruct Ew as ((refs & Hq & Hf) & _);
    cbn in Hq; exists refs; (split; [exact Hf|right]).
  - apply requests_assemble in H. rewrite H, Hq, <- app_assoc. reflexivity.
  - inversion H; subst. rewrite Hq, <- app_assoc. reflexivity.
  - inversion H; subst. rewrite Hq, <- app_assoc. reflexivity.
Qed.

(** X10: the requests of a capture follow one protocol.  What a capture
    sends is nothing (the selection was refused) or a non-empty prefix of:
    [threads], [stackTrace], the fast-path evaluation, the slow path's
    [evaluate], then [variables] requests for non-zero handles; a capture
    that returns a snapshot has sent the first three at least. *)
Theorem capture_request_protocol env ws st r st' :
  captureVariable env ws st = (r, st') ->
  exists sent,
    requests st' = (requests st ++ sent)%list
    /\ (sent = []
        \/ exists expression thread frame references rest,
             acceptedExpression env expression
             /\ Forall (fun reference => reference <> 0) references
             /\ (sent ++ rest)%list = captureProtocol env expression thread frame references
             /\ (forall p, r = Returned (Some p) -> (3 <= List.length sent)%nat)).
Proof.
  intros H. destruct (captureVariable_inv env ws st r st' H)
    as [(text & -> & ->)|(expression & Ha & Hc)].
  { exists []. split; [cbn; now rewrite app_nil_r|now left]. }
  rewrite captureWithProgress_eq in Hc. cbv zeta in Hc.
  assert (Sent : forall sent thread frame references rest,
             requests st' = (requests st ++ sent)%list ->
             Forall (fun reference => reference <> 0) references ->
             (sent ++ rest)%list = captureProtocol env expression thread frame references ->
             ((3 <= List.length sent)%nat \/ forall p, r <> Returned (Some p)) ->
             exists sent,
               requests st' = (requests st ++ sent)%list
               /\ (sent = []
                   \/ exists expression thread frame references rest,
                        acceptedExpression env expression
                        /\ Forall (fun reference => reference <> 0) references
                        /\ (sent ++ rest)%list
                           = captureProtocol env expression thread frame references
                        /\ (forall p, r = Returned (Some p) -> (3 <= List.length sent)%nat))).
  { intros sent thread frame references rest Hq Hf Hp Hn.
    exists sent. split; [exact Hq|right].
    exists expression, thread, frame, references, rest.
    split; [exact Ha|split; [exact Hf|split; [exact Hp|]]].
    intros p Hr. destruct Hn as [Hn|Hn]; [exact Hn|now elim (Hn p)]. }
  assert (Stop1 : forall text,
             (Returned None, addErrorMessage text (addRequest env Threads (started st)))
             = (r, st') ->
             requests st' = (requests st ++ [Threads])%list
             /\ forall p, r <> Returned (Some p)).
  { intros text E. inversion E; subst. split; [reflexivity|discriminate]. }
  assert (Stop2 : forall text thread,
             (Returned None,
              addErrorMessage text (addRequest env (StackTrace thread)
                                      (addRequest env Threads (started st))))
             = (r, st') ->
             requests st' = (requests st ++ [Threads; StackTrace thread])%list
             /\ forall p, r <> Returned (Some p)).
  { intros text thread E. inversion E; subst.
    split; [cbn; now rewrite <- app_assoc|discriminate]. }
  destruct (threads env _) as [threadsResp|e|];
    [|destruct (Stop1 _ Hc) as [Hq Hn];
      apply (Sent [Threads] 0 0 [] [StackTrace 0; fastRequest env expression 0;
                                    Evaluate expression 0 "hover"]); auto..].
  destruct (orElse threadsResp []) as [|thread0 others];
    [destruct (Stop1 _ Hc) as [Hq Hn];
     apply (Sent [Threads] 0 0 [] [StackTrace 0; fastRequest env expression 0;
                                   Evaluate expression 0 "hover"]); auto|].
  destruct (stackTrace env _ _) as [stackResp|e|];
    [|destruct (Stop2 _ _ Hc) as [Hq Hn];
      apply (Sent [Threads; StackTrace (threadId thread0)] (threadId thread0) 0 []
                  [fastRequest env expression 0; Evaluate expression 0 "hover"]); auto..].
  destruct (orElse stackResp []) as [|topFrame frames];
    [destruct (Stop2 _ _ Hc) as [Hq Hn];
     apply (Sent [Threads; StackTrace (threadId thread0)] (threadId thread0) 0 []
                 [fastRequest env expression 0; Evaluate expression 0 "hover"]); auto|].
  clear Stop1 Stop2.
  destruct (fastSerialize _ _ _ _) as [[serialized|e|] st3] eqn:Ef;
    apply fastSerialize_sends in Ef; destruct Ef as (Hq & _); cbn in Hq;
    rewrite <- !app_assoc in Hq; cbn [app] in Hq.
  - destruct (isUndefined serialized).
    + apply requests_slowPath in Hc. destruct Hc as (refs & Hf & [Hs|Hs]).
      * apply (Sent [Threads; StackTrace (threadId thread0);
                     fastRequest env expression (frameId topFrame);
                     Evaluate expression (frameId topFrame) "hover"]
                    (threadId thread0) (frameId topFrame) [] []); auto.
        -- rewrite Hs, Hq, <- app_assoc. reflexivity.
        -- left. cbn. lia.
      * apply (Sent ([Threads; StackTrace (threadId thread0);
                      fastRequest env expression (frameId topFrame);
                      Evaluate expression (frameId topFrame) "hover"]
                       ++ map Variables refs)%list
                    (threadId thread0) (frameId topFrame) refs []); auto.
        -- rewrite Hs, Hq, <- app_assoc. reflexivity.
        -- now rewrite app_nil_r.
        -- left. cbn. lia.
    + apply requests_assemble in Hc.
      apply (Sent [Threads; StackTrace (threadId thread0);
                   fastRequest env expression (frameId topFrame)]
                  (threadId thread0) (frameId topFrame) []
                  [Evaluate expression (frameId topFrame) "hover"]); auto.
      congruence.
  - inversion Hc; subst.
    apply (Sent [Threads; StackTrace (threadId thread0);
                 fastRequest env expression (frameId topFrame)]
                (threadId thread0) (frameId topFrame) []
                [Evaluate expression (frameId topFrame) "hover"]); auto.
  - inversion Hc; subst.
    apply (Sent [Threads; StackTrace (threadId thread0);
                 fastRequest env expression (frameId topFrame)]
                (threadId thread0) (frameId topFrame) []
                [Evaluate expression (frameId topFrame) "hover"]); auto.
Qed.

(** A capture by the slow path: five requests. *)
Lemma capture_request_protocol_example :
  exists sent,
    requests (snd (captureVariable sampleEnv "/ws" idle)) = (requests idle ++ sent)%list
    /\ (sent = []
        \/ exists expression thread frame references rest,
             acceptedExpression sampleEnv expression
             /\ Forall (fun reference => reference <> 0) references
             /\ (sent ++ rest)%list
                = captureProtocol sampleEnv expression thread frame references
             /\ (forall p, fst (captureVariable sampleEnv "/ws" idle) = Returned (Some p) ->
                   (3 <= List.length sent)%nat)).
Proof.
  exact (capture_request_protocol sampleEnv "/ws" idle
           (fst (captureVariable sampleEnv "/ws" idle))
           (snd (captureVariable sampleEnv "/ws" idle))
           (surjective_pairing _)).
Defined.



(* ------------------------------------------------------------------ *)
(** ** Primitive value decoder: decimal literals *)



Lemma allChars_app p a b : allChars p (a ++ b) = allChars p a && allChars p b.
Proof. induction a as [|c a IH]; cbn; [reflexivity|]. now rewrite IH, andb_assoc. Qed.







Lemma append_nil_r s : s ++ "" = s.
Proof. induction s as [|c s IH]; cbn; [reflexivity|now rewrite IH]. Qed.








(* ------------------------------------------------------------------ *)
(** ** Bounded concurrency gate: waiting *)

(** X13: the gate makes a call wait only while it is full.  After any
    sequence of calls and completions on a gate with limit [n], a call is
    queued only if [n] tasks are running; so on a gate with a positive
    limit, once no task is running nobody waits and every call made so far
    has been admitted, in call order. *)
Theorem gate_waits_only_when_full (n : nat) (es : list Semaphore.Event) (sys : Semaphore.System) :
  Semaphore.steps es (Semaphore.init (Z.of_nat n)) = Some sys ->
  (Semaphore.queue (Semaphore.sem sys) <> [] -> List.length (Semaphore.running sys) = n)
  /\ ((0 < n)%nat -> Semaphore.running sys = [] ->
      Semaphore.queue (Semaphore.sem sys) = []
      /\ Semaphore.admitted sys = seq 0 (Semaphore.calls sys)).
Proof.
  intros H.
  destruct (gateInvariant_steps n es _ _ (gateInvariant_init n) H) as (_ & _ & _ & Hq & Ha).
  split; [exact Hq|]. intros Hn Hr.
  assert (E : Semaphore.queue (Semaphore.sem sys) = []).
  { destruct (Semaphore.queue (Semaphore.sem sys)) as [|w q] eqn:E; [reflexivity|].
    assert (L : List.length (Semaphore.running sys) = n) by (apply Hq; discriminate).
    rewrite Hr in L. cbn in L. lia. }
  split; [exact E|]. rewrite E, app_nil_r in Ha. exact Ha.
Qed.

(** Three calls against a gate of two slots: the third one waits. *)
Lemma gate_waits_only_when_full_example :
  (Semaphore.queue (Semaphore.sem gateFullSystem) <> [] ->
   List.length (Semaphore.running gateFullSystem) = 2%nat)
  /\ ((0 < 2)%nat -> Semaphore.running gateFullSystem = [] ->
      Semaphore.queue (Semaphore.sem gateFullSystem) = []
      /\ Semaphore.admitted gateFullSystem = seq 0 (Semaphore.calls gateFullSystem)).
Proof.
  apply (gate_waits_only_when_full
           2 [Semaphore.Run; Semaphore.Run; Semaphore.Run] gateFullSystem).
  reflexivity.
Defined.

(* ------------------------------------------------------------------ *)
(** ** Inline stubs: strings and lines *)

Lemma append_assoc a b c : (a ++ b) ++ c = a ++ b ++ c.
Proof. induction a as [|x a IH]; cbn; [reflexivity|now rewrite IH]. Qed.

Lemma length_append a b : String.length (a ++ b) = (String.length a + String.length b)%nat.
Proof. induction a as [|x a IH]; cbn; [reflexivity|now rewrite IH]. Qed.

Lemma prefix_append p s : String.prefix p (p ++ s) = true.
Proof.
  induction p as [|c p IH]; cbn; [now destruct s|].
  destruct (ascii_dec c c) as [_|N]; [exact IH|now elim N].
Qed.

Lemma leadingSpace_split s : s = leadingSpace s ++ trimStart s.
Proof.
  induction s as [|c s IH]; cbn; [reflexivity|].
  destruct (isSpace c); cbn; [now rewrite <- IH|reflexivity].
Qed.

Lemma leadingSpace_spaces s : allChars isSpace (leadingSpace s) = true.
Proof.
  induction s as [|c s IH]; cbn; [reflexivity|].
  destruct (isSpace c) eqn:E; cbn; [now rewrite E|reflexivity].
Qed.

Lemma trimStart_spaces ws s : allChars isSpace ws = true -> trimStart (ws ++ s) = trimStart s.
Proof.
  induction ws as [|c ws IH]; cbn; [reflexivity|].
  intros H. apply andb_true_iff in H. destruct H as [-> H]. now apply IH.
Qed.

Lemma leadingSpace_spaces_then ws c s :
  allChars isSpace ws = true -> isSpace c = false -> leadingSpace (ws ++ String c s) = ws.
Proof.
  intros Hw Hc. induction ws as [|x ws IH]; cbn.
  - now rewrite Hc.
  - cbn in Hw. apply andb_true_iff in Hw. destruct Hw as [-> Hw]. now rewrite IH.
Qed.

Lemma trimStart_head s :
  match trimStart s with String c _ => isSpace c = false | EmptyString => True end.
Proof.
  induction s as [|c s IH]; cbn; [exact I|].
  destruct (isSpace c) eqn:E; [exact IH|exact E].
Qed.

Lemma trimStart_fixed s :
  match s with String c _ => isSpace c = false | EmptyString => True end -> trimStart s = s.
Proof. destruct s as [|c s]; cbn; [reflexivity|]. now intros ->. Qed.

Lemma trimEnd_head c s : isSpace c = false -> trimEnd (String c s) = String c (trimEnd s).
Proof. intros H. cbn. now rewrite H. Qed.

Lemma trimEnd_idempotent s : trimEnd (trimEnd s) = trimEnd s.
Proof.
  induction s as [|c s IH]; cbn; [reflexivity|].
  destruct (isSpace c && (trimEnd s =? "")%string) eqn:E; [reflexivity|].
  cbn. rewrite IH, E. reflexivity.
Qed.

Lemma trim_head s :
  match trim s with String c _ => isSpace c = false | EmptyString => True end.
Proof.
  unfold trim. pose proof (trimStart_head s) as H.
  destruct (trimStart s) as [|c t]; [exact I|]. rewrite (trimEnd_head c t H). exact H.
Qed.

Lemma trim_idempotent s : trim (trim s) = trim s.
Proof.
  unfold trim at 1. rewrite (trimStart_fixed (trim s) (trim_head s)).
  unfold trim. apply trimEnd_idempotent.
Qed.

(** A line is its indentation, its trimmed text and trailing white space;
    when it holds anything but white space, the first two make the line up
    to its trailing white space. *)
Lemma indent_trim s : trimStart s <> "" -> leadingSpace s ++ trim s = trimEnd s.
Proof.
  induction s as [|c s IH]; [cbn; congruence|].
  destruct (isSpace c) eqn:E.
  - assert (Ht : trim (String c s) = trim s) by (unfold trim; cbn [trimStart]; now rewrite E).
    cbn [trimStart leadingSpace trimEnd]. rewrite E, Ht. intros H.
    cbn [append]. rewrite (IH H).
    assert (N : trimEnd s <> "").
    { rewrite <- (IH H). pose proof (trimStart_head s) as Hh. unfold trim.
      destruct (trimStart s) as [|x t]; [congruence|].
      rewrite (trimEnd_head x t Hh). destruct (leadingSpace s); discriminate. }
    apply String.eqb_neq in N. now rewrite N.
  - intros _. unfold trim. cbn [trimStart leadingSpace]. rewrite E. reflexivity.
Qed.

Lemma indexOfFrom_spaces ws m s i :
  allChars isSpace ws = true ->
  match m with String c _ => isSpace c = false | EmptyString => False end ->
  indexOfFrom (ws ++ m ++ s) m i = i + strlen ws.
Proof.
  intros Hw Hm. revert i. induction ws as [|x ws IH]; intros i.
  - cbn [append]. unfold strlen. cbn [String.length Z.of_nat].
    destruct (m ++ s) eqn:E; cbn [indexOfFrom]; rewrite <- E, prefix_append; lia.
  - cbn in Hw. apply andb_true_iff in Hw. destruct Hw as [Hx Hw].
    cbn [append indexOfFrom].
    destruct m as [|c m]; [contradiction|]. cbn [String.prefix].
    destruct (ascii_dec c x) as [->|_]; [congruence|].
    rewrite IH by exact Hw. unfold strlen. cbn [String.length]. lia.
Qed.

Lemma substring_drop a b : substring (String.length a) (String.length b) (a ++ b) = b.
Proof.
  induction a as [|x a IH]; cbn.
  - induction b as [|y b IHb]; cbn; [reflexivity|now rewrite IHb].
  - exact IH.
Qed.

Lemma sliceFrom_append a b : sliceFrom (a ++ b) (strlen a) = b.
Proof.
  unfold sliceFrom, slice, strlen. rewrite length_append.
  replace (Z.of_nat (String.length a) <? 0) with false by (symmetry; apply Z.ltb_ge; lia).
  replace (Z.of_nat (String.length a + String.length b) <? 0) with false
    by (symmetry; apply Z.ltb_ge; lia).
  replace (Z.min (Z.of_nat (String.length a)) (Z.of_nat (String.length a + String.length b)))
    with (Z.of_nat (String.length a)) by lia.
  replace (Z.min (Z.of_nat (String.length a + String.length b))
                 (Z.of_nat (String.length a + String.length b)))
    with (Z.of_nat (String.length a + String.length b)) by lia.
  replace (Z.to_nat (Z.of_nat (String.length a))) with (String.length a) by lia.
  replace (Z.to_nat (Z.max (Z.of_nat (String.length a + String.length b)
                            - Z.of_nat (String.length a)) 0))
    with (String.length b) by lia.
  apply substring_drop.
Qed.

Lemma singleLine_app a b : singleLine (a ++ b) <-> singleLine a /\ singleLine b.
Proof. unfold singleLine. rewrite allChars_app. apply andb_true_iff. Qed.

Lemma allChars_leadingSpace p s : allChars p s = true -> allChars p (leadingSpace s) = true.
Proof.
  induction s as [|c s IH]; cbn; [reflexivity|].
  intros H. apply andb_true_iff in H. destruct H as [Hc H].
  destruct (isSpace c); cbn; [now rewrite Hc, IH|reflexivity].
Qed.

Lemma allChars_trimStart p s : allChars p s = true -> allChars p (trimStart s) = true.
Proof.
  induction s as [|c s IH]; cbn; [reflexivity|].
  intros H. destruct (isSpace c); [|exact H].
  apply andb_true_iff in H. destruct H as [_ H]. now apply IH.
Qed.

Lemma allChars_trimEnd p s : allChars p s = true -> allChars p (trimEnd s) = true.
Proof.
  induction s as [|c s IH]; cbn; [reflexivity|].
  intros H. apply andb_true_iff in H. destruct H as [Hc H].
  destruct (_ && _); cbn; [reflexivity|now rewrite Hc, IH].
Qed.

Lemma singleLine_trim s : singleLine s -> singleLine (trim s).
Proof. intros H. apply allChars_trimEnd, allChars_trimStart, H. Qed.

Lemma singleLine_quoteJSON s : singleLine (quoteJSON s).
Proof.
  unfold quoteJSON. apply singleLine_app. split; [reflexivity|].
  apply singleLine_app. split; [|reflexivity].
  induction s as [|c s IH]; [reflexivity|]. cbn [quoteJSONChars].
  apply singleLine_app. split; [|exact IH]. clear IH.
  unfold quoteJSONChar.
  destruct (nat_of_ascii c =? 8)%nat; [reflexivity|].
  destruct (nat_of_ascii c =? 9)%nat; [reflexivity|].
  destruct (nat_of_ascii c =? 10)%nat eqn:E10; [reflexivity|].
  destruct (nat_of_ascii c =? 12)%nat; [reflexivity|].
  destruct (nat_of_ascii c =? 13)%nat eqn:E13; [reflexivity|].
  destruct (nat_of_ascii c =? 34)%nat; [reflexivity|].
  destruct (nat_of_ascii c =? 92)%nat; [reflexivity|].
  destruct (nat_of_ascii c <? 32)%nat eqn:E32.
  - apply Nat.ltb_lt in E32. unfold singleLine, hexDigit.
    set (n := nat_of_ascii c) in *. clearbody n.
    do 32 (destruct n as [|n]; [reflexivity|]). lia.
  - unfold singleLine. cbn. now rewrite E10, E13.
Qed.

Lemma splitLinesFrom_single a : forall text line,
  singleLine a -> splitLinesFrom (a ++ text) line = splitLinesFrom text (line ++ a).
Proof.
  induction a as [|c a IH]; intros text line H.
  - now rewrite append_nil_r.
  - unfold singleLine in H. cbn in H. apply andb_true_iff in H. destruct H as [Hc H].
    apply negb_true_iff, orb_false_iff in Hc. destruct Hc as [H10 H13].
    cbn [append splitLinesFrom]. rewrite H10, H13, (IH text _ H).
    now rewrite append_assoc.
Qed.

Lemma splitLines_single a : singleLine a -> splitLines a = [a].
Proof.
  intros H. unfold splitLines. rewrite <- (append_nil_r a) at 1.
  now rewrite splitLinesFrom_single.
Qed.

Lemma splitLines_join l ls :
  Forall singleLine (l :: ls) -> splitLines (join newline (l :: ls)) = l :: ls.
Proof.
  revert l. induction ls as [|l' ls IH]; intros l H.
  - cbn [join]. apply splitLines_single. now inversion H.
  - inversion H as [|? ? Hl Hls]; subst.
    change (join newline (l :: l' :: ls)) with (l ++ newline ++ join newline (l' :: ls)).
    unfold splitLines. rewrite splitLinesFrom_single by exact Hl.
    cbn [append newline splitLinesFrom]. cbn [nat_of_ascii]. 
    change (splitLinesFrom (join newline (l' :: ls)) "") with (splitLines (join newline (l' :: ls))).
    now rewrite IH.
Qed.

(* ------------------------------------------------------------------ *)
(** ** Inline stubs: the stub block *)

Lemma spanSpace_split s : forall a b, spanSpace s = (a, b) -> s = a ++ b.
Proof.
  induction s as [|c s IH]; intros a b H; cbn in H.
  - now inversion H.
  - destruct (isSpace c).
    + destruct (spanSpace s) as [a' b']. inversion H; subst. cbn. now rewrite (IH a' b).
    + now inversion H.
Qed.

Lemma spanWord_split s : forall a b, spanWord s = (a, b) -> s = a ++ b.
Proof.
  induction s as [|c s IH]; intros a b H; cbn in H.
  - now inversion H.
  - destruct (isWordChar c).
    + destruct (spanWord s) as [a' b']. inversion H; subst. cbn. now rewrite (IH a' b).
    + now inversion H.
Qed.

Lemma spanNotEquals_split s : forall a b, spanNotEquals s = (a, b) -> s = a ++ b.
Proof.
  induction s as [|c s IH]; intros a b H; cbn in H.
  - now inversion H.
  - destruct (c =? "=")%char.
    + now inversion H.
    + destruct (spanNotEquals s) as [a' b']. inversion H; subst. cbn. now rewrite (IH a' b).
Qed.

Lemma prefix_split p : forall s,
  String.prefix p s = true -> s = p ++ dropChars (String.length p) s.
Proof.
  induction p as [|c p IH]; intros s H; [reflexivity|].
  destruct s as [|c' s]; [discriminate|]. cbn in H.
  destruct (ascii_dec c c') as [->|_]; [|discriminate].
  cbn. now rewrite <- (IH s H).
Qed.

(** The group of the declaration pattern is the beginning of the text, and
    begins with the keyword. *)
Lemma declMatch_prefix text group :
  declMatch text = Some group ->
  (exists rest, text = group ++ rest)
  /\ (exists rest, group = "const" ++ rest \/ group = "let" ++ rest \/ group = "var" ++ rest).
Proof.
  unfold declMatch.
  set (keyword := if startsWith text "const" then Some "const"
                  else if startsWith text "let" then Some "let"
                  else if startsWith text "var" then Some "var" else None).
  assert (K : match keyword with
              | Some kw => String.prefix kw text = true
                           /\ (kw = "const" \/ kw = "let" \/ kw = "var")
              | None => True
              end).
  { subst keyword. unfold startsWith.
    destruct (String.prefix "const" text) eqn:E1; [auto|].
    destruct (String.prefix "let" text) eqn:E2; [auto|].
    destruct (String.prefix "var" text) eqn:E3; [auto|exact I]. }
  destruct keyword as [kw|]; [|discriminate]. destruct K as [Kp Kw].
  pose proof (prefix_split kw text Kp) as Et.
  destruct (spanSpace _) as [ws1 afterSpace] eqn:E1. apply spanSpace_split in E1.
  destruct (spanWord afterSpace) as [w afterName] eqn:E2. apply spanWord_split in E2.
  destruct (_ || _); [discriminate|].
  destruct (spanSpace afterName) as [ws2 afterSpace2] eqn:E3. apply spanSpace_split in E3.
  destruct afterSpace2 as [|c afterColon]; [discriminate|].
  destruct (Ascii.eqb_spec c ":") as [->|Nc].
  - destruct (spanNotEquals afterColon) as [annotation afterAnnotation] eqn:E4.
    apply spanNotEquals_split in E4.
    destruct annotation as [|a annotation]; [discriminate|].
    destruct afterAnnotation as [|b afterAnnotation]; [discriminate|].
    intros H. injection H as <-. split.
    + exists (String b afterAnnotation).
      etransitivity; [exact Et|]. rewrite E1, E2, E3, E4.
      repeat rewrite append_assoc. reflexivity.
    + exists (ws1 ++ w ++ ws2 ++ ":" ++ String a annotation).
      destruct Kw as [-> | [-> | ->]]; auto.
  - destruct (Ascii.eqb_spec c "=") as [->|Ne].
    + intros H. injection H as <-. split.
      * exists (ws2 ++ String "=" afterColon).
        etransitivity; [exact Et|]. rewrite E1, E2, E3.
        repeat rewrite append_assoc. reflexivity.
      * exists (ws1 ++ w). destruct Kw as [-> | [-> | ->]]; auto.
    + intros H. exfalso. revert H.
      destruct c as [[] [] [] [] [] [] [] []]; try discriminate; congruence.
Qed.

Lemma replacement_eq snapshotPath varName originalText :
  replacement snapshotPath varName originalText
  = join newline (stubBlock snapshotPath varName originalText).
Proof. reflexivity. Qed.

Lemma singleLine_leadingSpace s : singleLine s -> singleLine (leadingSpace s).
Proof. apply allChars_leadingSpace. Qed.

Lemma singleLine_fullRhs snapshotPath varName : singleLine (fullRhs snapshotPath varName).
Proof.
  unfold fullRhs. cbv zeta.
  repeat match goal with
         | |- singleLine (_ ++ _) => apply singleLine_app; split
         end;
    solve [reflexivity | apply singleLine_quoteJSON].
Qed.

(** The stub block is what the replacement text splits into. *)
Lemma splitLines_replacement snapshotPath varName originalText :
  singleLine originalText -> singleLine varName ->
  splitLines (replacement snapshotPath varName originalText)
  = stubBlock snapshotPath varName originalText.
Proof.
  intros Hl Hv. rewrite replacement_eq. unfold stubBlock.
  pose proof (singleLine_leadingSpace _ Hl) as Hi.
  pose proof (singleLine_trim _ Hl) as Ht.
  apply splitLines_join.
  repeat constructor.
  - apply singleLine_app. split; [exact Hi|].
    apply singleLine_app. split; [reflexivity|].
    apply singleLine_app. split; [reflexivity|exact Ht].
  - apply singleLine_app. split; [exact Hi|reflexivity].
  - apply singleLine_app. split; [exact Hi|].
    apply singleLine_app. split.
    + destruct (declMatch (trim originalText)) as [group|] eqn:E.
      * destruct (declMatch_prefix _ _ E) as [[rest Hr] _].
        rewrite Hr in Ht. now apply singleLine_app in Ht.
      * apply singleLine_app. split; [reflexivity|exact Hv].
    + apply singleLine_app. split; [reflexivity|].
      apply singleLine_app. split; [apply singleLine_fullRhs|reflexivity].
  - apply singleLine_app. split; [exact Hi|reflexivity].
  - apply singleLine_app. split; [exact Hi|reflexivity].
Qed.

Lemma startsWith_indented indent c s marker :
  allChars isSpace indent = true -> isSpace c = false ->
  startsWith (trimStart (indent ++ String c s)) marker = startsWith (String c s) marker.
Proof.
  intros Hi Hc. rewrite trimStart_spaces by exact Hi. cbn [trimStart]. now rewrite Hc.
Qed.

(** The lines of a stub block, as the revert loop reads them. *)
Lemma stubBlock_read snapshotPath varName l :
  exists l0 l1 l2 l3 l4,
    stubBlock snapshotPath varName l = [l0; l1; l2; l3; l4]
    /\ looksLikeStart l0
    /\ trim (sliceFrom l0 (indexOf l0 MARKER_START + strlen MARKER_START)) = trim l
    /\ leadingSpace l0 = leadingSpace l
    /\ ~ looksLikeEnd l1 /\ ~ looksLikeEnd l2 /\ ~ looksLikeEnd l3 /\ looksLikeEnd l4
    /\ ~ looksLikeStart l1 /\ ~ looksLikeStart l3 /\ ~ looksLikeStart l4.
Proof.
  unfold stubBlock. eexists _, _, _, _, _. split; [reflexivity|].
  pose proof (leadingSpace_spaces l) as Hi.
  set (indent := leadingSpace l) in *.
  assert (Keyword : exists c rest,
             match declMatch (trim l) with
             | Some group => group
             | None => "const " ++ varName
             end = String c rest
             /\ (c = "c" \/ c = "l" \/ c = "v")%char).
  { destruct (declMatch (trim l)) as [group|] eqn:E.
    - destruct (declMatch_prefix _ _ E) as [_ [rest [-> | [-> | ->]]]]; cbn; eauto 6.
    - cbn. eauto 6. }
  destruct Keyword as (c & rest & -> & Hc).
  unfold looksLikeStart, looksLikeEnd.
  repeat split.
  - change (indent ++ MARKER_START ++ " " ++ trim l)
      with (indent ++ String "/" ("/ data-snapshot-stub-start:" ++ " " ++ trim l)).
    now rewrite startsWith_indented.
  - unfold indexOf.
    rewrite (indexOfFrom_spaces indent MARKER_START (" " ++ trim l) 0 Hi) by reflexivity.
    replace (0 + strlen indent + strlen MARKER_START) with (strlen (indent ++ MARKER_START))
      by (unfold strlen; rewrite length_append; lia).
    rewrite <- (append_assoc indent MARKER_START), sliceFrom_append.
    unfold trim at 1. cbn [append trimStart]. cbn [isSpace nat_of_ascii].
    change (trimEnd (trimStart (trim l))) with (trim (trim l)). apply trim_idempotent.
  - change (indent ++ MARKER_START ++ " " ++ trim l)
      with (indent ++ String "/" ("/ data-snapshot-stub-start:" ++ " " ++ trim l)).
    now apply leadingSpace_spaces_then.
  - change (indent ++ "/* eslint-disable */") with (indent ++ String "/" "* eslint-disable */").
    rewrite startsWith_indented by (exact Hi || reflexivity). discriminate.
  - cbn [append]. rewrite startsWith_indented; [|exact Hi|].
    + destruct Hc as [-> | [-> | ->]]; discriminate.
    + destruct Hc as [-> | [-> | ->]]; reflexivity.
  - change (indent ++ "/* eslint-enable */") with (indent ++ String "/" "* eslint-enable */").
    rewrite startsWith_indented by (exact Hi || reflexivity). discriminate.
  - change (indent ++ MARKER_END) with (indent ++ String "/" "/ data-snapshot-stub-end").
    now rewrite startsWith_indented.
  - change (indent ++ "/* eslint-disable */") with (indent ++ String "/" "* eslint-disable */").
    rewrite startsWith_indented by (exact Hi || reflexivity). discriminate.
  - change (indent ++ "/* eslint-enable */") with (indent ++ String "/" "* eslint-enable */").
    rewrite startsWith_indented by (exact Hi || reflexivity). discriminate.
  - change (indent ++ MARKER_END) with (indent ++ String "/" "/ data-snapshot-stub-end").
    rewrite startsWith_indented by (exact Hi || reflexivity). discriminate.
Qed.

(* ------------------------------------------------------------------ *)
(** ** Inline stubs: the revert *)

Lemma lineAt_middle (before : list string) l after :
  lineAt (before ++ l :: after)%list (List.length before) = l.
Proof. unfold lineAt. apply nth_middle. Qed.

Lemma revertEdits_none turns : forall document (before after : list string),
  document = (before ++ after)%list ->
  Forall (fun l => ~ looksLikeStart l) after ->
  revertEdits turns document (List.length before) = [].
Proof.
  induction turns as [|turns IH]; intros document before after Hd Ha; [reflexivity|].
  cbn [revertEdits].
  destruct (List.length before <? List.length document)%nat eqn:E; [|reflexivity].
  destruct after as [|l after].
  { apply Nat.ltb_lt in E. rewrite Hd, app_nil_r in E. lia. }
  inversion Ha as [|? ? Hl Hafter]; subst.
  rewrite lineAt_middle.
  unfold looksLikeStart in Hl. apply not_true_iff_false in Hl. rewrite Hl. cbn [negb].
  replace (S (List.length before)) with (List.length (before ++ [l])%list)
    by (rewrite length_app; cbn; lia).
  apply (IH _ (before ++ [l])%list after); [now rewrite <- app_assoc|exact Hafter].
Qed.

Lemma revertEdits_skip (skipped : list string) : forall turns (before after : list string),
  Forall (fun l => ~ looksLikeStart l) skipped ->
  revertEdits (List.length skipped + turns) (before ++ skipped ++ after)%list
              (List.length before)
  = revertEdits turns (before ++ skipped ++ after)%list
                (List.length before + List.length skipped).
Proof.
  induction skipped as [|l skipped IH]; intros turns before after Hs.
  - cbn. now rewrite Nat.add_0_r.
  - inversion Hs as [|? ? Hl Hskipped]; subst.
    cbn [List.length Nat.add revertEdits app].
    replace (List.length before <? List.length (before ++ l :: skipped ++ after)%list)%nat
      with true by (symmetry; apply Nat.ltb_lt; rewrite length_app; cbn; lia).
    rewrite lineAt_middle.
    unfold looksLikeStart in Hl. apply not_true_iff_false in Hl. rewrite Hl. cbn [negb].
    replace (before ++ l :: skipped ++ after)%list
      with ((before ++ [l]) ++ skipped ++ after)%list by (now rewrite <- app_assoc).
    replace (S (List.length before)) with (List.length (before ++ [l])%list)
      by (rewrite length_app; cbn; lia).
    rewrite (IH turns (before ++ [l])%list after Hskipped).
    f_equal. rewrite length_app. cbn. lia.
Qed.

Lemma includes_append_r a s sub : includes s sub = true -> includes (a ++ s) sub = true.
Proof.
  induction a as [|c a IH]; intros H; [exact H|].
  cbn [append includes]. rewrite (IH H). apply orb_true_r.
Qed.

Lemma includes_append_l s b sub : includes s sub = true -> includes (s ++ b) sub = true.
Proof.
  intros H. apply includes_iff in H. destruct H as (x & y & ->).
  apply includes_iff. exists x, (y ++ b). now rewrite !append_assoc.
Qed.

Lemma includes_join sep (before : list string) l after sub :
  includes l sub = true -> includes (join sep (before ++ l :: after)%list) sub = true.
Proof.
  intros H. induction before as [|x before IH].
  - cbn [app]. destruct after as [|y after]; [exact H|].
    change (join sep (l :: y :: after)) with (l ++ sep ++ join sep (y :: after)).
    now apply includes_append_l.
  - cbn [app].
    destruct (before ++ l :: after)%list as [|y rest] eqn:E.
    { now destruct before. }
    change (join sep (x :: y :: rest)) with (x ++ sep ++ join sep (y :: rest)).
    rewrite <- append_assoc. now apply includes_append_r.
Qed.

(** Reverting a document in which one stub block stands among lines that
    do not read as a start marker. *)
Lemma revert_one_block snapshotPath varName l (before after : list string) :
  Forall (fun l => ~ looksLikeStart l) before ->
  Forall (fun l => ~ looksLikeStart l) after ->
  singleLine l ->
  let stubbed := (before ++ stubBlock snapshotPath varName l ++ after)%list in
  exists edits,
    revertDocument stubbed = Some edits
    /\ applyEdits edits stubbed = (before ++ [(leadingSpace l ++ trim l)%string] ++ after)%list.
Proof.
  intros Hb Ha Hl stubbed.
  destruct (stubBlock_read snapshotPath varName l)
    as (l0 & l1 & l2 & l3 & l4 & Eb & H0 & Htrim & Hind & N1 & N2 & N3 & H4 & S1 & S3 & S4).
  subst stubbed. rewrite Eb.
  set (stubbed := (before ++ [l0; l1; l2; l3; l4] ++ after)%list).
  set (restored := leadingSpace l ++ trim l).
  set (edit := {| firstLine := List.length before;
                  lastLine := List.length before + 4;
                  newText := restored |}).
  assert (Hlen : List.length stubbed = (List.length before + 5 + List.length after)%nat).
  { subst stubbed. rewrite !length_app. cbn. lia. }
  assert (Hedits : revertEdits (List.length stubbed) stubbed 0 = [edit]).
  { replace (List.length stubbed)
      with (List.length before + S (4 + List.length after))%nat by lia.
    subst stubbed. generalize (4 + List.length after)%nat. intros turns.
    pose proof (revertEdits_skip before (S turns) []
                  ([l0; l1; l2; l3; l4] ++ after)%list Hb) as R.
    cbn [List.length Nat.add app] in R |- *. rewrite R. clear R.
    set (stubbed := (before ++ l0 :: l1 :: l2 :: l3 :: l4 :: after)%list) in *.
    assert (Hlen' : List.length stubbed = (List.length before + 5 + List.length after)%nat).
    { subst stubbed. rewrite length_app. cbn. lia. }
    cbn [revertEdits].
    replace (List.length before <? List.length stubbed)%nat with true
      by (symmetry; apply Nat.ltb_lt; lia).
    assert (E0 : lineAt stubbed (List.length before) = l0) by apply lineAt_middle.
    rewrite E0. unfold looksLikeStart in H0. rewrite H0. cbn [negb].
    rewrite Htrim, Hind.
    assert (Es : skipn (S (List.length before)) stubbed = ([l1; l2; l3; l4] ++ after)%list).
    { subst stubbed.
      replace (before ++ l0 :: l1 :: l2 :: l3 :: l4 :: after)%list
        with ((before ++ [l0]) ++ l1 :: l2 :: l3 :: l4 :: after)%list
        by (now rewrite <- app_assoc).
      replace (S (List.length before)) with (List.length (before ++ [l0])%list)
        by (rewrite length_app; cbn; lia).
      now rewrite skipn_app, skipn_all, Nat.sub_diag. }
    rewrite Es. cbn [app findEnd].
    unfold looksLikeEnd in N1, N2, N3, H4.
    apply not_true_iff_false in N1, N2, N3. rewrite N1, N2, N3, H4.
    replace (S (S (S (S (List.length before)))) <? List.length stubbed)%nat with true
      by (symmetry; apply Nat.ltb_lt; lia).
    f_equal.
    - subst edit restored. f_equal. lia.
    - replace (S (S (S (S (S (List.length before))))))
        with (List.length (before ++ [l0; l1; l2; l3; l4])%list)
        by (rewrite length_app; cbn; lia).
      apply (revertEdits_none _ _ _ after); [|exact Ha].
      subst stubbed. now rewrite <- app_assoc. }
  exists [edit]. split.
  - unfold revertDocument.
    replace (includes (getText stubbed) MARKER_START) with true.
    + cbn [negb]. now rewrite Hedits.
    + symmetry. unfold getText. subst stubbed. apply includes_join.
      unfold looksLikeStart, startsWith in H0.
      rewrite (leadingSpace_split l0). apply includes_append_r.
      destruct (trimStart l0); cbn [includes]; now rewrite H0.
  - cbn [applyEdits fold_right]. unfold replaceLines. cbn [firstLine lastLine newText edit].
    assert (Hr : singleLine restored).
    { subst restored. apply singleLine_app. split;
        [now apply singleLine_leadingSpace|now apply singleLine_trim]. }
    rewrite (splitLines_single restored Hr).
    subst stubbed. rewrite firstn_app, firstn_all, Nat.sub_diag. cbn [firstn].
    rewrite app_nil_r. f_equal. f_equal.
    replace (before ++ [l0; l1; l2; l3; l4] ++ after)%list
      with ((before ++ [l0; l1; l2; l3; l4]) ++ after)%list by (now rewrite <- app_assoc).
    replace (S (List.length before + 4))
      with (List.length (before ++ [l0; l1; l2; l3; l4])%list)
      by (rewrite length_app; cbn; lia).
    now rewrite skipn_app, skipn_all, Nat.sub_diag.
Qed.

(* ------------------------------------------------------------------ *)
(** ** Inline stubs: the declaration pattern *)

Lemma escapeChar_cases c :
  (isSyntaxChar c = true /\ escapeChar c = String "\" (String c ""))
  \/ (isSyntaxChar c = false /\ escapeChar c = String c "").
Proof. destruct c as [[] [] [] [] [] [] [] []]; cbn; auto. Qed.

Lemma parsePattern_escaped name : forall fuel tail,
  parsePattern (String.length name + fuel) (escapeRegExp name ++ tail)
  = match parsePattern fuel tail with
    | Some atoms => Some (map Char (list_ascii_of_string name) ++ atoms)%list
    | None => None
    end.
Proof.
  induction name as [|c name IH]; intros fuel tail.
  - cbn. now destruct (parsePattern fuel tail).
  - cbn [String.length Nat.add escapeRegExp list_ascii_of_string map app].
    rewrite append_assoc.
    specialize (IH fuel tail).
    destruct (escapeChar_cases c) as [[Hs ->]|[Hs ->]].
    + cbn [append parsePattern].
      assert (Hb : c <> "b"%char /\ c <> "s"%char).
      { split; intros ->; discriminate. }
      destruct Hb as [Hb1 Hb2]. rewrite IH.
      destruct c as [[] [] [] [] [] [] [] []]; try discriminate; try congruence;
        now destruct (parsePattern fuel tail).
    + cbn [append parsePattern]. rewrite IH.
      destruct c as [[] [] [] [] [] [] [] []]; try discriminate;
        now destruct (parsePattern fuel tail).
Qed.

Lemma length_escapeRegExp name :
  exists k, String.length (escapeRegExp name) = (String.length name + k)%nat.
Proof.
  induction name as [|c name [k IH]]; [now exists 0%nat|].
  cbn [escapeRegExp]. rewrite length_append, IH.
  destruct (escapeChar_cases c) as [[_ ->]|[_ ->]]; cbn [String.length].
  - exists (S k). lia.
  - exists k. lia.
Qed.

Lemma parsePattern_assignPattern varName :
  parsePattern (S (String.length (assignPattern varName))) (assignPattern varName)
  = Some (declarationOf varName).
Proof.
  unfold assignPattern. rewrite !length_append.
  destruct (length_escapeRegExp varName) as [k ->].
  change (String.length "\b(?:const|let|var)\s+") with 22%nat.
  change (String.length "\b") with 2%nat.
  replace (S (22 + (String.length varName + k + 2)))
    with (S (S (S (String.length varName + (S (S (20 + k))))))) by lia.
  cbn [append parsePattern readWords Ascii.eqb Bool.eqb isSyntaxChar existsb orb].
  rewrite parsePattern_escaped. reflexivity.
Qed.

Lemma candidateLines_eq varName document :
  candidateLines varName document
  = Some (List.filter
            (fun i => matchSomewhere (declarationOf varName) None (lineAt document i)
                      && negb (includes (lineAt document i) MARKER_START))
            (seq 0 (List.length document))).
Proof. unfold candidateLines. now rewrite parsePattern_assignPattern. Qed.

(** A line of white space declares nothing. *)
Lemma blank_declares_nothing varName l : forall before,
  allChars isSpace l = true -> matchSomewhere (declarationOf varName) before l = false.
Proof.
  assert (Here : forall before s,
             match s with String c _ => isSpace c = true | EmptyString => True end ->
             matchAtoms (declarationOf varName) before s = false).
  { intros before s Hs. unfold declarationOf. cbn [app matchAtoms existsb].
    destruct s as [|c s]; [now rewrite andb_false_r|].
    cbn [String.prefix].
    destruct (ascii_dec "c" c) as [<-|_]; [discriminate|].
    destruct (ascii_dec "l" c) as [<-|_]; [discriminate|].
    destruct (ascii_dec "v" c) as [<-|_]; [discriminate|].
    now rewrite andb_false_r. }
  induction l as [|c l IH]; intros before H.
  - cbn [matchSomewhere]. now rewrite Here.
  - cbn in H. apply andb_true_iff in H. destruct H as [Hc H].
    cbn [matchSomewhere]. rewrite Here by exact Hc. now rewrite IH.
Qed.

Lemma allChars_trimStart_nil s : trimStart s = "" -> allChars isSpace s = true.
Proof.
  induction s as [|c s IH]; cbn; [reflexivity|].
  destruct (isSpace c); [exact IH|discriminate].
Qed.

(** What a stub that is applied has done. *)
Lemma applyInlineStub_applied wb snapshotPath snapshot filePath stubbed :
  applyInlineStub wb snapshotPath snapshot = StubApplied filePath stubbed ->
  let document := openTextDocument wb filePath in
  exists varName i,
    map fst (variables snapshot) = [varName]
    /\ filePath = file (source snapshot)
    /\ filePath <> "" /\ existsSync wb filePath = true
    /\ (i < List.length document)%nat
    /\ matchSomewhere (declarationOf varName) None (lineAt document i) = true
    /\ includes (lineAt document i) MARKER_START = false
    /\ stubbed
       = (firstn i document
            ++ splitLines (replacement snapshotPath varName (lineAt document i))
            ++ skipn (S i) document)%list.
Proof.
  unfold applyInlineStub.
  destruct (map fst (variables snapshot)) as [|varName [|]] eqn:Ev; try discriminate.
  destruct (String.eqb_spec (file (source snapshot)) "") as [E0|E0]; [discriminate|].
  destruct (existsSync wb (file (source snapshot))) eqn:Ee; [|discriminate].
  cbn [orb negb]. rewrite candidateLines_eq.
  set (document := openTextDocument wb (file (source snapshot))).
  set (test := fun i => matchSomewhere (declarationOf varName) None (lineAt document i)
                        && negb (includes (lineAt document i) MARKER_START)).
  set (candidates := List.filter test (seq 0 (List.length document))).
  assert (Chosen : forall i, In i candidates ->
             (if applyEdit wb (file (source snapshot))
                   [{| firstLine := i; lastLine := i;
                       newText := replacement snapshotPath varName (lineAt document i) |}]
              then StubApplied (file (source snapshot))
                     (applyEdits
                        [{| firstLine := i; lastLine := i;
                            newText := replacement snapshotPath varName (lineAt document i) |}]
                        document)
              else StubRefused) = StubApplied filePath stubbed ->
             exists varName0 i0,
               [varName] = [varName0]
               /\ filePath = file (source snapshot)
               /\ filePath <> "" /\ existsSync wb filePath = true
               /\ (i0 < List.length (openTextDocument wb filePath))%nat
               /\ matchSomewhere (declarationOf varName0) None
                                 (lineAt (openTextDocument wb filePath) i0) = true
               /\ includes (lineAt (openTextDocument wb filePath) i0) MARKER_START = false
               /\ stubbed
                  = (firstn i0 (openTextDocument wb filePath)
                       ++ splitLines (replacement snapshotPath varName0
                                        (lineAt (openTextDocument wb filePath) i0))
                       ++ skipn (S i0) (openTextDocument wb filePath))%list).
  { intros i Hi H. destruct (applyEdit _ _ _); [|discriminate].
    injection H as <- <-. subst candidates. apply filter_In in Hi.
    destruct Hi as [Hi Ht]. apply in_seq in Hi. subst test. cbn beta in Ht.
    apply andb_true_iff in Ht. destruct Ht as [Ht1 Ht2]. apply negb_true_iff in Ht2.
    exists varName, i. fold document. repeat split; auto; lia. }
  destruct candidates as [|i0 [|i1 more]] eqn:Ec; [discriminate| |].
  - intros H. apply (Chosen i0); [now left|exact H].
  - intros H. revert H.
    destruct (showQuickPick wb _) as [k|]; [|discriminate].
    destruct (nth_error _ k) as [item|] eqn:En; [|discriminate].
    cbn [option_map]. apply Chosen.
    apply nth_error_In in En. apply in_map_iff in En.
    destruct En as (i & <- & Hi). exact Hi.
Qed.

Lemma withLine_same i (document : Document) :
  (i < List.length document)%nat -> withLine i (lineAt document i) document = document.
Proof.
  intros H. unfold withLine, lineAt.
  rewrite <- (firstn_skipn i document) at 4.
  f_equal. revert i H. induction document as [|l document IH]; intros i H; [cbn in H; lia|].
  destruct i as [|i]; [reflexivity|]. cbn. apply IH. cbn in H. lia.
Qed.

Lemma document_split i (document : Document) :
  (i < List.length document)%nat ->
  document = (firstn i document ++ lineAt document i :: skipn (S i) document)%list
  /\ List.length (firstn i document) = i.
Proof.
  intros H. split; [|apply firstn_length_le; lia].
  pose proof (withLine_same i document H) as E. unfold withLine in E. now symmetry.
Qed.

(** X14: reverting gives back what a stub replaced.  When a stub is
    applied to a document of single lines none of which reads as a start
    marker, for a variable name without a line break, then the revert of
    the stubbed document finds the block and puts back the declaration
    line without its trailing white space, leaving every other line as it
    was; if the line had no trailing white space the document is the
    original again. *)
Theorem stub_then_revert_restores wb snapshotPath snapshot filePath stubbed :
  applyInlineStub wb snapshotPath snapshot = StubApplied filePath stubbed ->
  Forall singleLine (openTextDocument wb filePath) ->
  Forall (fun l => ~ looksLikeStart l) (openTextDocument wb filePath) ->
  Forall singleLine (map fst (variables snapshot)) ->
  let document := openTextDocument wb filePath in
  exists i edits,
    (i < List.length document)%nat
    /\ revertDocument stubbed = Some edits
    /\ applyEdits edits stubbed = withLine i (trimEnd (lineAt document i)) document
    /\ (trimEnd (lineAt document i) = lineAt document i ->
        applyEdits edits stubbed = document).
Proof.
  intros H Hsingle Hplain Hname document.
  destruct (applyInlineStub_applied _ _ _ _ _ H)
    as (varName & i & Ev & _ & _ & _ & Hi & Hm & _ & ->).
  fold document in Hi, Hm |- *.
  rewrite Ev in Hname. inversion Hname as [|? ? Hv _]; subst.
  destruct (document_split i document Hi) as [Ed Hlen].
  assert (Hl : singleLine (lineAt document i)).
  { rewrite Forall_forall in Hsingle. apply Hsingle. unfold lineAt. now apply nth_In. }
  assert (Hparts : Forall (fun l => ~ looksLikeStart l) (firstn i document)
                   /\ Forall (fun l => ~ looksLikeStart l) (skipn (S i) document)).
  { fold document in Hplain. rewrite Ed in Hplain. apply Forall_app in Hplain.
    destruct Hplain as [Hb Ha]. inversion Ha; subst. now split. }
  destruct Hparts as [Hb Ha].
  rewrite splitLines_replacement by assumption.
  destruct (revert_one_block snapshotPath varName (lineAt document i) _ _ Hb Ha Hl)
    as (edits & Hr & He).
  assert (Hnb : trimStart (lineAt document i) <> "").
  { intros E. apply allChars_trimStart_nil in E.
    rewrite (blank_declares_nothing varName _ None E) in Hm. discriminate. }
  rewrite (indent_trim _ Hnb) in He.
  exists i, edits. split; [exact Hi|]. split; [exact Hr|]. split; [exact He|].
  intros Et. rewrite He, Et. apply (withLine_same i document Hi).
Qed.

Lemma applyInlineStub_parses wb snapshotPath snapshot :
  applyInlineStub wb snapshotPath snapshot <> PatternError.
Proof.
  unfold applyInlineStub.
  destruct (map fst (variables snapshot)) as [|name [|]]; try discriminate.
  destruct (_ || _); [discriminate|]. rewrite candidateLines_eq.
  destruct (List.filter _ _) as [|i0 [|i1 more]]; try discriminate.
  - destruct (applyEdit _ _ _); discriminate.
  - destruct (match showQuickPick wb _ with Some k => _ | None => None end);
      [destruct (applyEdit _ _ _)|]; discriminate.
Qed.

(** A stub applied to the declaration of [order] and reverted. *)
Lemma stub_then_revert_example :
  exists i edits,
    (i < List.length (openTextDocument sampleWorkbench "/src/app.ts"))%nat
    /\ revertDocument sampleStubbed = Some edits
    /\ applyEdits edits sampleStubbed
       = withLine i (trimEnd (lineAt (openTextDocument sampleWorkbench "/src/app.ts") i))
                  (openTextDocument sampleWorkbench "/src/app.ts")
    /\ (trimEnd (lineAt (openTextDocument sampleWorkbench "/src/app.ts") i)
        = lineAt (openTextDocument sampleWorkbench "/src/app.ts") i ->
        applyEdits edits sampleStubbed = openTextDocument sampleWorkbench "/src/app.ts").
Proof.
  refine (stub_then_revert_restores sampleWorkbench "/ws/order.json" sampleStubSnapshot
            "/src/app.ts" sampleStubbed _ _ _ _).
  - vm_compute. reflexivity.
  - repeat constructor.
  - repeat constructor; intros H; vm_compute in H; discriminate H.
  - repeat constructor.
Defined.

Example stub_then_revert_gives_back :
  applyInlineStub sampleWorkbench "/ws/order.json" sampleStubSnapshot
  = StubApplied "/src/app.ts" sampleStubbed
  /\ option_map (fun edits => applyEdits edits sampleStubbed) (revertDocument sampleStubbed)
     = Some sampleDocument.
Proof. vm_compute. split; reflexivity. Qed.

(** X15: the revert leaves alone what holds no stub.  If no line of the
    source files found begins, after its indentation, with the start
    marker, the revert edits and saves no document. *)
Theorem revert_leaves_plain_documents (wb : Workbench) (workspaceRoot : string) :
  (forall uri, In uri (findFiles wb workspaceRoot) ->
               Forall (fun l => ~ looksLikeStart l) (openTextDocument wb uri)) ->
  removeAllInlineStubs wb workspaceRoot = []
  /\ forall uri, In uri (findFiles wb workspaceRoot) ->
                 revertDocument (openTextDocument wb uri) = None.
Proof.
  intros H.
  assert (R : forall document,
             Forall (fun l => ~ looksLikeStart l) document -> revertDocument document = None).
  { intros document Hd. unfold revertDocument. destruct (negb _); [reflexivity|].
    now rewrite (revertEdits_none _ document [] document eq_refl Hd). }
  split; [|intros uri Hu; apply R, H, Hu].
  unfold removeAllInlineStubs.
  induction (findFiles wb workspaceRoot) as [|uri uris IH]; [reflexivity|].
  cbn [flat_map]. rewrite (R _ (H uri (or_introl eq_refl))). cbn [app].
  apply IH. intros u Hu. apply H. now right.
Qed.

(** A workspace whose only source file holds no marker. *)
Lemma revert_leaves_plain_documents_example :
  removeAllInlineStubs sampleWorkbench "/ws" = []
  /\ forall uri, In uri (findFiles sampleWorkbench "/ws") ->
                 revertDocument (openTextDocument sampleWorkbench uri) = None.
Proof.
  apply (revert_leaves_plain_documents sampleWorkbench "/ws").
  intros uri _. repeat constructor; intros H; vm_compute in H; discriminate H.
Defined.

(** X16: the variable name is matched literally.  Whatever characters the
    variable name holds, the pattern built from its escaped text reads as
    a word boundary, one of the keywords [const], [let] and [var], white
    space, the characters of the name as they are, and a word boundary: no
    character of the name acts as an operator, and the pattern is never
    refused. *)
Theorem declaration_pattern_is_literal (varName : string) :
  parsePattern (S (String.length (assignPattern varName))) (assignPattern varName)
  = Some (declarationOf varName)
  /\ (forall text,
        regExpTest (assignPattern varName) text
        = Some (matchSomewhere (declarationOf varName) None text))
  /\ (forall wb snapshotPath snapshot,
        applyInlineStub wb snapshotPath snapshot <> PatternError).
Proof.
  split; [apply parsePattern_assignPattern|]. split.
  - intros text. unfold regExpTest. now rewrite parsePattern_assignPattern.
  - apply applyInlineStub_parses.
Qed.

(* ------------------------------------------------------------------ *)
(** ** The capture command *)

Lemma applyInlineStub_one_variable wb snapshotPath snapshot varName value :
  variables snapshot = [(varName, value)] ->
  applyInlineStub wb snapshotPath snapshot <> StubFailed oneVariableText
  /\ ((file (source snapshot) = "" \/ existsSync wb (file (source snapshot)) = false) ->
      applyInlineStub wb snapshotPath snapshot
      = StubFailed ("Data Snapshot: Source file not found: " ++ file (source snapshot))).
Proof.
  intros Ev. unfold applyInlineStub. rewrite Ev. cbn [map fst].
  destruct (String.eqb_spec (file (source snapshot)) "") as [E0|E0].
  - cbn [orb]. split; [discriminate|reflexivity].
  - cbn [orb]. destruct (existsSync wb (file (source snapshot))) eqn:Ee; cbn [negb].
    + split; [|intros [H|H]; congruence].
      rewrite candidateLines_eq.
      destruct (List.filter _ _) as [|i0 [|i1 more]]; try discriminate.
      * destruct (applyEdit _ _ _); discriminate.
      * destruct (match showQuickPick wb _ with Some k => _ | None => None end);
          [destruct (applyEdit _ _ _)|]; discriminate.
    + split; [discriminate|reflexivity].
Qed.

(** X17: the command stubs what it has captured.  When the capture of the
    command returns a snapshot, the snapshot file has been written before
    the stub is tried; the stub is tried for the selected expression as
    the only variable, so it is never refused for the number of variables
    (nor for its pattern); it fails with the source-file message when the
    frame has no source path or the path does not exist; and the
    information message is shown exactly when the stub was applied. *)
Theorem command_stubs_what_it_captured env wb ws st outcome information st' :
  captureVarCmd env wb ws st = (Returned (Some (outcome, information)), st') ->
  exists snapshotPath snapshot expression value,
    captureVariable env ws st = (Returned (Some (snapshotPath, snapshot)), st')
    /\ acceptedExpression env expression
    /\ variables snapshot = [(expression, value)]
    /\ files st' snapshotPath = Some (JSON_stringify env snapshot)
    /\ outcome = applyInlineStub wb snapshotPath snapshot
    /\ outcome <> StubFailed oneVariableText
    /\ outcome <> PatternError
    /\ ((file (source snapshot) = "" \/ existsSync wb (file (source snapshot)) = false) ->
        outcome = StubFailed ("Data Snapshot: Source file not found: "
                              ++ file (source snapshot)))
    /\ (information = Some stubAppliedText <-> exists filePath document,
                                                 outcome = StubApplied filePath document)
    /\ (information = None \/ information = Some stubAppliedText).
Proof.
  unfold captureVarCmd, bind. intros H.
  destruct (captureVariable env ws st) as [[[[path snapshot]|]| |] s1] eqn:Ec;
    try discriminate.
  assert (Hs : s1 = st' /\ outcome = applyInlineStub wb path snapshot
               /\ information
                  = match applyInlineStub wb path snapshot with
                    | StubApplied _ _ => Some stubAppliedText
                    | _ => None
                    end).
  { destruct (applyInlineStub wb path snapshot); inversion H; auto. }
  destruct Hs as (-> & Ho & Hi). clear H.
  destruct (captureVariable_cases env ws st _ st' Ec)
    as [[_ Hn]|(ex & tf & v & s0 & Ha & _ & Has)]; [now elim (Hn (path, snapshot))|].
  rewrite assemble_eq in Has.
  destruct (isCancellationRequested s0); [discriminate|].
  cbv zeta in Has. injection Has as Hp Hsn Hst.
  assert (Hv : variables snapshot = [(ex, v)]) by now subst snapshot.
  destruct (applyInlineStub_one_variable wb path snapshot ex v Hv) as [N1 N2].
  exists path, snapshot, ex, v.
  split; [reflexivity|]. split; [exact Ha|]. split; [exact Hv|]. split.
  { subst st'. rewrite Hp, Hsn. cbn [files addFsCall]. unfold writeFile.
    now rewrite String.eqb_refl. }
  split; [exact Ho|]. rewrite Ho. split; [exact N1|].
  split; [apply applyInlineStub_parses|].
  split; [exact N2|]. rewrite Hi.
  destruct (applyInlineStub wb path snapshot) as [|text| | |f d]; split;
    try (split; [discriminate|intros (f0 & d0 & Hf); discriminate]); auto.
  split; [intros _; eauto|reflexivity].
Qed.

(** The command on the session of the sample graph: the array is captured
    by the slow path and the declaration of [order] is stubbed. *)
Lemma command_stubs_what_it_captured_example :
  exists snapshotPath snapshot expression value,
    captureVariable sampleEnv "/ws" idle
    = (Returned (Some (snapshotPath, snapshot)),
       snd (captureVarCmd sampleEnv sampleWorkbench "/ws" idle))
    /\ acceptedExpression sampleEnv expression
    /\ variables snapshot = [(expression, value)]
    /\ files (snd (captureVarCmd sampleEnv sampleWorkbench "/ws" idle)) snapshotPath
       = Some (JSON_stringify sampleEnv snapshot)
    /\ StubApplied "/src/app.ts" (sampleStubbedFrom sampleCommandPath)
       = applyInlineStub sampleWorkbench snapshotPath snapshot
    /\ StubApplied "/src/app.ts" (sampleStubbedFrom sampleCommandPath)
       <> StubFailed oneVariableText
    /\ StubApplied "/src/app.ts" (sampleStubbedFrom sampleCommandPath) <> PatternError
    /\ ((file (source snapshot) = "" \/ existsSync sampleWorkbench (file (source snapshot)) = false) ->
        StubApplied "/src/app.ts" (sampleStubbedFrom sampleCommandPath)
        = StubFailed ("Data Snapshot: Source file not found: " ++ file (source snapshot)))
    /\ (Some stubAppliedText = Some stubAppliedText
        <-> exists filePath document,
              StubApplied "/src/app.ts" (sampleStubbedFrom sampleCommandPath)
              = StubApplied filePath document)
    /\ (Some stubAppliedText = None \/ Some stubAppliedText = Some stubAppliedText).
Proof.
  refine (command_stubs_what_it_captured sampleEnv sampleWorkbench "/ws" idle
            (StubApplied "/src/app.ts" (sampleStubbedFrom sampleCommandPath))
            (Some stubAppliedText)
            (snd (captureVarCmd sampleEnv sampleWorkbench "/ws" idle)) _).
  vm_compute. reflexivity.
Defined.
